(** * The price-oracle client and the AsyncInterval scheduler

    A shallow embedding of [Oracle] (the caching price client) and of
    [AsyncInterval] (the repeating-task scheduler), followed by the
    properties of the specification that hold of them and by concrete
    runs for those that do not.

    JavaScript values are a small inductive type, the currency cache is
    an insertion-ordered association list (a JS [Map]), and the methods
    of [Oracle] live in a state / trace / exception monad: the state is
    the instance's fields, the trace records every observable effect
    (network requests, diagnostics, sleeps, bus events), and an
    exception is a thrown [Error]. *)

From Stdlib Require Import ZArith List String Ascii Bool Lia DecimalString.
Import ListNotations.

Local Open Scope string_scope.
Local Open Scope list_scope.
Local Open Scope Z_scope.

(* ================================================================== *)
(** ** JavaScript values *)

(** The values that [Response.json()] can produce, plus [undefined]
    (the result of reading a missing property).  The oracle never
    computes with a price: it stores it, returns it and tests it for
    truthiness, so a number is kept as an integer. *)
#[warnings="-register-all"]
Inductive jsval : Type :=
| JUndefined
| JNull
| JBool (b : bool)
| JNum (n : Z)
| JStr (s : string)
| JArr (l : list jsval)
| JObj (fields : list (string * jsval)).

(** A thrown [Error]; the code only ever reads its [message]. *)
Record exn : Type := Error { message : string }.

(** Truthiness, as [||] and [?.] see it. *)
Definition truthy (v : jsval) : bool :=
  match v with
  | JUndefined | JNull => false
  | JBool b => b
  | JNum n => negb (n =? 0)
  | JStr s => negb (s =? "")%string
  | JArr _ | JObj _ => true
  end.

Definition nullish (v : jsval) : bool :=
  match v with
  | JUndefined | JNull => true
  | _ => false
  end.

(** [a || b] on values. *)
Definition js_or (a b : jsval) : jsval := if truthy a then a else b.

(** Own-property lookup in a parsed object. *)
Fixpoint assoc (name : string) (fields : list (string * jsval)) : option jsval :=
  match fields with
  | [] => None
  | (k, v) :: rest => if (k =? name)%string then Some v else assoc name rest
  end.

(** [e?.message || dflt] for a thrown [Error]. *)
Definition message_or (e : exn) (dflt : string) : string :=
  if (message e =? "")%string then dflt else message e.

(** [String.prototype.toUpperCase] / [toLowerCase] on ASCII letters. *)
Definition upper_ascii (c : ascii) : ascii :=
  let n := nat_of_ascii c in
  if ((97 <=? n) && (n <=? 122))%nat then ascii_of_nat (n - 32) else c.

Definition lower_ascii (c : ascii) : ascii :=
  let n := nat_of_ascii c in
  if ((65 <=? n) && (n <=? 90))%nat then ascii_of_nat (n + 32) else c.

Fixpoint string_map (f : ascii -> ascii) (s : string) : string :=
  match s with
  | EmptyString => EmptyString
  | String c rest => String (f c) (string_map f rest)
  end.

Definition toUpperCase : string -> string := string_map upper_ascii.
Definition toLowerCase : string -> string := string_map lower_ascii.

(** Decimal rendering of an integer inside a template literal. *)
Definition string_of_Z (z : Z) : string := NilZero.string_of_int (Z.to_int z).

(* ================================================================== *)
(** ** The currency cache: a JS [Map] *)

(** Entries in insertion order.  Keys are compared with SameValueZero:
    primitives by value, objects and arrays by reference.  Every object
    or array that reaches the cache as a key was freshly parsed from a
    response body, so as a key it equals no other key. *)
Definition jsmap : Type := list (jsval * jsval).

Definition same_value_zero (a b : jsval) : bool :=
  match a, b with
  | JUndefined, JUndefined => true
  | JNull, JNull => true
  | JBool x, JBool y => Bool.eqb x y
  | JNum x, JNum y => x =? y
  | JStr x, JStr y => (x =? y)%string
  | _, _ => false
  end.

Fixpoint map_get (k : jsval) (m : jsmap) : option jsval :=
  match m with
  | [] => None
  | (k', v) :: rest => if same_value_zero k' k then Some v else map_get k rest
  end.

Definition map_has (k : jsval) (m : jsmap) : bool :=
  match map_get k m with Some _ => true | None => false end.

(** [Map.prototype.set]: overwrite in place, or append. *)
Fixpoint map_set (k v : jsval) (m : jsmap) : jsmap :=
  match m with
  | [] => [(k, v)]
  | (k', v') :: rest =>
      if same_value_zero k' k then (k', v) :: rest
      else (k', v') :: map_set k v rest
  end.

Definition map_keys (m : jsmap) : list jsval := List.map fst m.
Definition map_values (m : jsmap) : list jsval := List.map snd m.

(* ================================================================== *)
(** ** Observable effects and the outside world *)

(** What a diagnostic call is handed: a message or the caught error. *)
Inductive logged : Type :=
| LStr (s : string)
| LErr (e : exn).

Inductive event : Type :=
| Fetch (url : string)                         (* fetch(url) *)
| Warn (x : logged)                            (* debugWarn(DebugTopics.NET, x) *)
| Sleep (ms : Z)                               (* await sleep(ms) *)
| Emit (name : string) (payload : option jsmap). (* getEventEmitter().emit(...) *)

Definition trace : Type := list event.

Inductive completion (A : Type) : Type :=
| Normal (a : A)
| Throw (e : exn).
Arguments Normal {A} a.
Arguments Throw {A} e.

(** An HTTP response.  [ok] is what the Fetch standard makes it: the
    status is in 200..299.  [body] is the outcome of [json()]. *)
Record response : Type := Response { status : Z; body : completion jsval }.

Definition ok (r : response) : bool := (200 <=? status r) && (status r <=? 299).

(** What one call meets once its [fetch] has settled: the outcome of
    the fetch and the clock ([Date.now()], in milliseconds) should the
    call read it.  A fetch that has not settled, and one that never
    does, belong to the calls in flight further down. *)
Record world : Type := World { net : completion response; clock_ms : Z }.

(* ================================================================== *)
(** ** The Oracle instance and its monad *)

Definition ORACLE_BASE : string := "/oracle/api/v1".
Definition ORACLE_ENABLED : bool := false.
Definition ORACLE_RETRY_LIMIT : Z := 3.
Definition FALLBACK_CURRENCIES : list string := ["usd"; "eur"; "gbp"; "btc"].

Record Oracle : Type := mkOracle {
  mapCurrencies : jsmap;
  fLoadedCurrencies : bool;
  nOracleFailures : Z;
  fOracleDisabled : bool
}.

(** A method body: it transforms the instance, appends to the trace and
    either returns or throws. *)
Definition M (A : Type) : Type := Oracle -> completion A * Oracle * trace.

Definition ret {A} (a : A) : M A := fun st => (Normal a, st, []).

Definition bind {A B} (m : M A) (f : A -> M B) : M B :=
  fun st =>
    match m st with
    | (Normal a, st1, t1) =>
        let '(r, st2, t2) := f a st1 in (r, st2, t1 ++ t2)
    | (Throw e, st1, t1) => (Throw e, st1, t1)
    end.

Definition throw {A} (e : exn) : M A := fun st => (Throw e, st, []).

(** [try { m } catch (e) { h e }] *)
Definition try_catch {A} (m : M A) (h : exn -> M A) : M A :=
  fun st =>
    match m st with
    | (Normal a, st1, t1) => (Normal a, st1, t1)
    | (Throw e, st1, t1) =>
        let '(r, st2, t2) := h e st1 in (r, st2, t1 ++ t2)
    end.

Definition gets {A} (f : Oracle -> A) : M A := fun st => (Normal (f st), st, []).
Definition modify (f : Oracle -> Oracle) : M unit := fun st => (Normal tt, f st, []).
Definition tell (e : event) : M unit := fun st => (Normal tt, st, [e]).

(** Settling of an awaited outcome. *)
Definition await {A} (c : completion A) : M A :=
  match c with
  | Normal a => ret a
  | Throw e => throw e
  end.

Declare Scope oracle_scope.
Delimit Scope oracle_scope with oracle.
Notation "x <- m ;; k" := (bind m (fun x => k))
  (at level 61, m at next level, right associativity) : oracle_scope.
Notation "m ;; k" := (bind m (fun _ => k))
  (at level 61, right associativity) : oracle_scope.
Local Open Scope oracle_scope.

Definition result_of {A} (x : completion A * Oracle * trace) : completion A := fst (fst x).
Definition state_of {A} (x : completion A * Oracle * trace) : Oracle := snd (fst x).
Definition trace_of {A} (x : completion A * Oracle * trace) : trace := snd x.

(** Field updates. *)
Definition set_map (m : jsmap) (o : Oracle) : Oracle :=
  mkOracle m (fLoadedCurrencies o) (nOracleFailures o) (fOracleDisabled o).
Definition set_loaded (b : bool) (o : Oracle) : Oracle :=
  mkOracle (mapCurrencies o) b (nOracleFailures o) (fOracleDisabled o).
Definition set_failures (n : Z) (o : Oracle) : Oracle :=
  mkOracle (mapCurrencies o) (fLoadedCurrencies o) n (fOracleDisabled o).
Definition set_disabled (b : bool) (o : Oracle) : Oracle :=
  mkOracle (mapCurrencies o) (fLoadedCurrencies o) (nOracleFailures o) b.

(** [v.name]: a [TypeError] on [null] and [undefined], the own property
    of an object, [undefined] otherwise ("currency" and "value" are on
    no prototype). *)
Definition get_prop (v : jsval) (name : string) : completion jsval :=
  match v with
  | JUndefined =>
      Throw (Error ("Cannot read properties of undefined (reading '" ++ name ++ "')")%string)
  | JNull =>
      Throw (Error ("Cannot read properties of null (reading '" ++ name ++ "')")%string)
  | JObj fields =>
      Normal (match assoc name fields with Some x => x | None => JUndefined end)
  | _ => Normal JUndefined
  end.

(** [v?.name] *)
Definition get_prop_opt (v : jsval) (name : string) : jsval :=
  match get_prop v name with
  | Normal x => x
  | Throw _ => JUndefined
  end.

(** Modelled from the spec: debug.js is not part of the sources at
    hand; [debugWarn] hands its argument to the diagnostic sink and does
    not fail. *)
Definition debugWarn (x : logged) : M unit := tell (Warn x).

(** [await fetch(url)]: the request is made, then the promise settles as
    the world has it. *)
Definition fetch (url : string) (w : world) : M response :=
  tell (Fetch url) ;; await (net w).

(** [await cReq.json()] *)
Definition json (r : response) : M jsval := await (body r).

(* ------------------------------------------------------------------ *)
(** *** Private helpers *)

Definition markOracleSuccess : M unit := modify (set_failures 0).

Definition fallback_record (currency : string) (now : Z) : jsval :=
  JObj [("currency", JStr currency); ("value", JNum 0); ("last_updated", JNum now)].

Fixpoint ensure_loop (codes : list string) (now : Z) (m : jsmap) : jsmap :=
  match codes with
  | [] => m
  | currency :: rest =>
      ensure_loop rest now
        (if negb (map_has (JStr currency) m)
         then map_set (JStr currency) (fallback_record currency now) m
         else m)
  end.

Definition ensureFallbackCurrencies (w : world) : M unit :=
  let now := clock_ms w / 1000 in
  modify (fun o => set_map (ensure_loop FALLBACK_CURRENCIES now (mapCurrencies o)) o).

Definition disableOracle (reason : string) (w : world) : M unit :=
  disabled <- gets fOracleDisabled ;;
  if disabled then ret tt
  else
    modify (set_disabled true) ;;
    ensureFallbackCurrencies w ;;
    modify (set_loaded true) ;;
    debugWarn (LStr ("Oracle disabled: " ++ reason)%string).

Definition markOracleFailure (reason : string) (w : world) : M unit :=
  modify (fun o => set_failures (nOracleFailures o + 1) o) ;;
  n <- gets nOracleFailures ;;
  debugWarn (LStr ("Oracle request failed (" ++ string_of_Z n ++ "/"
                   ++ string_of_Z ORACLE_RETRY_LIMIT ++ "): " ++ reason)%string) ;;
  if n >=? ORACLE_RETRY_LIMIT then disableOracle reason w else ret tt.

(** [new Oracle()], with the build-time toggle as a parameter. *)
Definition Oracle_new (enabled : bool) (w : world) : Oracle :=
  let o := mkOracle [] false 0 false in
  if negb enabled then
    state_of ((modify (set_disabled true) ;;
               ensureFallbackCurrencies w ;;
               modify (set_loaded true)) o)
  else o.

(** The module-level singleton. *)
Definition cOracle (w : world) : Oracle := Oracle_new ORACLE_ENABLED w.

(* ------------------------------------------------------------------ *)
(** *** Public methods *)

Definition cachedPrice (strCurrency : string) (m : jsmap) : jsval :=
  js_or (match map_get (JStr strCurrency) m with
         | Some v => get_prop_opt v "value"
         | None => JUndefined
         end) (JNum 0).

Definition getCachedPrice (strCurrency : string) : M jsval :=
  m <- gets mapCurrencies ;; ret (cachedPrice strCurrency m).

Definition getCachedCurrencies : M jsval :=
  m <- gets mapCurrencies ;; ret (JArr (map_values m)).

Definition getPrice (strCurrency : string) (w : world) : M jsval :=
  disabled <- gets fOracleDisabled ;;
  if disabled then getCachedPrice strCurrency
  else
    try_catch
      (cReq <- fetch (ORACLE_BASE ++ "/price/" ++ strCurrency)%string w ;;
       if negb (ok cReq) then
         if status cReq =? 404 then
           disableOracle "oracle route not found (404)" w ;;
           getCachedPrice strCurrency
         else
           markOracleFailure ("HTTP " ++ string_of_Z (status cReq) ++ " on price")%string w ;;
           getCachedPrice strCurrency
       else
         cCurrency <- json cReq ;;
         markOracleSuccess ;;
         modify (fun o => set_map (map_set (JStr strCurrency) cCurrency (mapCurrencies o)) o) ;;
         await (get_prop cCurrency "value"))
      (fun e =>
         debugWarn (LStr ("Oracle: Failed to fetch " ++ toUpperCase strCurrency ++ " price!")%string) ;;
         debugWarn (LErr e) ;;
         markOracleFailure (message_or e "price fetch failed") w ;;
         getCachedPrice strCurrency).

(** [for (const cCurrency of arrCurrencies) map.set(cCurrency.currency, cCurrency)] *)
Fixpoint upsert_loop (arrCurrencies : list jsval) : M unit :=
  match arrCurrencies with
  | [] => ret tt
  | cCurrency :: rest =>
      k <- await (get_prop cCurrency "currency") ;;
      modify (fun o => set_map (map_set k cCurrency (mapCurrencies o)) o) ;;
      upsert_loop rest
  end.

Definition getCurrencies (w : world) : M jsval :=
  disabled <- gets fOracleDisabled ;;
  if disabled then getCachedCurrencies
  else
    try_catch
      (cReq <- fetch (ORACLE_BASE ++ "/currencies")%string w ;;
       if negb (ok cReq) then
         if status cReq =? 404 then
           disableOracle "oracle route not found (404)" w ;;
           getCachedCurrencies
         else
           markOracleFailure ("HTTP " ++ string_of_Z (status cReq) ++ " on currencies")%string w ;;
           getCachedCurrencies
       else
         arrCurrencies <- json cReq ;;
         match arrCurrencies with
         | JArr (x :: l) =>
             markOracleSuccess ;;
             upsert_loop (x :: l) ;;
             modify (set_loaded true) ;;
             ret arrCurrencies
         | _ =>
             markOracleFailure "empty/invalid currencies payload" w ;;
             getCachedCurrencies
         end)
      (fun e =>
         debugWarn (LStr "Oracle: Failed to fetch currencies!") ;;
         debugWarn (LErr e) ;;
         markOracleFailure (message_or e "currencies fetch failed") w ;;
         getCachedCurrencies).

(** An oracle call made by another task of the page. *)
Inductive other_call : Type :=
| OtherGetPrice (c : string) (w : world)
| OtherGetCurrencies (w : world).

(** The calls that other tasks complete while this one is suspended.
    What they return or throw is theirs. *)
Definition run_other (k : other_call) : M unit :=
  match k with
  | OtherGetPrice c w => try_catch (getPrice c w ;; ret tt) (fun _ => ret tt)
  | OtherGetCurrencies w => try_catch (getCurrencies w ;; ret tt) (fun _ => ret tt)
  end.

Fixpoint run_others (ks : list other_call) : M unit :=
  match ks with
  | [] => ret tt
  | k :: rest => run_other k ;; run_others rest
  end.

(** Modelled from the spec: utils.js is not part of the sources at
    hand; [sleep(ms)] suspends the caller for [ms] milliseconds, during
    which the other tasks of the page run ([meanwhile] are the oracle
    calls they complete), and does not fail. *)
Definition sleep (ms : Z) (meanwhile : list other_call) : M unit :=
  tell (Sleep ms) ;; run_others meanwhile.

(** Modelled from the spec: event_bus.js is not part of the sources at
    hand; [getEventEmitter().emit(name, payload)] publishes a
    notification on the shared bus and does not fail. *)
Definition emit (name : string) (payload : option jsmap) : M unit :=
  tell (Emit name payload).

(** What [load] meets round after round on a page whose calls do not
    overlap its requests: the answer to its [i]-th request, and the
    calls that the other tasks make and complete during the sleep that
    follows it.  Calls that are in flight while [load] waits for an
    answer belong to the calls in flight further down. *)
Record schedule : Type := Schedule {
  answers : nat -> world;
  meanwhile : nat -> list other_call
}.

(** No other task touches the oracle while [load] runs. *)
Definition quiet (ws : nat -> world) : schedule := Schedule ws (fun _ => []).

(** The [while] loop of [load], unrolled at most [fuel] times, from
    round [i] on.  The result is [true] when the loop has exited and
    [false] when it is still running after [fuel] rounds. *)
Fixpoint load_loop (fuel : nat) (sc : schedule) (i : nat) : M bool :=
  loaded <- gets fLoadedCurrencies ;;
  if loaded then ret true
  else
    match fuel with
    | O => ret false
    | S fuel' =>
        getCurrencies (answers sc i) ;;
        loaded' <- gets fLoadedCurrencies ;;
        (if negb loaded' then sleep 5000 (meanwhile sc i) else ret tt) ;;
        load_loop fuel' sc (S i)
    end.

Definition load (fuel : nat) (sc : schedule) : M bool :=
  exited <- load_loop fuel sc 0%nat ;;
  if exited then
    m <- gets mapCurrencies ;;
    emit "currency-loaded" (Some m) ;;
    emit "price-update" None ;;
    ret true
  else ret false.

(* ------------------------------------------------------------------ *)
(** *** Vocabulary of the specification *)

(** A Currency record: an object with a string [currency] and numeric
    [value] and [last_updated]. *)
Definition is_currency (v : jsval) : bool :=
  match v with
  | JObj fields =>
      match assoc "currency" fields, assoc "value" fields, assoc "last_updated" fields with
      | Some (JStr _), Some (JNum _), Some (JNum _) => true
      | _, _, _ => false
      end
  | _ => false
  end.

Definition currency_of (v : jsval) : jsval := get_prop_opt v "currency".
Definition value_of (v : jsval) : jsval := get_prop_opt v "value".

Definition is_lowercase (k : jsval) : bool :=
  match k with
  | JStr s => (s =? toLowerCase s)%string
  | _ => false
  end.

Definition is_fetch (e : event) : bool :=
  match e with Fetch _ => true | _ => false end.

Definition is_emit (e : event) : bool :=
  match e with Emit _ _ => true | _ => false end.

Definition is_warn (e : event) : bool :=
  match e with Warn _ => true | _ => false end.

(** No network request in a trace. *)
Definition no_fetch (t : trace) : Prop := List.filter is_fetch t = [].

(** An OK response carrying [v]. *)
Definition ok_json (status : Z) (v : jsval) (clock : Z) : world :=
  World (Normal (Response status (Normal v))) clock.

(** A fresh instance with the oracle switched on. *)
Definition active_oracle : Oracle := mkOracle [] false 0 false.


(* ------------------------------------------------------------------ *)
(** *** Statements of the specification that are compared with the code *)

(** "[getPrice] upserts the record into the cache keyed by the record's
    own currency field, resets the failure counter and returns the
    record's value." *)
Definition getPrice_keys_by_record_field
    (st : Oracle) (c : string) (w : world) (rec : jsval) : Prop :=
  let r := getPrice c w st in
  nOracleFailures (state_of r) = 0 /\
  mapCurrencies (state_of r) = map_set (currency_of rec) rec (mapCurrencies st) /\
  result_of r = Normal (value_of rec).

(** Sample records. *)
Definition rec_eur : jsval :=
  JObj [("currency", JStr "eur"); ("value", JNum 5); ("last_updated", JNum 1700000000)].
Definition rec_usd (v : Z) : jsval :=
  JObj [("currency", JStr "usd"); ("value", JNum v); ("last_updated", JNum 1700000000)].

(* ------------------------------------------------------------------ *)
(** *** The states that the bookkeeping helpers lead to *)

(** The instance after [#disableOracle]. *)
Definition disabled_state (w : world) (st : Oracle) : Oracle :=
  if fOracleDisabled st then st
  else mkOracle (ensure_loop FALLBACK_CURRENCIES (clock_ms w / 1000) (mapCurrencies st))
                true (nOracleFailures st) true.

(** The instance after [#markOracleFailure]. *)
Definition failed_state (w : world) (st : Oracle) : Oracle :=
  let st1 := set_failures (nOracleFailures st + 1) st in
  if nOracleFailures st1 >=? ORACLE_RETRY_LIMIT then disabled_state w st1 else st1.

(** The instance after [#markOracleSuccess] and [map.set(k, v)]. *)
Definition stored_state (k v : jsval) (st : Oracle) : Oracle :=
  set_map (map_set k v (mapCurrencies st)) (set_failures 0 st).

(** The answers that make [getPrice] take a failure path: the fetch
    rejects, the status is not 2xx, the body does not parse or parses to
    [null]. *)
Definition price_failure (w : world) : bool :=
  match net w with
  | Throw _ => true
  | Normal r =>
      if ok r then
        match body r with
        | Throw _ => true
        | Normal v => nullish v
        end
      else true
  end.

(** The same for [getCurrencies]: the fetch rejects, the status is not
    2xx, the body does not parse, is not an array, is empty or has a
    [null] element. *)
Definition currencies_failure (w : world) : bool :=
  match net w with
  | Throw _ => true
  | Normal r =>
      if ok r then
        match body r with
        | Normal (JArr (x :: l)) => existsb nullish (x :: l)
        | _ => true
        end
      else true
  end.

(** The answer is a 404. *)
Definition not_found (w : world) : bool :=
  match net w with
  | Normal r => status r =? 404
  | Throw _ => false
  end.

(** The cache after the upsert loop over a fetched list, and the error
    that stopped the loop, if any. *)
Fixpoint upsert_all (l : list jsval) (m : jsmap) : jsmap * option exn :=
  match l with
  | [] => (m, None)
  | x :: rest =>
      match get_prop x "currency" with
      | Normal k => upsert_all rest (map_set k x m)
      | Throw e => (m, Some e)
      end
  end.

Definition cached_price_at (c : string) (st : Oracle) : completion jsval * Oracle :=
  (Normal (cachedPrice c (mapCurrencies st)), st).

Definition cached_list_at (st : Oracle) : completion jsval * Oracle :=
  (Normal (JArr (map_values (mapCurrencies st))), st).

(** Result and final state of [getPrice] on an active oracle, read off
    its branches. *)
Definition getPrice_summary (c : string) (w : world) (st : Oracle)
  : completion jsval * Oracle :=
  match net w with
  | Throw _ => cached_price_at c (failed_state w st)
  | Normal r =>
      if ok r then
        match body r with
        | Throw _ => cached_price_at c (failed_state w st)
        | Normal v =>
            match get_prop v "value" with
            | Normal x => (Normal x, stored_state (JStr c) v st)
            | Throw _ => cached_price_at c (failed_state w (stored_state (JStr c) v st))
            end
        end
      else if status r =? 404 then cached_price_at c (disabled_state w st)
      else cached_price_at c (failed_state w st)
  end.

(** Result and final state of [getCurrencies] on an active oracle. *)
Definition getCurrencies_summary (w : world) (st : Oracle)
  : completion jsval * Oracle :=
  match net w with
  | Throw _ => cached_list_at (failed_state w st)
  | Normal r =>
      if ok r then
        match body r with
        | Normal (JArr (x :: l)) =>
            match upsert_all (x :: l) (mapCurrencies st) with
            | (m, None) =>
                (Normal (JArr (x :: l)), set_loaded true (set_map m (set_failures 0 st)))
            | (m, Some _) =>
                cached_list_at (failed_state w (set_map m (set_failures 0 st)))
            end
        | _ => cached_list_at (failed_state w st)
        end
      else if status r =? 404 then cached_list_at (disabled_state w st)
      else cached_list_at (failed_state w st)
  end.

(* ------------------------------------------------------------------ *)
(** *** Calls, runs and reachable instances *)

(** A call of a public method, with what it meets in the world. *)
Inductive call : Type :=
| GetCachedPrice (c : string)
| GetCachedCurrencies
| GetPrice (c : string) (w : world)
| GetCurrencies (w : world)
| Load (fuel : nat) (sc : schedule).

Definition run_call (k : call) (st : Oracle) : Oracle * trace :=
  match k with
  | GetCachedPrice c => let r := getCachedPrice c st in (state_of r, trace_of r)
  | GetCachedCurrencies => let r := getCachedCurrencies st in (state_of r, trace_of r)
  | GetPrice c w => let r := getPrice c w st in (state_of r, trace_of r)
  | GetCurrencies w => let r := getCurrencies w st in (state_of r, trace_of r)
  | Load fuel sc => let r := load fuel sc st in (state_of r, trace_of r)
  end.

Fixpoint run_calls (ks : list call) (st : Oracle) : Oracle * trace :=
  match ks with
  | [] => (st, [])
  | k :: rest =>
      let (st1, t1) := run_call k st in
      let (st2, t2) := run_calls rest st1 in
      (st2, t1 ++ t2)
  end.

(** The instances that calls made one after the other lead to: a
    constructed one, after any number of calls, each of which is over
    before the next is made.  (Overlapping calls are the business of
    the calls in flight further down.) *)
Inductive reachable : Oracle -> Prop :=
| reach_new enabled w : reachable (Oracle_new enabled w)
| reach_call k st : reachable st -> reachable (fst (run_call k st)).

(** What holds of every such instance: an active one has fewer
    failures than the limit, a disabled one is marked loaded. *)
Definition oracle_inv (st : Oracle) : Prop :=
  (fOracleDisabled st = false -> 0 <= nOracleFailures st < ORACLE_RETRY_LIMIT) /\
  (fOracleDisabled st = true -> fLoadedCurrencies st = true).

(** Round [i] of [load]'s loop, entered in state [st]: the instance it
    leaves, and its effects: those of the [getCurrencies] call, then,
    unless the call left the instance loaded, the sleep and what the
    other tasks do meanwhile. *)
Definition round_state (sc : schedule) (i : nat) (st : Oracle) : Oracle :=
  let st1 := state_of (getCurrencies (answers sc i) st) in
  if fLoadedCurrencies st1 then st1
  else state_of (run_others (meanwhile sc i) st1).

Definition round_effects (sc : schedule) (i : nat) (st : Oracle) : trace :=
  let r := getCurrencies (answers sc i) st in
  trace_of r ++
  (if fLoadedCurrencies (state_of r) then []
   else Sleep 5000 :: trace_of (run_others (meanwhile sc i) (state_of r))).

(** The instance after the first [n] rounds of [load]'s loop. *)
Fixpoint state_after (sc : schedule) (n : nat) (st : Oracle) : Oracle :=
  match n with
  | O => st
  | S n' => round_state sc n' (state_after sc n' st)
  end.

(** The effects of the [k] rounds from round [i] on. *)
Fixpoint rounds_from (sc : schedule) (st : Oracle) (i k : nat) : trace :=
  match k with
  | O => []
  | S k' => round_effects sc i (state_after sc i st) ++ rounds_from sc st (S i) k'
  end.

Definition is_sleep (e : event) : bool :=
  match e with Sleep _ => true | _ => false end.

(** The two notifications that end [load]. *)
Definition load_events (st : Oracle) : trace :=
  [Emit "currency-loaded" (Some (mapCurrencies st)); Emit "price-update" None].

(** Sample answers of the network. *)
Definition http_error (status : Z) : world :=
  World (Normal (Response status (Throw (Error "Unexpected end of JSON input")))) 0.
Definition network_down : world := World (Throw (Error "Failed to fetch")) 0.

(** An OK answer whose list has a [null] element: the upsert loop
    throws on it after the failure counter has been reset. *)
Definition null_element_answer (w : world) : bool :=
  match net w with
  | Normal r =>
      ok r &&
      match body r with
      | Normal (JArr (x :: l)) => existsb nullish (x :: l)
      | _ => false
      end
  | Throw _ => false
  end.

(** "[load] always resolves": some number of rounds brings it to its
    end. *)
Definition load_always_resolves (st : Oracle) (sc : schedule) : Prop :=
  exists fuel, result_of (load fuel sc st) = Normal true.

(** The bulk endpoint is broken (HTTP 500) while the price endpoint
    works, and another task fetches a price during each sleep of
    [load]. *)
Definition bulk_endpoint_down : schedule :=
  Schedule (fun _ => http_error 500)
           (fun _ => [OtherGetPrice "usd" (ok_json 200 (rec_usd 1) 0)]).

(** A server that answers every request with [[null]], and no other
    task. *)
Definition null_list_server : schedule :=
  quiet (fun _ => ok_json 200 (JArr [JNull]) 0).

(** A fetched record is retrievable: [getCachedPrice], asked for the
    record's own currency field, gives the record's value. *)
Definition retrievable (rec : jsval) (st : Oracle) : Prop :=
  match currency_of rec with
  | JStr s => result_of (getCachedPrice s st) = Normal (value_of rec)
  | _ => False
  end.

(** "After [getCurrencies] each returned record is retrievable." *)
Definition getCurrencies_records_retrievable
    (st : Oracle) (w : world) (l : list jsval) : Prop :=
  forall rec, In rec l -> retrievable rec (state_of (getCurrencies w st)).

(** [map.set(cCurrency.currency, cCurrency)] *)
Definition upsert (m : jsmap) (cCurrency : jsval) : jsmap :=
  map_set (currency_of cCurrency) cCurrency m.

(** "Every key of the cache is a lowercase string." *)
Definition keys_lowercase (m : jsmap) : Prop :=
  Forall (fun k => is_lowercase k = true) (map_keys m).

Definition getPrice_keeps_keys_lowercase (st : Oracle) (c : string) (w : world) : Prop :=
  keys_lowercase (mapCurrencies st) ->
  keys_lowercase (mapCurrencies (state_of (getPrice c w st))).

(** The cache of an instance that was born disabled at time [now]. *)
Definition fallback_cache (now : Z) : jsmap :=
  [(JStr "usd", fallback_record "usd" now);
   (JStr "eur", fallback_record "eur" now);
   (JStr "gbp", fallback_record "gbp" now);
   (JStr "btc", fallback_record "btc" now)].

(** The answer is a non-2xx status other than 404. *)
Definition http_failure (w : world) : bool :=
  match net w with
  | Normal r => negb (ok r) && negb (status r =? 404)
  | Throw _ => false
  end.

(** What is known of a completed stretch of oracle calls: it returned,
    it kept the invariant, it left a disabled instance alone without a
    request, and it neither slept nor notified. *)
Definition harmless (st : Oracle) (x : completion unit * Oracle * trace) : Prop :=
  result_of x = Normal tt /\
  (oracle_inv st -> oracle_inv (state_of x)) /\
  (fOracleDisabled st = true -> state_of x = st /\ no_fetch (trace_of x)) /\
  List.filter is_emit (trace_of x) = [] /\
  List.filter is_sleep (trace_of x) = [].

(* ================================================================== *)
(** ** AsyncInterval on a virtual event loop *)

(** The scheduler is event-driven code, so it is embedded as a
    transition system over the macrotasks of the event loop.  Pending
    [setTimeout] callbacks sit in a queue ordered by due time, first
    come first served among equal due times; the host program and the
    awaited callback act at moments of their own choosing, which the
    labels of the transitions carry. *)
Module AsyncInterval.

(** What a pending timer will run. *)
Inductive timer_task : Type :=
| Resume        (* the [sleep(timeOut)] of the loop resolves *)
| Deactivate.   (* the arrow function of [clearInterval] *)

Record timer : Type := Timer { due : Z; task : timer_task }.

(** Where the async function [#setInterval] stands. *)
Inductive phase : Type :=
| InCallback    (* suspended at [await cb()] *)
| Sleeping      (* suspended at [await sleep(timeOut)] *)
| Exited.       (* the [while] loop is over *)

Record state : Type := State {
  active : bool;            (* #active *)
  where_ : phase;
  now : Z;                  (* virtual clock, ms *)
  timers : list timer;      (* pending setTimeout callbacks *)
  invocations : nat;        (* calls of [cb] so far *)
  errors : list exn         (* what [console.error] was given *)
}.

(** A new timer queues behind those that are due no later. *)
Fixpoint insert_timer (t : timer) (q : list timer) : list timer :=
  match q with
  | [] => [t]
  | x :: rest =>
      if due x <=? due t then x :: insert_timer t rest else t :: x :: rest
  end.

(** The longest delay that a timer of the platform can hold: a signed
    32-bit number of milliseconds, a little under 25 days. *)
Definition TIMEOUT_MAX : Z := 2147483647.

(** The delay that the platform applies to [setTimeout(f, ms)].  A delay
    from 0 to [TIMEOUT_MAX] is honoured.  Any other one is not: a
    negative delay counts as 0, and a delay above [TIMEOUT_MAX] does not
    fit the timer, which then runs [f] at the next turn of the timers
    instead of waiting. *)
Definition timer_delay (ms : Z) : Z :=
  if (0 <=? ms) && (ms <=? TIMEOUT_MAX) then ms else 0.

(** [setTimeout(task, ms)] at time [at_]. *)
Definition setTimeout (k : timer_task) (ms : Z) (at_ : Z) (q : list timer) : list timer :=
  insert_timer (Timer (at_ + timer_delay ms) k) q.

(** The head of the loop: [while (this.#active) { ... cb() ...]. *)
Definition loop_head (s : state) : state :=
  if active s then
    State true InCallback (now s) (timers s) (S (invocations s)) (errors s)
  else
    State false Exited (now s) (timers s) (invocations s) (errors s).

(** [new AsyncInterval(cb, timeOut)] at time [t0]: the constructor
    enters the loop, which calls [cb] at once. *)
Definition create (t0 : Z) : state := loop_head (State true Exited t0 [] 0 []).

(** Modelled from the spec: utils.js is not part of the sources at
    hand; [sleep(ms)] resolves once [ms] milliseconds have elapsed (at
    once for a negative [ms]), whatever [ms] is: the wake-up of the loop
    is a timer that is due then. *)
Definition sleep (ms : Z) (at_ : Z) (q : list timer) : list timer :=
  insert_timer (Timer (at_ + Z.max 0 ms) Resume) q.

(** The awaited [cb()] settles at time [at_] with [outcome]: the [catch]
    block logs a failure, then the loop sleeps. *)
Definition after_callback (timeOut : Z) (at_ : Z) (outcome : completion unit)
    (s : state) : state :=
  let errors' :=
    match outcome with
    | Normal _ => errors s
    | Throw e => errors s ++ [e]
    end in
  State (active s) Sleeping at_ (sleep timeOut at_ (timers s))
        (invocations s) errors'.

(** [clearInterval(timeOut)], called at time [at_]: the arrow function
    that lowers the flag is handed to the platform's [setTimeout]. *)
Definition clearInterval (timeOut : Z) (at_ : Z) (s : state) : state :=
  State (active s) (where_ s) at_ (setTimeout Deactivate timeOut at_ (timers s))
        (invocations s) (errors s).

(** The timer at the head of the queue runs. *)
Definition fire (s : state) : option state :=
  match timers s with
  | [] => None
  | t :: rest =>
      let s' := State (active s) (where_ s) (Z.max (now s) (due t)) rest
                      (invocations s) (errors s) in
      Some (match task t with
            | Resume => loop_head s'
            | Deactivate =>
                State false (where_ s') (now s') (timers s') (invocations s') (errors s')
            end)
  end.

Inductive label : Type :=
| Settle (at_ : Z) (outcome : completion unit)   (* the awaited [cb()] settles *)
| Fire                                           (* the next timer runs *)
| Clear (at_ : Z) (timeOut : Z).                 (* the host calls [clearInterval] *)

(** One macrotask.  Time does not run backwards, and only a callback in
    flight can settle. *)
Definition step (timeOut : Z) (l : label) (s : state) : option state :=
  match l with
  | Settle at_ outcome =>
      match where_ s with
      | InCallback =>
          if now s <=? at_ then Some (after_callback timeOut at_ outcome s) else None
      | _ => None
      end
  | Fire => fire s
  | Clear at_ ms =>
      if now s <=? at_ then Some (clearInterval ms at_ s) else None
  end.

Fixpoint run (timeOut : Z) (ls : list label) (s : state) : option state :=
  match ls with
  | [] => Some s
  | l :: rest =>
      match step timeOut l s with
      | Some s' => run timeOut rest s'
      | None => None
      end
  end.

Definition is_clear (l : label) : bool :=
  match l with Clear _ _ => true | _ => false end.

Definition is_resume (t : timer) : bool :=
  match task t with Resume => true | Deactivate => false end.

(** One turn of the loop with a callback that fails with [e] as soon as
    it is called: the failure is caught, the loop sleeps, the timer
    runs. *)
Definition failing_round (e : exn) (s : state) : list label :=
  [Settle (now s) (Throw e); Fire].

Fixpoint failing_rounds (timeOut : Z) (e : exn) (n : nat) (s : state) : option state :=
  match n with
  | O => Some s
  | S n' =>
      match run timeOut (failing_round e s) s with
      | Some s' => failing_rounds timeOut e n' s'
      | None => None
      end
  end.

(* ------------------------------------------------------------------ *)
(** *** Invariants of the runs *)

Definition count_resume (q : list timer) : nat := List.length (List.filter is_resume q).

(** At most one wake-up of the loop is pending, and exactly when the
    loop sleeps. *)
Definition loop_inv (s : state) : Prop :=
  count_resume (timers s) = match where_ s with Sleeping => 1%nat | _ => 0%nat end.

(** The interval is on, its loop has not exited, and nothing but
    wake-ups of the loop is pending. *)
Definition alive (s : state) : Prop :=
  active s = true /\ where_ s <> Exited /\
  Forall (fun t => task t = Resume) (timers s).

(** Every pending deactivation comes from a [clearInterval] call and
    is due when the delay that the platform applies to that call has
    elapsed; the flag is down only once such a delay has elapsed. *)
Definition deferred (hist : list label) (s : state) : Prop :=
  (forall t, In t (timers s) -> task t = Deactivate ->
     exists at_ ms, In (Clear at_ ms) hist /\ at_ + timer_delay ms = due t) /\
  (active s = false ->
     exists at_ ms, In (Clear at_ ms) hist /\ at_ + timer_delay ms <= now s).

(** The claim as the spec words it: the flag goes down only after the
    timeout given to [clearInterval] has elapsed, whatever that timeout
    is. *)
Definition flag_waits_for_the_given_timeout (timeOut t0 : Z) : Prop :=
  forall ls s,
    run timeOut ls (create t0) = Some s -> active s = false ->
    exists at_ ms, In (Clear at_ ms) ls /\ at_ + Z.max 0 ms <= now s.

(** The deactivation that is due at [T] is either still queued, with
    at most one wake-up of the loop ahead of it, or it has run.  [c] is
    the number of calls of [cb] that this allows. *)
Definition winding_down (T : Z) (c : nat) (s : state) : Prop :=
  T <= now s /\
  ((exists pre post,
      timers s = pre ++ Timer T Deactivate :: post /\
      Forall (fun x => due x <= T) pre /\
      (invocations s + count_resume pre <= c)%nat)
   \/ (active s = false /\ (invocations s <= c)%nat)).

End AsyncInterval.

(* ================================================================== *)
(** ** Further vocabulary: the rest of the class, call by call *)

(** The network requests of a trace, in order. *)
Definition fetches (t : trace) : trace := List.filter is_fetch t.

(** The diagnostics of a trace, in order. *)
Definition warnings (t : trace) : trace := List.filter is_warn t.

(** The answers that [getPrice] never reads a body from: the fetch
    rejects, the status is not 2xx, or the body does not parse. *)
Definition transport_failure (w : world) : bool :=
  match net w with
  | Throw _ => true
  | Normal r =>
      if ok r then
        match body r with
        | Throw _ => true
        | Normal _ => false
        end
      else true
  end.

(** The answers from which [getCurrencies] stores nothing: as above, or
    a body that is not a non-empty array. *)
Definition bulk_rejected (w : world) : bool :=
  match net w with
  | Throw _ => true
  | Normal r =>
      if ok r then
        match body r with
        | Normal (JArr (_ :: _)) => false
        | _ => true
        end
      else true
  end.

(** The cache [m'] holds the entries of [m], in place and unchanged,
    followed by new ones. *)
Definition cache_extends (m m' : jsmap) : Prop := exists extra, m' = m ++ extra.

(** The keys of [m'] are those of [m], in place, followed by new ones. *)
Definition keys_extend (m m' : jsmap) : Prop :=
  exists extra, map_keys m' = map_keys m ++ extra.

(** The errors with which the awaited callbacks of a run failed, in
    order. *)
Fixpoint thrown (ls : list AsyncInterval.label) : list exn :=
  match ls with
  | [] => []
  | AsyncInterval.Settle _ (Throw e) :: rest => e :: thrown rest
  | _ :: rest => thrown rest
  end.

(** After a callback has settled and the loop has gone to sleep until
    [D]: either [cb] has not been called again (still [c] calls, the
    loop asleep, its wake-up not due before [D]), or the clock has
    reached [D]. *)
Definition asleep_until (D : Z) (c : nat) (s : AsyncInterval.state) : Prop :=
  (AsyncInterval.invocations s = c /\
   AsyncInterval.where_ s = AsyncInterval.Sleeping /\
   forall t, In t (AsyncInterval.timers s) ->
             AsyncInterval.task t = AsyncInterval.Resume -> D <= AsyncInterval.due t)
  \/ D <= AsyncInterval.now s.

(** Every logged error belongs to a call of [cb] that has settled. *)
Definition errors_accounted (s : AsyncInterval.state) : Prop :=
  (List.length (AsyncInterval.errors s)
   + match AsyncInterval.where_ s with AsyncInterval.InCallback => 1 | _ => 0 end
   <= AsyncInterval.invocations s)%nat.

(* ================================================================== *)
(** ** Calls in flight *)

(** An [async] method runs in stretches: from its call, or from the
    settling of the promise that it awaits, up to its next [await] or
    to its end.  A stretch runs alone; between two stretches of one
    call the stretches of other calls may run.  The methods above
    compose the stretches of a call with nothing in between, which is
    what happens when no other call of the page is in flight.  Here each
    stretch is a transition of its own: calls overlap as they do on the
    page (the answer to one request may arrive while another call waits
    for its own), and a promise that never settles leaves the call that
    awaits it suspended for good, since the code sets no timeout. *)

(** Where [getPrice] or [getCurrencies] is suspended. *)
Inductive frame : Type :=
| PriceFetch (strCurrency : string)                   (* getPrice at [await fetch(...)] *)
| PriceBody (strCurrency : string) (cReq : response)  (* getPrice at [await cReq.json()] *)
| BulkFetch                                           (* getCurrencies at [await fetch(...)] *)
| BulkBody (cReq : response).                         (* getCurrencies at [await cReq.json()] *)

(** The promise that a call of [getPrice] or [getCurrencies] has
    returned. *)
Inductive promise : Type :=
| Awaiting (f : frame)    (* pending: the call is suspended at [f] *)
| Resolved (v : jsval)
| Rejected (e : exn).

(** A stretch: it transforms the instance, appends to the trace and
    says where the call stands afterwards. *)
Definition stretch (A : Type) : Type := Oracle -> A * Oracle * trace.

(** The call runs to its end: a [return] resolves its promise, an
    uncaught exception rejects it. *)
Definition finish (m : M jsval) : stretch promise :=
  fun st =>
    match m st with
    | (Normal v, st', t) => (Resolved v, st', t)
    | (Throw e, st', t) => (Rejected e, st', t)
    end.

(** The call runs into an [await]. *)
Definition suspend (f : frame) (t : trace) : stretch promise :=
  fun st => (Awaiting f, st, t).

(* ------------------------------------------------------------------ *)
(** *** The stretches of [getPrice] *)

(** The [catch] block. *)
Definition price_handler (strCurrency : string) (w : world) (e : exn) : M jsval :=
  debugWarn (LStr ("Oracle: Failed to fetch " ++ toUpperCase strCurrency ++ " price!")%string) ;;
  debugWarn (LErr e) ;;
  markOracleFailure (message_or e "price fetch failed") w ;;
  getCachedPrice strCurrency.

(** From the call to [await fetch(...)]: the request is made. *)
Definition getPrice_called (strCurrency : string) : stretch promise :=
  fun st =>
    if fOracleDisabled st then finish (getCachedPrice strCurrency) st
    else suspend (PriceFetch strCurrency)
                 [Fetch (ORACLE_BASE ++ "/price/" ++ strCurrency)%string] st.

(** From the settling of the fetch, as [net w] at time [clock_ms w], to
    [await cReq.json()]. *)
Definition getPrice_fetched (strCurrency : string) (w : world) : stretch promise :=
  match net w with
  | Throw e => finish (price_handler strCurrency w e)
  | Normal cReq =>
      if negb (ok cReq) then
        finish
          (try_catch
             (if status cReq =? 404 then
                disableOracle "oracle route not found (404)" w ;;
                getCachedPrice strCurrency
              else
                markOracleFailure ("HTTP " ++ string_of_Z (status cReq) ++ " on price")%string w ;;
                getCachedPrice strCurrency)
             (price_handler strCurrency w))
      else suspend (PriceBody strCurrency cReq) []
  end.

(** From the settling of [cReq.json()], at time [clock], to the end. *)
Definition getPrice_parsed (strCurrency : string) (cReq : response) (clock : Z)
  : stretch promise :=
  let w := World (Normal cReq) clock in
  finish
    (try_catch
       (cCurrency <- json cReq ;;
        markOracleSuccess ;;
        modify (fun o => set_map (map_set (JStr strCurrency) cCurrency (mapCurrencies o)) o) ;;
        await (get_prop cCurrency "value"))
       (price_handler strCurrency w)).

(* ------------------------------------------------------------------ *)
(** *** The stretches of [getCurrencies] *)

Definition currencies_handler (w : world) (e : exn) : M jsval :=
  debugWarn (LStr "Oracle: Failed to fetch currencies!") ;;
  debugWarn (LErr e) ;;
  markOracleFailure (message_or e "currencies fetch failed") w ;;
  getCachedCurrencies.

Definition getCurrencies_called : stretch promise :=
  fun st =>
    if fOracleDisabled st then finish getCachedCurrencies st
    else suspend BulkFetch [Fetch (ORACLE_BASE ++ "/currencies")%string] st.

Definition getCurrencies_fetched (w : world) : stretch promise :=
  match net w with
  | Throw e => finish (currencies_handler w e)
  | Normal cReq =>
      if negb (ok cReq) then
        finish
          (try_catch
             (if status cReq =? 404 then
                disableOracle "oracle route not found (404)" w ;;
                getCachedCurrencies
              else
                markOracleFailure ("HTTP " ++ string_of_Z (status cReq) ++ " on currencies")%string w ;;
                getCachedCurrencies)
             (currencies_handler w))
      else suspend (BulkBody cReq) []
  end.

Definition getCurrencies_parsed (cReq : response) (clock : Z) : stretch promise :=
  let w := World (Normal cReq) clock in
  finish
    (try_catch
       (arrCurrencies <- json cReq ;;
        match arrCurrencies with
        | JArr (x :: l) =>
            markOracleSuccess ;;
            upsert_loop (x :: l) ;;
            modify (set_loaded true) ;;
            ret arrCurrencies
        | _ =>
            markOracleFailure "empty/invalid currencies payload" w ;;
            getCachedCurrencies
        end)
       (currencies_handler w)).

(* ------------------------------------------------------------------ *)
(** *** The stretches of [load] *)

(** A call in flight or over. *)
Inductive task : Type :=
| Called (p : promise)     (* a call of [getPrice] or [getCurrencies] *)
| Loading (p : promise)    (* [load] at [await this.getCurrencies()], [p] being the promise awaited *)
| Dozing                   (* [load] at [await sleep(5000)] *)
| Loaded                   (* [load] has resolved *)
| LoadRejected (e : exn).  (* [load] has rejected *)

(** The two notifications after the loop. *)
Definition load_exit : M unit :=
  m <- gets mapCurrencies ;;
  emit "currency-loaded" (Some m) ;;
  emit "price-update" None.

(** From the test of the [while] loop on: out of the loop to the end,
    or into [this.getCurrencies()], which runs up to its first [await]
    or returns at once, and then to the [await] on its promise. *)
Definition load_head : stretch task :=
  fun st =>
    if fLoadedCurrencies st then
      match load_exit st with
      | (Normal _, st', t) => (Loaded, st', t)
      | (Throw e, st', t) => (LoadRejected e, st', t)
      end
    else
      let '(p, st', t) := getCurrencies_called st in (Loading p, st', t).

(** From the settling of the promise of [this.getCurrencies()] on: a
    rejection is not caught; otherwise into the sleep or back to the
    test of the loop.  The other tasks of the page act through ticks of
    their own. *)
Definition load_returned (p : promise) : option (stretch task) :=
  match p with
  | Awaiting _ => None
  | Rejected e => Some (fun st => (LoadRejected e, st, []))
  | Resolved _ =>
      Some (fun st =>
              if negb (fLoadedCurrencies st) then (Dozing, st, [Sleep 5000])
              else load_head st)
  end.

(* ------------------------------------------------------------------ *)
(** *** The page: one instance, many calls *)

Record system : Type := System {
  oracle : Oracle;       (* the instance that the calls share *)
  tasks : list task;     (* the calls made so far, in order *)
  effects : trace        (* what has been observed so far *)
}.

Definition boot (st : Oracle) : system := System st [] [].

Inductive method : Type :=
| MGetPrice (strCurrency : string)
| MGetCurrencies
| MLoad.

(** What happens next on the page. *)
Inductive tick : Type :=
| Invoke (m : method)            (* [m] is called; the call is the next task *)
| Fetched (t : nat) (w : world)  (* the fetch that task [t] awaits settles as [net w], at [clock_ms w] *)
| Parsed (t : nat) (clock : Z)   (* the [json()] that task [t] awaits settles, at [clock] *)
| Returned (t : nat)             (* [load], task [t], resumes after its [getCurrencies] call *)
| Woke (t : nat).                (* the sleep of [load], task [t], is over *)

Fixpoint replace_nth {A : Type} (n : nat) (x : A) (l : list A) : list A :=
  match l, n with
  | [], _ => []
  | _ :: rest, O => x :: rest
  | y :: rest, S n' => y :: replace_nth n' x rest
  end.

(** The stretch that the settling of the fetch starts, and the one that
    the settling of [json()] starts. *)
Definition fetched (f : frame) (w : world) : option (stretch promise) :=
  match f with
  | PriceFetch c => Some (getPrice_fetched c w)
  | BulkFetch => Some (getCurrencies_fetched w)
  | _ => None
  end.

Definition parsed (f : frame) (clock : Z) : option (stretch promise) :=
  match f with
  | PriceBody c cReq => Some (getPrice_parsed c cReq clock)
  | BulkBody cReq => Some (getCurrencies_parsed cReq clock)
  | _ => None
  end.

Definition as_call (k : stretch promise) : stretch task :=
  fun st => let '(p, st', t) := k st in (Called p, st', t).

Definition as_load (k : stretch promise) : stretch task :=
  fun st => let '(p, st', t) := k st in (Loading p, st', t).

Definition start (m : method) : stretch task :=
  match m with
  | MGetPrice c => as_call (getPrice_called c)
  | MGetCurrencies => as_call getCurrencies_called
  | MLoad => load_head
  end.

Definition spawn (k : stretch task) (s : system) : system :=
  let '(x, st', t) := k (oracle s) in
  System st' (tasks s ++ [x]) (effects s ++ t).

Definition resume (n : nat) (k : stretch task) (s : system) : system :=
  let '(x, st', t) := k (oracle s) in
  System st' (replace_nth n x (tasks s)) (effects s ++ t).

(** One tick.  A tick that no task is waiting for cannot happen. *)
Definition advance (k : tick) (s : system) : option system :=
  match k with
  | Invoke m => Some (spawn (start m) s)
  | Fetched n w =>
      match nth_error (tasks s) n with
      | Some (Called (Awaiting f)) =>
          option_map (fun k => resume n (as_call k) s) (fetched f w)
      | Some (Loading (Awaiting f)) =>
          option_map (fun k => resume n (as_load k) s) (fetched f w)
      | _ => None
      end
  | Parsed n clock =>
      match nth_error (tasks s) n with
      | Some (Called (Awaiting f)) =>
          option_map (fun k => resume n (as_call k) s) (parsed f clock)
      | Some (Loading (Awaiting f)) =>
          option_map (fun k => resume n (as_load k) s) (parsed f clock)
      | _ => None
      end
  | Returned n =>
      match nth_error (tasks s) n with
      | Some (Loading p) => option_map (fun k => resume n k s) (load_returned p)
      | _ => None
      end
  | Woke n =>
      match nth_error (tasks s) n with
      | Some Dozing => Some (resume n load_head s)
      | _ => None
      end
  end.

Fixpoint play (ks : list tick) (s : system) : option system :=
  match ks with
  | [] => Some s
  | k :: rest =>
      match advance k s with
      | Some s' => play rest s'
      | None => None
      end
  end.

(* ------------------------------------------------------------------ *)
(** *** Vocabulary for the calls in flight *)

(** The task that a tick resumes. *)
Definition tick_task (k : tick) : option nat :=
  match k with
  | Invoke _ => None
  | Fetched n _ | Parsed n _ | Returned n | Woke n => Some n
  end.

Definition is_invoke (k : tick) : bool :=
  match k with Invoke _ => true | _ => false end.

(** The call has thrown to its caller. *)
Definition task_rejected (x : task) : bool :=
  match x with
  | Called (Rejected _) | Loading (Rejected _) | LoadRejected _ => true
  | _ => false
  end.

(** The call has returned to its caller. *)
Definition task_resolved (x : task) : bool :=
  match x with
  | Called (Resolved _) | Loaded => true
  | _ => false
  end.

(** The tick brings a fetched list with a [null] element. *)
Definition null_element_tick (k : tick) : bool :=
  match k with
  | Fetched _ w => null_element_answer w
  | _ => false
  end.

(** What holds of the instance whatever calls overlap: the failure
    count is not negative, an active instance has fewer failures than
    the limit, a disabled one is marked loaded and has the four fallback
    codes in its cache. *)
Definition oracle_sound (st : Oracle) : Prop :=
  0 <= nOracleFailures st /\
  (fOracleDisabled st = false -> nOracleFailures st < ORACLE_RETRY_LIMIT) /\
  (fOracleDisabled st = true ->
     fLoadedCurrencies st = true /\
     forall c, In c FALLBACK_CURRENCIES -> map_has (JStr c) (mapCurrencies st) = true).

(** "The call always resolves": [m] is called on the instance [st], and
    whatever the page and the network do next, tick after tick, the
    promise of the call is resolved after some of them. *)
Definition always_resolves (m : method) (st : Oracle) : Prop :=
  forall env : nat -> tick,
    (forall n, play (Invoke m :: List.map env (seq 0 n)) (boot st) <> None) ->
    exists n s,
      play (Invoke m :: List.map env (seq 0 n)) (boot st) = Some s /\
      option_map task_resolved (nth_error (tasks s) 0) = Some true.

(** A page on which price after price is requested and no request is
    ever answered. *)
Definition no_answer : nat -> tick := fun _ => Invoke (MGetPrice "eur").

(** The ticks that [load], called alone on the page, may still need
    before it resolves: four for each failure that the retry budget
    still allows, fewer as the round advances. *)
Definition load_budget (s : system) : Z :=
  let left := 4 * (ORACLE_RETRY_LIMIT - nOracleFailures (oracle s)) in
  match tasks s with
  | [Loading (Awaiting BulkFetch)] => left
  | [Loading (Awaiting (BulkBody _))] => left - 1
  | [Loading (Resolved _)] => if fLoadedCurrencies (oracle s) then 1 else left + 2
  | [Dozing] => if fLoadedCurrencies (oracle s) then 1 else left + 1
  | _ => 0
  end.

(** A stretch that ends well: it does not reject, and it makes no
    request. *)
Definition settles_well (x : promise * Oracle * trace) : Prop :=
  (forall e, fst (fst x) <> Rejected e) /\ forallb is_warn (snd x) = true.

(** The requests that [load], called alone on the page, may still
    make. *)
Definition fetch_budget (s : system) : Z :=
  let left := ORACLE_RETRY_LIMIT - nOracleFailures (oracle s) in
  match tasks s with
  | [Loading (Awaiting _)] => left - 1
  | [Loading (Resolved _)] | [Dozing] => if fLoadedCurrencies (oracle s) then 0 else left
  | _ => 0
  end.

(** The body of the response is a list with a [null] element. *)
Definition null_element_body (cReq : response) : bool :=
  match body cReq with
  | Normal (JArr (x :: l)) => existsb nullish (x :: l)
  | _ => false
  end.

(** [load] is the only call of the page, on an instance that is sound,
    and no list with a [null] element is about to be parsed. *)
Definition load_alone (s : system) : Prop :=
  oracle_sound (oracle s) /\
  match tasks s with
  | [Loading (Awaiting BulkFetch)] => fOracleDisabled (oracle s) = false
  | [Loading (Awaiting (BulkBody cReq))] =>
      fOracleDisabled (oracle s) = false /\ null_element_body cReq = false
  | [Loading (Resolved _)] | [Dozing] | [Loaded] => True
  | _ => False
  end.

(** Where [load], alone on the page, stands: it has resolved, or it
    waits for a tick that can happen whatever it brings. *)
Definition load_moves_on (s : system) : Prop :=
  match tasks s with
  | [Loaded] => True
  | [Loading (Awaiting BulkFetch)] => forall w, advance (Fetched 0 w) s <> None
  | [Loading (Awaiting (BulkBody _))] => forall clock, advance (Parsed 0 clock) s <> None
  | [Loading (Resolved _)] => advance (Returned 0) s <> None
  | [Dozing] => advance (Woke 0) s <> None
  | _ => False
  end.

(** The ticks of a call that runs with no other call in between: the
    fetch settles as [net w] and [json()] as the body of the response,
    both at the time of [w]. *)
Definition alone (n : nat) (w : world) : list tick :=
  match net w with
  | Normal cReq => if ok cReq then [Fetched n w; Parsed n (clock_ms w)] else [Fetched n w]
  | Throw _ => [Fetched n w]
  end.
(* ================================================================== *)
(** ** Lemmas on the cache *)

Arguments string_of_Z : simpl never.
Arguments toUpperCase : simpl never.
Arguments String.append : simpl never.
Arguments Z.div : simpl never.

Lemma same_value_zero_eq a b : same_value_zero a b = true -> a = b.
Proof.
  destruct a, b; simpl; try discriminate; intros H; try reflexivity.
  - apply Bool.eqb_prop in H. now subst.
  - apply Z.eqb_eq in H. now subst.
  - apply String.eqb_eq in H. now subst.
Qed.

Lemma same_value_zero_str s : same_value_zero (JStr s) (JStr s) = true.
Proof. simpl. apply String.eqb_refl. Qed.

Lemma map_get_set_same s v m :
  map_get (JStr s) (map_set (JStr s) v m) = Some v.
Proof.
  induction m as [|[k' v'] m IH]; simpl.
  - now rewrite String.eqb_refl.
  - destruct (same_value_zero k' (JStr s)) eqn:E; simpl; rewrite E; auto.
Qed.

Lemma map_get_set_other k k' v m :
  same_value_zero k k' = false ->
  map_get k' (map_set k v m) = map_get k' m.
Proof.
  intros Hne. induction m as [|[k0 v0] m IH]; simpl.
  - now rewrite Hne.
  - destruct (same_value_zero k0 k) eqn:E; simpl.
    + destruct (same_value_zero k0 k') eqn:E'; auto.
      apply same_value_zero_eq in E. subst k0. congruence.
    + destruct (same_value_zero k0 k'); auto.
Qed.

Lemma map_keys_set k v m :
  map_keys (map_set k v m) = map_keys m \/ map_keys (map_set k v m) = map_keys m ++ [k].
Proof.
  induction m as [|[k0 v0] m IH]; simpl.
  - now right.
  - destruct (same_value_zero k0 k); simpl.
    + now left.
    + destruct IH as [IH|IH]; unfold map_keys in *; rewrite IH; auto.
Qed.

Lemma map_has_set_present s v m :
  map_has (JStr s) m = true -> map_keys (map_set (JStr s) v m) = map_keys m.
Proof.
  unfold map_has. induction m as [|[k0 v0] m IH]; simpl; try discriminate.
  destruct (same_value_zero k0 (JStr s)); simpl; auto.
  intros H. unfold map_keys in *. now rewrite IH.
Qed.

(** Running a method: unfold the monad and compute. *)
Ltac run :=
  unfold getPrice, getCurrencies, getCachedPrice, getCachedCurrencies,
    markOracleFailure, markOracleSuccess, disableOracle, ensureFallbackCurrencies,
    debugWarn, fetch, json, sleep, emit, await, try_catch, bind, ret, throw,
    gets, modify, tell, result_of, state_of, trace_of in *;
  cbn in *.

(* ================================================================== *)
(** ** getPrice on an OK response *)

Lemma is_currency_value rec :
  is_currency rec = true -> exists v, get_prop rec "value" = Normal (JNum v).
Proof.
  destruct rec; simpl; try discriminate.
  destruct (assoc "currency" fields) as [[]|]; try discriminate.
  destruct (assoc "value" fields) as [[]|]; try discriminate.
  intros _. eauto.
Qed.

Lemma is_currency_field rec :
  is_currency rec = true -> exists s, get_prop rec "currency" = Normal (JStr s).
Proof.
  destruct rec; simpl; try discriminate.
  destruct (assoc "currency" fields) as [[]|]; try discriminate.
  intros _. eauto.
Qed.

(** The run of [getPrice] on an OK response whose body has a readable
    [value] property. *)
Lemma getPrice_ok_run st c status body v clock :
  fOracleDisabled st = false ->
  ok (Response status (Normal body)) = true ->
  get_prop body "value" = Normal v ->
  getPrice c (ok_json status body clock) st =
    (Normal v,
     set_map (map_set (JStr c) body (mapCurrencies st)) (set_failures 0 st),
     [Fetch (ORACLE_BASE ++ "/price/" ++ c)%string]).
Proof.
  intros Hact Hok Hv. unfold ok in Hok. simpl in Hok.
  run. rewrite Hact. unfold ok. cbn. rewrite Hok. cbn. rewrite Hv. reflexivity.
Qed.

(** C1 (as amended): on an OK response carrying a Currency record,
    [getPrice c] resets the failure counter to 0, stores the record in
    the cache under the requested code [c] (not under the record's own
    currency field, which is neither checked nor used) and returns the
    record's value. *)
Theorem getPrice_ok_caches_under_requested_code st c status rec clock :
  fOracleDisabled st = false ->
  ok (Response status (Normal rec)) = true ->
  is_currency rec = true ->
  let r := getPrice c (ok_json status rec clock) st in
  result_of r = Normal (value_of rec) /\
  nOracleFailures (state_of r) = 0 /\
  mapCurrencies (state_of r) = map_set (JStr c) rec (mapCurrencies st) /\
  map_get (JStr c) (mapCurrencies (state_of r)) = Some rec.
Proof.
  intros Hact Hok Hrec r.
  destruct (is_currency_value rec Hrec) as [v Hv].
  subst r. rewrite (getPrice_ok_run st c status rec (JNum v) clock Hact Hok Hv).
  unfold result_of, state_of, value_of, get_prop_opt. rewrite Hv. cbn.
  repeat split. apply map_get_set_same.
Qed.

Lemma getPrice_ok_caches_under_requested_code_witness :
  let r := getPrice "usd" (ok_json 200 rec_eur 0) active_oracle in
  result_of r = Normal (JNum 5) /\
  nOracleFailures (state_of r) = 0 /\
  mapCurrencies (state_of r) = [(JStr "usd", rec_eur)] /\
  map_get (JStr "usd") (mapCurrencies (state_of r)) = Some rec_eur.
Proof.
  apply (getPrice_ok_caches_under_requested_code active_oracle "usd" 200 rec_eur 0);
    reflexivity.
Defined.

(** C1 (as stated) fails: asked for "usd" and answered with a record
    labelled "eur", the cache gets its entry under "usd", not "eur". *)
Lemma getPrice_keys_by_record_field_counterexample :
  ~ getPrice_keys_by_record_field active_oracle "usd" (ok_json 200 rec_eur 0) rec_eur.
Proof.
  unfold getPrice_keys_by_record_field. intros (_ & Hmap & _).
  vm_compute in Hmap. discriminate Hmap.
Qed.

(** C9: after a successful [getPrice c] (an OK response whose body is a
    record with a numeric [value] field) the cache maps [c] itself to
    the fetched record, [getCachedPrice c] gives back the value that
    [getPrice c] returned, and every other key of the cache, the
    record's own currency field included, is left as it was: no entry
    appears under the record's currency field. *)
Theorem getPrice_ok_then_cached_price st c status rec v clock :
  fOracleDisabled st = false ->
  ok (Response status (Normal rec)) = true ->
  get_prop rec "value" = Normal (JNum v) ->
  let r := getPrice c (ok_json status rec clock) st in
  result_of r = Normal (JNum v) /\
  map_get (JStr c) (mapCurrencies (state_of r)) = Some rec /\
  result_of (getCachedPrice c (state_of r)) = result_of r /\
  (forall k, k <> JStr c ->
     map_get k (mapCurrencies (state_of r)) = map_get k (mapCurrencies st)) /\
  (currency_of rec <> JStr c ->
     map_has (currency_of rec) (mapCurrencies (state_of r))
     = map_has (currency_of rec) (mapCurrencies st)).
Proof.
  intros Hact Hok Hv r.
  subst r. rewrite (getPrice_ok_run st c status rec (JNum v) clock Hact Hok Hv).
  unfold state_of, result_of. cbn [fst snd set_map set_failures mapCurrencies].
  assert (Hother : forall k, k <> JStr c ->
            map_get k (map_set (JStr c) rec (mapCurrencies st)) = map_get k (mapCurrencies st)).
  { intros k Hk. apply map_get_set_other.
    destruct (same_value_zero (JStr c) k) eqn:E; auto.
    apply same_value_zero_eq in E. congruence. }
  repeat split.
  - apply map_get_set_same.
  - unfold getCachedPrice, bind, gets, ret, cachedPrice. cbn.
    rewrite map_get_set_same. unfold get_prop_opt. rewrite Hv.
    unfold js_or. cbn. destruct (v =? 0) eqn:E; cbn; auto.
    apply Z.eqb_eq in E. now subst.
  - exact Hother.
  - intros Hne. unfold map_has. now rewrite Hother.
Qed.

Lemma getPrice_ok_then_cached_price_witness :
  let r := getPrice "usd" (ok_json 200 rec_eur 0) active_oracle in
  result_of r = Normal (JNum 5) /\
  map_get (JStr "usd") (mapCurrencies (state_of r)) = Some rec_eur /\
  result_of (getCachedPrice "usd" (state_of r)) = Normal (JNum 5) /\
  map_has (JStr "eur") (mapCurrencies (state_of r)) = false.
Proof.
  destruct (getPrice_ok_then_cached_price active_oracle "usd" 200 rec_eur 5 0
              eq_refl eq_refl eq_refl) as (H0 & H1 & H2 & _ & H4).
  split; [exact H0|split; [exact H1|split; [exact H2|]]].
  apply H4. discriminate.
Defined.

(* ================================================================== *)
(** ** Disablement and the fallback currencies *)

Lemma same_value_zero_neq k k' : k <> k' -> same_value_zero k k' = false.
Proof.
  intros H. destruct (same_value_zero k k') eqn:E; auto.
  apply same_value_zero_eq in E. contradiction.
Qed.

Lemma map_set_absent k v m :
  map_has k m = false -> map_set k v m = m ++ [(k, v)].
Proof.
  unfold map_has. induction m as [|[k0 v0] m IH]; simpl; auto.
  destruct (same_value_zero k0 k); try discriminate.
  intros H. now rewrite IH.
Qed.

Lemma map_get_app_present k v m extra :
  map_get k m = Some v -> map_get k (m ++ extra) = Some v.
Proof.
  induction m as [|[k0 v0] m IH]; simpl; try discriminate.
  destruct (same_value_zero k0 k); auto.
Qed.

Section EnsureFallback.
Variable now : Z.

Lemma ensure_loop_get_present codes : forall m k v,
  map_get k m = Some v -> map_get k (ensure_loop codes now m) = Some v.
Proof.
  induction codes as [|c codes IH]; intros m k v Hk; simpl; auto.
  apply IH. destruct (map_has (JStr c) m) eqn:Hc; simpl; auto.
  rewrite map_get_set_other; auto.
  apply same_value_zero_neq. intros <-.
  unfold map_has in Hc. now rewrite Hk in Hc.
Qed.

Lemma ensure_loop_get_other codes : forall m k,
  (forall c, In c codes -> k <> JStr c) ->
  map_get k (ensure_loop codes now m) = map_get k m.
Proof.
  induction codes as [|c codes IH]; intros m k Hk; simpl; auto.
  rewrite IH by (intros; apply Hk; now right).
  destruct (map_has (JStr c) m); simpl; auto.
  apply map_get_set_other, same_value_zero_neq.
  intros E. apply (Hk c); [now left|auto].
Qed.

Lemma ensure_loop_get_fallback codes : forall m c,
  In c codes -> map_get (JStr c) m = None ->
  map_get (JStr c) (ensure_loop codes now m) = Some (fallback_record c now).
Proof.
  induction codes as [|c0 codes IH]; intros m c Hin Hc; simpl; [contradiction|].
  destruct (String.string_dec c0 c) as [->|Hne].
  - unfold map_has. rewrite Hc. simpl.
    apply ensure_loop_get_present, map_get_set_same.
  - destruct Hin as [?|Hin]; [contradiction|].
    apply IH; auto.
    destruct (map_has (JStr c0) m); simpl; auto.
    rewrite map_get_set_other; auto.
    apply same_value_zero_neq. congruence.
Qed.

(** The cache only grows at its end: the entries present before the
    seeding stay where they are. *)
Lemma ensure_loop_extends codes : forall m,
  exists extra, ensure_loop codes now m = m ++ extra /\
    Forall (fun kv => exists c, In c codes /\ kv = (JStr c, fallback_record c now)) extra.
Proof.
  induction codes as [|c codes IH]; intros m; simpl.
  - exists []. now rewrite app_nil_r.
  - destruct (map_has (JStr c) m) eqn:Hc; simpl.
    + destruct (IH m) as (extra & -> & Hall). exists extra. split; auto.
      eapply Forall_impl; [|exact Hall]. intros kv (c' & ? & ?). eauto.
    + rewrite (map_set_absent _ _ _ Hc).
      destruct (IH (m ++ [(JStr c, fallback_record c now)])) as (extra & -> & Hall).
      exists ((JStr c, fallback_record c now) :: extra).
      rewrite <- app_assoc. split; auto.
      constructor; [eauto|].
      eapply Forall_impl; [|exact Hall]. intros kv (c' & ? & ?). eauto.
Qed.
End EnsureFallback.

(** The run of [disableOracle] on an instance that is still active. *)
Lemma disableOracle_active_run st reason w :
  fOracleDisabled st = false ->
  disableOracle reason w st =
    (Normal tt,
     mkOracle (ensure_loop FALLBACK_CURRENCIES (clock_ms w / 1000) (mapCurrencies st))
              true (nOracleFailures st) true,
     [Warn (LStr ("Oracle disabled: " ++ reason)%string)]).
Proof. intros H. run. rewrite H. reflexivity. Qed.

Lemma disableOracle_disabled_run st reason w :
  fOracleDisabled st = true -> disableOracle reason w st = (Normal tt, st, []).
Proof. intros H. run. rewrite H. reflexivity. Qed.

(** C4: disabling an active oracle appends a zero-valued record for
    each of usd, eur, gbp, btc that the cache lacks, keeps every entry
    that the cache already has (those of the fallback codes included),
    sets [loadedCurrencies] and the disabled flag, and logs exactly one
    diagnostic; on an oracle that is already disabled the disable path
    does nothing: same state, no log, no seeding.  Hence disabling
    twice is the same as disabling once. *)
Theorem disableOracle_idempotent_frame st reason w :
  let r := disableOracle reason w st in
  let now := clock_ms w / 1000 in
  (fOracleDisabled st = false ->
     fOracleDisabled (state_of r) = true /\
     fLoadedCurrencies (state_of r) = true /\
     nOracleFailures (state_of r) = nOracleFailures st /\
     (exists extra, mapCurrencies (state_of r) = mapCurrencies st ++ extra) /\
     (forall k v, map_get k (mapCurrencies st) = Some v ->
        map_get k (mapCurrencies (state_of r)) = Some v) /\
     (forall c, In c FALLBACK_CURRENCIES -> map_has (JStr c) (mapCurrencies st) = false ->
        map_get (JStr c) (mapCurrencies (state_of r)) = Some (fallback_record c now) /\
        value_of (fallback_record c now) = JNum 0) /\
     (forall k, (forall c, In c FALLBACK_CURRENCIES -> k <> JStr c) ->
        map_get k (mapCurrencies (state_of r)) = map_get k (mapCurrencies st)) /\
     trace_of r = [Warn (LStr ("Oracle disabled: " ++ reason)%string)]) /\
  (fOracleDisabled st = true -> r = (Normal tt, st, [])) /\
  (forall reason' w', disableOracle reason' w' (state_of r) = (Normal tt, state_of r, [])).
Proof.
  intros r now. subst r. split; [|split].
  - intros Hact. rewrite (disableOracle_active_run _ _ _ Hact).
    unfold state_of, trace_of. cbn [fst snd mapCurrencies fOracleDisabled
      fLoadedCurrencies nOracleFailures].
    repeat split.
    + destruct (ensure_loop_extends now FALLBACK_CURRENCIES (mapCurrencies st))
        as (extra & E & _). eauto.
    + intros k v. apply ensure_loop_get_present.
    + apply ensure_loop_get_fallback; auto.
      unfold map_has in H0. destruct (map_get (JStr c) (mapCurrencies st)); congruence.
    + intros k. apply ensure_loop_get_other.
  - apply disableOracle_disabled_run.
  - intros reason' w'. apply disableOracle_disabled_run.
    destruct (fOracleDisabled st) eqn:Hd.
    + now rewrite (disableOracle_disabled_run _ _ _ Hd).
    + now rewrite (disableOracle_active_run _ _ _ Hd).
Qed.

Lemma disableOracle_idempotent_frame_witness :
  let st := mkOracle [(JStr "usd", rec_usd 7)] false 2 false in
  let r := disableOracle "oracle unavailable" (World (Throw (Error "down")) 5000) st in
  mapCurrencies (state_of r) =
    [(JStr "usd", rec_usd 7);
     (JStr "eur", fallback_record "eur" 5);
     (JStr "gbp", fallback_record "gbp" 5);
     (JStr "btc", fallback_record "btc" 5)] /\
  map_get (JStr "usd") (mapCurrencies (state_of r)) = Some (rec_usd 7) /\
  map_get (JStr "btc") (mapCurrencies (state_of r)) = Some (fallback_record "btc" 5) /\
  trace_of r = [Warn (LStr "Oracle disabled: oracle unavailable")] /\
  disableOracle "again" (World (Throw (Error "down")) 9000) (state_of r)
    = (Normal tt, state_of r, []).
Proof.
  intros st r.
  destruct (disableOracle_idempotent_frame st "oracle unavailable"
              (World (Throw (Error "down")) 5000)) as (Hfirst & _ & Hagain).
  destruct (Hfirst eq_refl) as (_ & _ & _ & _ & Hkeep & Hseed & _ & Hlog).
  split; [reflexivity|]. split; [|split; [|split]].
  - apply Hkeep. reflexivity.
  - apply (Hseed "btc"); [simpl; tauto | reflexivity].
  - exact Hlog.
  - apply Hagain.
Defined.

(* ================================================================== *)
(** ** What the helpers and the two fetching methods do, path by path *)

Lemma disableOracle_state reason w st :
  exists t, disableOracle reason w st = (Normal tt, disabled_state w st, t) /\
            forallb is_warn t = true.
Proof.
  unfold disabled_state. destruct (fOracleDisabled st) eqn:H.
  - rewrite (disableOracle_disabled_run _ _ _ H). eauto.
  - rewrite (disableOracle_active_run _ _ _ H). eauto.
Qed.

Lemma markOracleFailure_state reason w st :
  exists t, markOracleFailure reason w st = (Normal tt, failed_state w st, t) /\
            forallb is_warn t = true.
Proof.
  unfold markOracleFailure, failed_state, bind at 1 2 3, modify, gets, debugWarn, tell.
  cbn [nOracleFailures set_failures app].
  destruct (nOracleFailures st + 1 >=? ORACLE_RETRY_LIMIT).
  - destruct (disableOracle_state reason w (set_failures (nOracleFailures st + 1) st))
      as (t & -> & Ht).
    eexists. split; [reflexivity|]. cbn. exact Ht.
  - unfold ret. eexists. split; reflexivity.
Qed.

Lemma getPrice_disabled_run st c w :
  fOracleDisabled st = true ->
  getPrice c w st = (Normal (cachedPrice c (mapCurrencies st)), st, []).
Proof. intros H. run. rewrite H. reflexivity. Qed.

Lemma getCurrencies_disabled_run st w :
  fOracleDisabled st = true ->
  getCurrencies w st = (Normal (JArr (map_values (mapCurrencies st))), st, []).
Proof. intros H. run. rewrite H. reflexivity. Qed.

(** A step of a method body followed by the cached read. *)
Lemma then_cached_price (m : M unit) c st st' t :
  m st = (Normal tt, st', t) ->
  (m ;; getCachedPrice c) st = (Normal (cachedPrice c (mapCurrencies st')), st', t).
Proof.
  intros H. unfold bind at 1. rewrite H. unfold getCachedPrice, bind, gets, ret.
  cbn. now rewrite app_nil_r.
Qed.

Lemma then_cached_list (m : M unit) st st' t :
  m st = (Normal tt, st', t) ->
  (m ;; getCachedCurrencies) st = (Normal (JArr (map_values (mapCurrencies st'))), st', t).
Proof.
  intros H. unfold bind at 1. rewrite H. unfold getCachedCurrencies, bind, gets, ret.
  cbn. now rewrite app_nil_r.
Qed.

(** The catch block of [getPrice]. *)
Lemma getPrice_catch_run c e w st :
  exists t,
    (debugWarn (LStr ("Oracle: Failed to fetch " ++ toUpperCase c ++ " price!")%string) ;;
     debugWarn (LErr e) ;;
     markOracleFailure (message_or e "price fetch failed") w ;;
     getCachedPrice c) st
    = (Normal (cachedPrice c (mapCurrencies (failed_state w st))), failed_state w st, t)
    /\ forallb is_warn t = true.
Proof.
  destruct (markOracleFailure_state (message_or e "price fetch failed") w st) as (t & Hm & Ht).
  unfold bind at 1 2. unfold debugWarn at 1 2, tell.
  rewrite (then_cached_price _ c st _ t Hm).
  eexists. split; [reflexivity|]. cbn. exact Ht.
Qed.

(** [getPrice] on an active oracle: one request, then the branch that
    the answer selects. *)
Lemma getPrice_active_run st c w :
  fOracleDisabled st = false ->
  exists t,
    getPrice c w st =
      (fst (getPrice_summary c w st), snd (getPrice_summary c w st),
       Fetch (ORACLE_BASE ++ "/price/" ++ c)%string :: t)
    /\ forallb is_warn t = true.
Proof.
  intros Hact. unfold getPrice, getPrice_summary.
  unfold bind at 1. unfold gets at 1. cbn [fst snd]. rewrite Hact. cbn [app].
  unfold try_catch, fetch. unfold bind at 1 2. unfold tell at 1.
  destruct w as [[r|e] clock]; cbn [net await].
  - unfold ret at 1. cbn [app].
    destruct (ok r) eqn:Hok; cbn [negb].
    + unfold json. destruct r as [s [v|e]]; cbn [body await].
      * unfold bind at 1. unfold ret at 1. unfold bind at 1. unfold markOracleSuccess, modify at 1.
        unfold bind at 1. unfold modify at 1. cbn [app].
        destruct (get_prop v "value") as [x|e] eqn:Hv; cbn [await].
        -- unfold ret. cbn. eexists. split; reflexivity.
        -- unfold throw.
           destruct (getPrice_catch_run c e (World (Normal (Response s (Normal v))) clock)
                       (stored_state (JStr c) v st)) as (t & Ht & Hf).
           change (set_map (map_set (JStr c) v (mapCurrencies (set_failures 0 st)))
                     (set_failures 0 st)) with (stored_state (JStr c) v st).
           rewrite Ht. eexists. split; [reflexivity|exact Hf].
      * unfold bind at 1. unfold throw at 1.
        destruct (getPrice_catch_run c e (World (Normal (Response s (Throw e))) clock) st)
          as (t & Ht & Hf).
        rewrite Ht. eexists. split; [reflexivity|exact Hf].
    + destruct (status r =? 404).
      * destruct (disableOracle_state "oracle route not found (404)" (World (Normal r) clock) st)
          as (t & Hd & Hf).
        rewrite (then_cached_price _ c st _ t Hd).
        eexists. split; [reflexivity|exact Hf].
      * destruct (markOracleFailure_state
                    ("HTTP " ++ string_of_Z (status r) ++ " on price")%string
                    (World (Normal r) clock) st) as (t & Hd & Hf).
        rewrite (then_cached_price _ c st _ t Hd).
        eexists. split; [reflexivity|exact Hf].
  - unfold throw at 1.
    destruct (getPrice_catch_run c e (World (Throw e) clock) st) as (t & Ht & Hf).
    rewrite Ht. eexists. split; [reflexivity|exact Hf].
Qed.

(** The upsert loop touches the cache only and stops at the first
    element that has no properties to read. *)
Lemma upsert_loop_run l : forall st,
  upsert_loop l st =
    (match snd (upsert_all l (mapCurrencies st)) with
     | None => Normal tt
     | Some e => Throw e
     end,
     set_map (fst (upsert_all l (mapCurrencies st))) st,
     []).
Proof.
  induction l as [|x l IH]; intros st; simpl.
  - unfold ret. destruct st; reflexivity.
  - unfold bind at 1. destruct (get_prop x "currency") as [k|e]; cbn [await].
    + unfold ret at 1. unfold bind at 1. unfold modify at 1. rewrite IH.
      cbn [mapCurrencies set_map app]. reflexivity.
    + unfold throw. destruct st; reflexivity.
Qed.

(** The catch block of [getCurrencies]. *)
Lemma getCurrencies_catch_run e w st :
  exists t,
    (debugWarn (LStr "Oracle: Failed to fetch currencies!") ;;
     debugWarn (LErr e) ;;
     markOracleFailure (message_or e "currencies fetch failed") w ;;
     getCachedCurrencies) st
    = (Normal (JArr (map_values (mapCurrencies (failed_state w st)))), failed_state w st, t)
    /\ forallb is_warn t = true.
Proof.
  destruct (markOracleFailure_state (message_or e "currencies fetch failed") w st)
    as (t & Hm & Ht).
  unfold bind at 1 2. unfold debugWarn at 1 2, tell.
  rewrite (then_cached_list _ st _ t Hm).
  eexists. split; [reflexivity|]. cbn. exact Ht.
Qed.

Lemma getCurrencies_invalid_run w st :
  exists t,
    (markOracleFailure "empty/invalid currencies payload" w ;; getCachedCurrencies) st
    = (Normal (JArr (map_values (mapCurrencies (failed_state w st)))), failed_state w st, t)
    /\ forallb is_warn t = true.
Proof.
  destruct (markOracleFailure_state "empty/invalid currencies payload" w st) as (t & Hm & Ht).
  rewrite (then_cached_list _ st _ t Hm). eauto.
Qed.

(** [getCurrencies] on an active oracle: one request, then the branch
    that the answer selects. *)
Lemma getCurrencies_active_run st w :
  fOracleDisabled st = false ->
  exists t,
    getCurrencies w st =
      (fst (getCurrencies_summary w st), snd (getCurrencies_summary w st),
       Fetch (ORACLE_BASE ++ "/currencies")%string :: t)
    /\ forallb is_warn t = true.
Proof.
  intros Hact. unfold getCurrencies, getCurrencies_summary.
  unfold bind at 1. unfold gets at 1. cbn [fst snd]. rewrite Hact. cbn [app].
  unfold try_catch, fetch. unfold bind at 1 2. unfold tell at 1.
  destruct w as [[r|e] clock]; cbn [net await].
  - unfold ret at 1. cbn [app].
    destruct (ok r) eqn:Hok; cbn [negb].
    + unfold json. destruct r as [s [v|e]]; cbn [body await].
      * unfold bind at 1. unfold ret at 1. cbn [app].
        set (w := World (Normal (Response s (Normal v))) clock).
        destruct v as [| | | | |[|x l]|];
          try (destruct (getCurrencies_invalid_run w st) as (t & Ht & Hf);
               rewrite Ht; exists t; split; [reflexivity|exact Hf]).
        unfold bind at 1. unfold markOracleSuccess, modify at 1.
        unfold bind at 1. rewrite upsert_loop_run.
        cbn [mapCurrencies set_failures].
        destruct (upsert_all (x :: l) (mapCurrencies st)) as [m [e|]] eqn:Hup; cbn [fst snd].
        -- destruct (getCurrencies_catch_run e w (set_map m (set_failures 0 st)))
             as (t & Ht & Hf).
           cbn [app]. rewrite Ht. eexists. split; [reflexivity|exact Hf].
        -- unfold bind, modify, ret. cbn. eexists. split; reflexivity.
      * unfold bind at 1. unfold throw at 1.
        destruct (getCurrencies_catch_run e (World (Normal (Response s (Throw e))) clock) st)
          as (t & Ht & Hf).
        rewrite Ht. eexists. split; [reflexivity|exact Hf].
    + destruct (status r =? 404).
      * destruct (disableOracle_state "oracle route not found (404)" (World (Normal r) clock) st)
          as (t & Hd & Hf).
        rewrite (then_cached_list _ st _ t Hd).
        eexists. split; [reflexivity|exact Hf].
      * destruct (markOracleFailure_state
                    ("HTTP " ++ string_of_Z (status r) ++ " on currencies")%string
                    (World (Normal r) clock) st) as (t & Hd & Hf).
        rewrite (then_cached_list _ st _ t Hd).
        eexists. split; [reflexivity|exact Hf].
  - unfold throw at 1.
    destruct (getCurrencies_catch_run e (World (Throw e) clock) st) as (t & Ht & Hf).
    rewrite Ht. eexists. split; [reflexivity|exact Hf].
Qed.

(* ================================================================== *)
(** ** The ACTIVE / DISABLED state machine *)

Lemma forallb_warn_no_fetch t : forallb is_warn t = true -> no_fetch t.
Proof.
  unfold no_fetch. induction t as [|e t IH]; simpl; auto.
  destruct e; simpl; try discriminate; auto.
Qed.

Lemma forallb_warn_no_emit t : forallb is_warn t = true -> List.filter is_emit t = [].
Proof.
  induction t as [|e t IH]; simpl; auto.
  destruct e; simpl; try discriminate; auto.
Qed.

Lemma forallb_warn_no_sleep t : forallb is_warn t = true -> List.filter is_sleep t = [].
Proof.
  induction t as [|e t IH]; simpl; auto.
  destruct e; simpl; try discriminate; auto.
Qed.

Lemma ok_not_404 r : ok r = true -> (status r =? 404) = false.
Proof.
  unfold ok. intros H. apply andb_prop in H as [_ H].
  apply Z.leb_le in H. apply Z.eqb_neq. lia.
Qed.

Section Bookkeeping.
Variables (w : world) (st : Oracle).
Hypothesis Hact : fOracleDisabled st = false.

Lemma disabled_state_flags :
  fOracleDisabled (disabled_state w st) = true /\
  fLoadedCurrencies (disabled_state w st) = true /\
  nOracleFailures (disabled_state w st) = nOracleFailures st.
Proof. unfold disabled_state. rewrite Hact. auto. Qed.

Lemma failed_state_below :
  nOracleFailures st + 1 < ORACLE_RETRY_LIMIT ->
  failed_state w st = set_failures (nOracleFailures st + 1) st.
Proof.
  intros H. unfold failed_state. cbn [nOracleFailures set_failures].
  destruct (nOracleFailures st + 1 >=? ORACLE_RETRY_LIMIT) eqn:E; auto.
  rewrite Z.geb_leb in E. apply Z.leb_le in E. lia.
Qed.

Lemma failed_state_limit :
  ORACLE_RETRY_LIMIT <= nOracleFailures st + 1 ->
  failed_state w st =
    mkOracle (ensure_loop FALLBACK_CURRENCIES (clock_ms w / 1000) (mapCurrencies st))
             true (nOracleFailures st + 1) true.
Proof.
  intros H. unfold failed_state. cbn [nOracleFailures set_failures].
  destruct (nOracleFailures st + 1 >=? ORACLE_RETRY_LIMIT) eqn:E.
  - unfold disabled_state. cbn. now rewrite Hact.
  - rewrite Z.geb_leb in E. apply Z.leb_gt in E. lia.
Qed.

(** A recorded failure disables exactly when it brings the counter to
    the limit. *)
Lemma failed_state_disabled_iff :
  0 <= nOracleFailures st < ORACLE_RETRY_LIMIT ->
  (fOracleDisabled (failed_state w st) = true <->
   nOracleFailures (failed_state w st) = ORACLE_RETRY_LIMIT) /\
  nOracleFailures (failed_state w st) = nOracleFailures st + 1 /\
  oracle_inv (failed_state w st).
Proof.
  intros Hn. unfold oracle_inv. unfold ORACLE_RETRY_LIMIT in *.
  destruct (Z_lt_le_dec (nOracleFailures st + 1) ORACLE_RETRY_LIMIT) as [Hlt|Hge].
  - rewrite (failed_state_below Hlt). cbn. rewrite Hact.
    repeat split; try congruence; try (unfold ORACLE_RETRY_LIMIT in *; lia).
  - rewrite (failed_state_limit Hge). cbn.
    repeat split; try congruence; try (unfold ORACLE_RETRY_LIMIT in *; lia).
Qed.
End Bookkeeping.

Lemma oracle_inv_new enabled w : oracle_inv (Oracle_new enabled w).
Proof.
  destruct enabled; unfold oracle_inv, ORACLE_RETRY_LIMIT; cbn; split; intros;
    try congruence; lia.
Qed.

Lemma oracle_inv_disabled w st : oracle_inv st -> oracle_inv (disabled_state w st).
Proof.
  intros Hinv. unfold disabled_state. destruct (fOracleDisabled st) eqn:E; auto.
  unfold oracle_inv. cbn. split; congruence.
Qed.

Lemma oracle_inv_failed w st :
  oracle_inv st -> oracle_inv (failed_state w st).
Proof.
  intros Hinv. destruct (fOracleDisabled st) eqn:E.
  - unfold failed_state. cbn [nOracleFailures set_failures].
    destruct (_ >=? _); unfold disabled_state; cbn; rewrite ?E;
      unfold oracle_inv in *; cbn; rewrite ?E; intuition congruence.
  - apply failed_state_disabled_iff; auto. now apply Hinv.
Qed.

(** A state whose counter was just reset and whose disabled flag is
    that of an active instance. *)
Lemma oracle_inv_reset m b st :
  fOracleDisabled st = false ->
  oracle_inv (mkOracle m b 0 (fOracleDisabled st)).
Proof.
  intros E. unfold oracle_inv. cbn. rewrite E. split; [intros _|congruence].
  unfold ORACLE_RETRY_LIMIT. lia.
Qed.

Lemma getPrice_summary_inv c w st :
  fOracleDisabled st = false -> oracle_inv st ->
  oracle_inv (snd (getPrice_summary c w st)).
Proof.
  intros Hact Hinv. unfold getPrice_summary.
  destruct (net w) as [r|e]; [|now apply oracle_inv_failed].
  destruct (ok r).
  - destruct (body r) as [v|e]; [|now apply oracle_inv_failed].
    destruct (get_prop v "value"); cbn [snd cached_price_at].
    + now apply oracle_inv_reset.
    + apply oracle_inv_failed. now apply oracle_inv_reset.
  - destruct (status r =? 404); cbn [snd cached_price_at].
    + now apply oracle_inv_disabled.
    + now apply oracle_inv_failed.
Qed.

Lemma getCurrencies_summary_inv w st :
  fOracleDisabled st = false -> oracle_inv st ->
  oracle_inv (snd (getCurrencies_summary w st)).
Proof.
  intros Hact Hinv. unfold getCurrencies_summary.
  destruct (net w) as [r|e]; [|now apply oracle_inv_failed].
  destruct (ok r).
  - destruct (body r) as [v|e]; [|now apply oracle_inv_failed].
    destruct v as [| | | | |[|x l]|]; try now apply oracle_inv_failed.
    destruct (upsert_all (x :: l) (mapCurrencies st)) as [m [e|]];
      cbn [snd cached_list_at].
    + apply oracle_inv_failed. now apply oracle_inv_reset.
    + now apply oracle_inv_reset.
  - destruct (status r =? 404); cbn [snd cached_list_at].
    + now apply oracle_inv_disabled.
    + now apply oracle_inv_failed.
Qed.

Lemma getPrice_inv c w st : oracle_inv st -> oracle_inv (state_of (getPrice c w st)).
Proof.
  intros Hinv. destruct (fOracleDisabled st) eqn:E.
  - now rewrite getPrice_disabled_run.
  - destruct (getPrice_active_run st c w E) as (t & -> & _).
    now apply getPrice_summary_inv.
Qed.

Lemma getCurrencies_inv w st : oracle_inv st -> oracle_inv (state_of (getCurrencies w st)).
Proof.
  intros Hinv. destruct (fOracleDisabled st) eqn:E.
  - now rewrite getCurrencies_disabled_run.
  - destruct (getCurrencies_active_run st w E) as (t & -> & _).
    now apply getCurrencies_summary_inv.
Qed.

(** [getPrice] and [getCurrencies] always return: their [catch] blocks
    cannot throw. *)
Lemma getPrice_returns c w st : exists v, result_of (getPrice c w st) = Normal v.
Proof.
  destruct (fOracleDisabled st) eqn:E.
  - rewrite getPrice_disabled_run by auto. cbn. eauto.
  - destruct (getPrice_active_run st c w E) as (t & -> & _).
    unfold result_of. cbn [fst]. unfold getPrice_summary, cached_price_at.
    repeat match goal with
           | |- context [match ?x with _ => _ end] => destruct x
           end; cbn [fst]; eauto.
Qed.

Lemma getCurrencies_returns w st : exists v, result_of (getCurrencies w st) = Normal v.
Proof.
  destruct (fOracleDisabled st) eqn:E.
  - rewrite getCurrencies_disabled_run by auto. cbn. eauto.
  - destruct (getCurrencies_active_run st w E) as (t & -> & _).
    unfold result_of. cbn [fst]. unfold getCurrencies_summary, cached_list_at.
    repeat match goal with
           | |- context [match ?x with _ => _ end] => destruct x
           end; cbn [fst]; eauto.
Qed.

(* ------------------------------------------------------------------ *)
(** *** What the other tasks do during a sleep *)

Lemma getPrice_trace_shape c w st :
  List.filter is_emit (trace_of (getPrice c w st)) = [] /\
  List.filter is_sleep (trace_of (getPrice c w st)) = [].
Proof.
  destruct (fOracleDisabled st) eqn:E.
  - rewrite getPrice_disabled_run by auto. split; reflexivity.
  - destruct (getPrice_active_run st c w E) as (t & -> & Ht).
    unfold trace_of. cbn [snd List.filter is_emit is_sleep].
    split; [now apply forallb_warn_no_emit | now apply forallb_warn_no_sleep].
Qed.

Lemma getCurrencies_trace_shape w st :
  List.filter is_emit (trace_of (getCurrencies w st)) = [] /\
  List.filter is_sleep (trace_of (getCurrencies w st)) = [].
Proof.
  destruct (fOracleDisabled st) eqn:E.
  - rewrite getCurrencies_disabled_run by auto. split; reflexivity.
  - destruct (getCurrencies_active_run st w E) as (t & -> & Ht).
    unfold trace_of. cbn [snd List.filter is_emit is_sleep].
    split; [now apply forallb_warn_no_emit | now apply forallb_warn_no_sleep].
Qed.

Lemma run_other_price c w st :
  run_other (OtherGetPrice c w) st
  = (Normal tt, state_of (getPrice c w st), trace_of (getPrice c w st)).
Proof.
  unfold run_other, try_catch, bind, ret.
  destruct (getPrice_returns c w st) as (v & Hv).
  destruct (getPrice c w st) as [[res st1] t1].
  unfold result_of, state_of, trace_of in *. cbn [fst snd] in *. subst res.
  now rewrite app_nil_r.
Qed.

Lemma run_other_currencies w st :
  run_other (OtherGetCurrencies w) st
  = (Normal tt, state_of (getCurrencies w st), trace_of (getCurrencies w st)).
Proof.
  unfold run_other, try_catch, bind, ret.
  destruct (getCurrencies_returns w st) as (v & Hv).
  destruct (getCurrencies w st) as [[res st1] t1].
  unfold result_of, state_of, trace_of in *. cbn [fst snd] in *. subst res.
  now rewrite app_nil_r.
Qed.

Lemma run_other_harmless k st : harmless st (run_other k st).
Proof.
  unfold harmless. destruct k as [c w|w].
  - rewrite run_other_price. unfold result_of, state_of at 1 3, trace_of at 1 3 5.
    cbn [fst snd].
    destruct (getPrice_trace_shape c w st) as [He Hs].
    split; [reflexivity|]. split; [apply getPrice_inv|].
    split; [|split; assumption].
    intros Hd. rewrite getPrice_disabled_run by auto. split; reflexivity.
  - rewrite run_other_currencies. unfold result_of, state_of at 1 3, trace_of at 1 3 5.
    cbn [fst snd].
    destruct (getCurrencies_trace_shape w st) as [He Hs].
    split; [reflexivity|]. split; [apply getCurrencies_inv|].
    split; [|split; assumption].
    intros Hd. rewrite getCurrencies_disabled_run by auto. split; reflexivity.
Qed.

Lemma run_others_harmless ks : forall st, harmless st (run_others ks st).
Proof.
  induction ks as [|k ks IH]; intros st.
  - unfold harmless. cbn.
    split; [reflexivity|]. split; [auto|].
    split; [intros; split; reflexivity|]. split; reflexivity.
  - cbn [run_others]. unfold bind.
    destruct (run_other_harmless k st) as (Hr & Hinv & Hd & He & Hs).
    destruct (run_other k st) as [[res st1] t1].
    unfold result_of, state_of, trace_of in *. cbn [fst snd] in *. subst res.
    destruct (IH st1) as (Hr' & Hinv' & Hd' & He' & Hs').
    destruct (run_others ks st1) as [[res st2] t2].
    unfold harmless, result_of, state_of, trace_of in *. cbn [fst snd] in *.
    split; [exact Hr'|]. split; [auto|]. split; [|split].
    + intros H. destruct (Hd H) as [-> Hf]. destruct (Hd' H) as [-> Hf'].
      split; auto. unfold no_fetch in *. now rewrite filter_app, Hf, Hf'.
    + now rewrite filter_app, He, He'.
    + now rewrite filter_app, Hs, Hs'.
Qed.

Lemma run_others_normal ks st :
  run_others ks st = (Normal tt, state_of (run_others ks st), trace_of (run_others ks st)).
Proof.
  destruct (run_others_harmless ks st) as (Hr & _).
  destruct (run_others ks st) as [[res st1] t1]. unfold result_of in Hr. cbn in *.
  now subst.
Qed.

(* ------------------------------------------------------------------ *)
(** *** The loop of [load], one round at a time *)

Lemma load_loop_loaded fuel sc i st :
  fLoadedCurrencies st = true -> load_loop fuel sc i st = (Normal true, st, []).
Proof.
  intros H. destruct fuel; simpl; unfold bind, gets, ret; cbn; now rewrite H.
Qed.

Lemma load_loop_out_of_fuel sc i st :
  fLoadedCurrencies st = false -> load_loop 0 sc i st = (Normal false, st, []).
Proof. intros H. simpl. unfold bind, gets, ret. cbn. now rewrite H. Qed.

Lemma load_loop_round fuel sc i st :
  fLoadedCurrencies st = false ->
  load_loop (S fuel) sc i st =
    let '(b, st2, t2) := load_loop fuel sc (S i) (round_state sc i st) in
    (b, st2, round_effects sc i st ++ t2).
Proof.
  intros H. cbn [load_loop]. unfold bind at 1. unfold gets at 1. cbn [fst snd].
  rewrite H. cbn [app]. unfold bind at 1. unfold round_state, round_effects.
  destruct (getCurrencies_returns (answers sc i) st) as (v & Hv).
  destruct (getCurrencies (answers sc i) st) as [[res st1] t1].
  unfold result_of, state_of, trace_of in *. cbn [fst snd] in *. subst res.
  unfold bind at 1. unfold gets at 1. cbn [fst snd app].
  unfold bind at 1.
  destruct (fLoadedCurrencies st1); cbn [negb].
  - unfold ret at 1. destruct (load_loop fuel sc (S i) st1) as [[b st2] t2].
    cbn [app]. now rewrite app_nil_r.
  - unfold sleep, bind at 1, tell. rewrite (run_others_normal (meanwhile sc i) st1).
    unfold state_of, trace_of. cbn [fst snd].
    destruct (load_loop fuel sc (S i) (snd (fst (run_others (meanwhile sc i) st1))))
      as [[b st2] t2].
    cbn [app]. now rewrite <- app_assoc.
Qed.

Lemma round_state_props sc i st :
  (oracle_inv st -> oracle_inv (round_state sc i st)) /\
  (fOracleDisabled st = true ->
     round_state sc i st = st /\ no_fetch (round_effects sc i st)) /\
  List.filter is_emit (round_effects sc i st) = [].
Proof.
  unfold round_state, round_effects.
  pose proof (getCurrencies_inv (answers sc i) st) as Hinv.
  pose proof (getCurrencies_trace_shape (answers sc i) st) as [He _].
  pose proof (getCurrencies_disabled_run st (answers sc i)) as Hd.
  destruct (getCurrencies (answers sc i) st) as [[res st1] t1].
  unfold state_of, trace_of in *. cbn [fst snd] in *.
  destruct (run_others_harmless (meanwhile sc i) st1) as (_ & Hinv' & Hd' & He' & _).
  unfold state_of, trace_of in *.
  rewrite filter_app, He.
  destruct (fLoadedCurrencies st1).
  - split; [auto|]. split; [|now rewrite app_nil_r].
    intros H. specialize (Hd H). injection Hd as _ -> ->. split; reflexivity.
  - split; [auto|]. split; [|cbn; rewrite He'; reflexivity].
    intros H. specialize (Hd H). injection Hd as _ -> ->.
    destruct (Hd' H) as [Hst Hf]. split; auto.
Qed.

(** [load] never rejects; it keeps the invariant; on a disabled
    instance it changes nothing and requests nothing. *)
Lemma load_loop_props sc fuel : forall i st,
  exists b st' t,
    load_loop fuel sc i st = (Normal b, st', t) /\
    (oracle_inv st -> oracle_inv st') /\
    (fOracleDisabled st = true -> st' = st /\ no_fetch t).
Proof.
  induction fuel as [|fuel IH]; intros i st.
  - destruct (fLoadedCurrencies st) eqn:E.
    + rewrite load_loop_loaded by auto. do 3 eexists.
      split; [reflexivity|split; [auto|intros; split; reflexivity]].
    + rewrite load_loop_out_of_fuel by auto. do 3 eexists.
      split; [reflexivity|split; [auto|intros; split; reflexivity]].
  - destruct (fLoadedCurrencies st) eqn:E.
    + rewrite load_loop_loaded by auto. do 3 eexists.
      split; [reflexivity|split; [auto|intros; split; reflexivity]].
    + rewrite load_loop_round by auto.
      destruct (round_state_props sc i st) as (Hinv1 & Hd1 & _).
      destruct (IH (S i) (round_state sc i st)) as (b & st' & t & Hl & Hinv & Hdis).
      rewrite Hl. do 3 eexists. split; [reflexivity|]. split.
      * intros H. auto.
      * intros Hd. destruct (Hd1 Hd) as [Hst Hf]. rewrite Hst in Hdis.
        destruct (Hdis Hd) as [-> Hnf]. split; auto.
        unfold no_fetch in *. now rewrite filter_app, Hf, Hnf.
Qed.

Lemma load_props sc fuel st :
  exists b st' t,
    load fuel sc st = (Normal b, st', t) /\
    (oracle_inv st -> oracle_inv st') /\
    (fOracleDisabled st = true -> st' = st /\ no_fetch t).
Proof.
  destruct (load_loop_props sc fuel 0%nat st) as (b & st' & t & Hl & Hinv & Hdis).
  unfold load, bind at 1. rewrite Hl.
  destruct b; unfold bind, gets, emit, tell, ret; cbn [fst snd app].
  - do 3 eexists. split; [reflexivity|]. split; auto.
    intros Hd. destruct (Hdis Hd) as [-> Hnf]. split; auto.
    unfold no_fetch in *. rewrite filter_app, Hnf. reflexivity.
  - do 3 eexists. split; [reflexivity|]. split; auto.
    intros Hd. destruct (Hdis Hd) as [-> Hnf]. split; auto.
    now rewrite app_nil_r.
Qed.

Lemma run_call_inv k st : oracle_inv st -> oracle_inv (fst (run_call k st)).
Proof.
  intros H. destruct k; cbn [run_call fst]; auto.
  - now apply getPrice_inv.
  - now apply getCurrencies_inv.
  - destruct (load_props sc fuel st) as (b & st' & t & -> & Hinv & _). now apply Hinv.
Qed.

Lemma reachable_inv st : reachable st -> oracle_inv st.
Proof.
  induction 1.
  - apply oracle_inv_new.
  - now apply run_call_inv.
Qed.

(** Once disabled, a call changes nothing and requests nothing. *)
Lemma run_call_disabled k st :
  fOracleDisabled st = true -> fst (run_call k st) = st /\ no_fetch (snd (run_call k st)).
Proof.
  intros Hd. destruct k; cbn [run_call fst snd].
  - split; reflexivity.
  - split; reflexivity.
  - rewrite getPrice_disabled_run by auto. split; reflexivity.
  - rewrite getCurrencies_disabled_run by auto. split; reflexivity.
  - destruct (load_props sc fuel st) as (b & st' & t & -> & _ & Hdis).
    now apply Hdis.
Qed.

Lemma run_calls_disabled ks : forall st,
  fOracleDisabled st = true -> fst (run_calls ks st) = st /\ no_fetch (snd (run_calls ks st)).
Proof.
  induction ks as [|k ks IH]; intros st Hd; cbn [run_calls].
  - split; reflexivity.
  - destruct (run_call_disabled k st Hd) as [Hs Hf].
    destruct (run_call k st) as [st1 t1]. cbn [fst snd] in *. subst st1.
    destruct (IH st Hd) as [Hs' Hf'].
    destruct (run_calls ks st) as [st2 t2]. cbn [fst snd] in *. subst st2.
    split; auto. unfold no_fetch in *. now rewrite filter_app, Hf, Hf'.
Qed.

Lemma getPrice_http_failure_step st c w :
  oracle_inv st -> http_failure w = true ->
  let st' := state_of (getPrice c w st) in
  oracle_inv st' /\
  (fOracleDisabled st' = true \/
   (fOracleDisabled st = false /\ nOracleFailures st' = nOracleFailures st + 1)).
Proof.
  intros Hinv Hw. cbv zeta. split; [now apply getPrice_inv|].
  destruct (fOracleDisabled st) eqn:Hact.
  - rewrite getPrice_disabled_run by auto. now left.
  - destruct (getPrice_active_run st c w Hact) as (t & -> & _).
    unfold state_of. cbn [fst snd]. unfold getPrice_summary, http_failure in *.
    destruct (net w) as [r|e]; [|discriminate].
    apply andb_prop in Hw as [Hok H404].
    apply negb_true_iff in Hok, H404. rewrite Hok, H404. cbn [snd cached_price_at].
    right. split; auto.
    now apply (failed_state_disabled_iff w st Hact (proj1 Hinv Hact)).
Qed.

Lemma summary_price_disabled_iff c w st :
  fOracleDisabled st = false ->
  0 <= nOracleFailures st < ORACLE_RETRY_LIMIT ->
  let st' := snd (getPrice_summary c w st) in
  fOracleDisabled st' = true <->
  not_found w = true \/ nOracleFailures st' = ORACLE_RETRY_LIMIT.
Proof.
  intros Hact Hn. unfold getPrice_summary, not_found.
  assert (Hfail : fOracleDisabled (failed_state w st) = true <->
                  false = true \/ nOracleFailures (failed_state w st) = ORACLE_RETRY_LIMIT).
  { destruct (failed_state_disabled_iff w st Hact Hn) as (H & _). rewrite H.
    intuition congruence. }
  destruct (net w) as [r|e]; [|exact Hfail].
  destruct (ok r) eqn:Hok.
  - rewrite (ok_not_404 r Hok).
    destruct (body r) as [v|e]; [|exact Hfail].
    destruct (get_prop v "value"); cbn [snd cached_price_at].
    + unfold stored_state. cbn. rewrite Hact. unfold ORACLE_RETRY_LIMIT.
      split; [discriminate|intros [?|?]; [discriminate|lia]].
    + assert (Ha : fOracleDisabled (stored_state (JStr c) v st) = false) by exact Hact.
      assert (Hz : 0 <= nOracleFailures (stored_state (JStr c) v st) < ORACLE_RETRY_LIMIT)
        by (cbn; unfold ORACLE_RETRY_LIMIT; lia).
      destruct (failed_state_disabled_iff w _ Ha Hz) as (H & _). rewrite H.
      intuition congruence.
  - destruct (status r =? 404); cbn [snd cached_price_at]; [|exact Hfail].
    destruct (disabled_state_flags w st Hact) as (-> & _). intuition.
Qed.

Lemma summary_currencies_disabled_iff w st :
  fOracleDisabled st = false ->
  0 <= nOracleFailures st < ORACLE_RETRY_LIMIT ->
  let st' := snd (getCurrencies_summary w st) in
  fOracleDisabled st' = true <->
  not_found w = true \/ nOracleFailures st' = ORACLE_RETRY_LIMIT.
Proof.
  intros Hact Hn. unfold getCurrencies_summary, not_found.
  assert (Hfail : fOracleDisabled (failed_state w st) = true <->
                  false = true \/ nOracleFailures (failed_state w st) = ORACLE_RETRY_LIMIT).
  { destruct (failed_state_disabled_iff w st Hact Hn) as (H & _). rewrite H.
    intuition congruence. }
  destruct (net w) as [r|e]; [|exact Hfail].
  destruct (ok r) eqn:Hok.
  - rewrite (ok_not_404 r Hok).
    destruct (body r) as [v|e]; [|exact Hfail].
    destruct v as [| | | | |[|x l]|]; try exact Hfail.
    destruct (upsert_all (x :: l) (mapCurrencies st)) as [m [e|]];
      cbn [snd cached_list_at].
    + set (st0 := set_map m (set_failures 0 st)).
      assert (Ha : fOracleDisabled st0 = false) by exact Hact.
      assert (Hz : 0 <= nOracleFailures st0 < ORACLE_RETRY_LIMIT)
        by (cbn; unfold ORACLE_RETRY_LIMIT; lia).
      destruct (failed_state_disabled_iff w _ Ha Hz) as (H & _). rewrite H.
      intuition congruence.
    + cbn. rewrite Hact. unfold ORACLE_RETRY_LIMIT.
      split; [discriminate|intros [?|?]; [discriminate|lia]].
  - destruct (status r =? 404); cbn [snd cached_list_at]; [|exact Hfail].
    destruct (disabled_state_flags w st Hact) as (-> & _). intuition.
Qed.

Lemma getPrice_http_failure_state c w st :
  fOracleDisabled st = false -> http_failure w = true ->
  state_of (getPrice c w st) = failed_state w st.
Proof.
  intros Hact Hw. destruct (getPrice_active_run st c w Hact) as (t & -> & _).
  unfold state_of. cbn [fst snd]. unfold getPrice_summary, http_failure in *.
  destruct (net w) as [r|e]; [|discriminate].
  apply andb_prop in Hw as [Hok H404]. apply negb_true_iff in Hok, H404.
  now rewrite Hok, H404.
Qed.


(* ================================================================== *)
(** ** Failure paths degrade to the cache *)

Lemma get_prop_throw_nullish v name :
  (exists e, get_prop v name = Throw e) <-> nullish v = true.
Proof.
  destruct v; simpl; split; intros H; try discriminate; eauto;
    destruct H as [e H]; discriminate.
Qed.

Lemma upsert_all_error l : forall m m' e,
  upsert_all l m = (m', Some e) -> existsb nullish l = true.
Proof.
  induction l as [|x l IH]; intros m m' e H; simpl in *; [discriminate|].
  destruct (get_prop x "currency") as [k|e'] eqn:E.
  - rewrite (IH _ _ _ H). apply orb_true_r.
  - assert (Hn : nullish x = true) by (apply (get_prop_throw_nullish x "currency"); eauto).
    now rewrite Hn.
Qed.

Lemma upsert_all_no_error l : forall m m',
  upsert_all l m = (m', None) -> existsb nullish l = false.
Proof.
  induction l as [|x l IH]; intros m m' H; simpl in *; auto.
  destruct (get_prop x "currency") as [k|e'] eqn:E; [|discriminate].
  rewrite (IH _ _ H), orb_false_r.
  destruct (nullish x) eqn:Hn; auto.
  apply (get_prop_throw_nullish x "currency") in Hn as [e He]. congruence.
Qed.

Lemma cachedPrice_absent c m : map_get (JStr c) m = None -> cachedPrice c m = JNum 0.
Proof. intros H. unfold cachedPrice. now rewrite H. Qed.

Lemma getPrice_failure_cached st c w :
  fOracleDisabled st = true \/ price_failure w = true ->
  result_of (getPrice c w st)
  = Normal (cachedPrice c (mapCurrencies (state_of (getPrice c w st)))).
Proof.
  intros H. destruct (fOracleDisabled st) eqn:E.
  - now rewrite getPrice_disabled_run.
  - destruct H as [H|H]; [discriminate|].
    destruct (getPrice_active_run st c w E) as (t & -> & _).
    unfold result_of, state_of. cbn [fst snd].
    unfold getPrice_summary, price_failure in *.
    destruct (net w) as [r|e]; [|reflexivity].
    destruct (ok r); [|destruct (status r =? 404); reflexivity].
    destruct (body r) as [v|e]; [|reflexivity].
    apply (get_prop_throw_nullish v "value") in H as [e ->]. reflexivity.
Qed.

Lemma getPrice_success_value st c w :
  fOracleDisabled st = false -> price_failure w = false ->
  exists s v x, net w = Normal (Response s (Normal v)) /\
    get_prop v "value" = Normal x /\
    result_of (getPrice c w st) = Normal x /\
    state_of (getPrice c w st) = stored_state (JStr c) v st.
Proof.
  intros E H. destruct (getPrice_active_run st c w E) as (t & -> & _).
  unfold result_of, state_of. cbn [fst snd].
  unfold getPrice_summary, price_failure in *.
  destruct (net w) as [[s b]|e]; [|discriminate].
  destruct (ok (Response s b)); [|discriminate].
  destruct b as [v|e]; [|discriminate]. cbn [body] in *.
  destruct (get_prop v "value") as [x|e] eqn:Hv.
  - exists s, v, x. auto.
  - assert (nullish v = true) by (apply (get_prop_throw_nullish v "value"); eauto).
    congruence.
Qed.

Lemma getCurrencies_failure_cached st w :
  fOracleDisabled st = true \/ currencies_failure w = true ->
  result_of (getCurrencies w st)
  = Normal (JArr (map_values (mapCurrencies (state_of (getCurrencies w st))))).
Proof.
  intros H. destruct (fOracleDisabled st) eqn:E.
  - now rewrite getCurrencies_disabled_run.
  - destruct H as [H|H]; [discriminate|].
    destruct (getCurrencies_active_run st w E) as (t & -> & _).
    unfold result_of, state_of. cbn [fst snd].
    unfold getCurrencies_summary, currencies_failure in *.
    destruct (net w) as [r|e]; [|reflexivity].
    destruct (ok r); [|destruct (status r =? 404); reflexivity].
    destruct (body r) as [v|e]; [|reflexivity].
    destruct v as [| | | | |[|x l]|]; try reflexivity.
    destruct (upsert_all (x :: l) (mapCurrencies st)) as [m [e|]] eqn:Hup; [reflexivity|].
    apply upsert_all_no_error in Hup. congruence.
Qed.

Lemma getCurrencies_success_list st w :
  fOracleDisabled st = false -> currencies_failure w = false ->
  exists s x l m, net w = Normal (Response s (Normal (JArr (x :: l)))) /\
    upsert_all (x :: l) (mapCurrencies st) = (m, None) /\
    result_of (getCurrencies w st) = Normal (JArr (x :: l)) /\
    state_of (getCurrencies w st) = set_loaded true (set_map m (set_failures 0 st)).
Proof.
  intros E H. destruct (getCurrencies_active_run st w E) as (t & -> & _).
  unfold result_of, state_of. cbn [fst snd].
  unfold getCurrencies_summary, currencies_failure in *.
  destruct (net w) as [[s b]|e]; [|discriminate].
  destruct (ok (Response s b)); [|discriminate].
  destruct b as [v|e]; [|discriminate]. cbn [body] in *.
  destruct v as [| | | | |[|x l]|]; try discriminate.
  destruct (upsert_all (x :: l) (mapCurrencies st)) as [m [e|]] eqn:Hup.
  - apply upsert_all_error in Hup. congruence.
  - exists s, x, l, m. auto.
Qed.

(* ------------------------------------------------------------------ *)
(** *** When [load] comes to its end, and when it does not *)

(** A round of [getCurrencies] on an active instance either leaves it
    loaded or counts one more failure, unless the answer is a list with
    a [null] element. *)
Lemma getCurrencies_round st w :
  fOracleDisabled st = false -> oracle_inv st -> null_element_answer w = false ->
  let st' := state_of (getCurrencies w st) in
  fLoadedCurrencies st' = true \/
  nOracleFailures st' = nOracleFailures st + 1.
Proof.
  intros Hact Hinv Hnull.
  destruct (getCurrencies_active_run st w Hact) as (t & -> & _).
  unfold state_of. cbn [fst snd]. cbv zeta.
  assert (Hfail : fLoadedCurrencies (failed_state w st) = true \/
                  nOracleFailures (failed_state w st) = nOracleFailures st + 1).
  { destruct (Z_lt_le_dec (nOracleFailures st + 1) ORACLE_RETRY_LIMIT) as [Hlt|Hge].
    - rewrite (failed_state_below w st Hlt). now right.
    - rewrite (failed_state_limit w st Hact Hge). now left. }
  unfold getCurrencies_summary, null_element_answer in *.
  destruct (net w) as [r|e]; [|exact Hfail].
  destruct (ok r); cbn [andb] in Hnull.
  - destruct (body r) as [v|e]; [|exact Hfail].
    destruct v as [| | | | |[|x l]|]; try exact Hfail.
    destruct (upsert_all (x :: l) (mapCurrencies st)) as [m [e|]] eqn:Hup.
    + apply upsert_all_error in Hup. congruence.
    + now left.
  - destruct (status r =? 404); [|exact Hfail].
    left. now apply disabled_state_flags.
Qed.

Lemma round_state_quiet ws i st :
  round_state (quiet ws) i st = state_of (getCurrencies (ws i) st).
Proof. unfold round_state. cbn. now destruct (fLoadedCurrencies _). Qed.

(** Left alone, [load] gives up or succeeds within the retry limit. *)
Lemma load_loop_resolves ws :
  (forall i, null_element_answer (ws i) = false) ->
  forall fuel i st,
    oracle_inv st ->
    (fLoadedCurrencies st = false ->
       (Z.to_nat (ORACLE_RETRY_LIMIT - nOracleFailures st) <= fuel)%nat) ->
    result_of (load_loop fuel (quiet ws) i st) = Normal true.
Proof.
  intros Hws. induction fuel as [|fuel IH]; intros i st Hinv Hfuel;
    destruct (fLoadedCurrencies st) eqn:Hl;
    try (rewrite load_loop_loaded by auto; reflexivity);
    assert (Hact : fOracleDisabled st = false)
      by (destruct (fOracleDisabled st) eqn:E; auto; destruct Hinv as [_ H]; rewrite H in Hl; auto);
    pose proof (proj1 Hinv Hact) as Hn; specialize (Hfuel eq_refl);
    unfold ORACLE_RETRY_LIMIT in *.
  - lia.
  - rewrite load_loop_round by auto. rewrite round_state_quiet.
    pose proof (getCurrencies_inv (ws i) st Hinv) as Hinv'.
    pose proof (getCurrencies_round st (ws i) Hact Hinv (Hws i)) as Hround. cbv zeta in Hround.
    specialize (IH (S i) (state_of (getCurrencies (ws i) st)) Hinv').
    destruct (load_loop fuel (quiet ws) (S i) (state_of (getCurrencies (ws i) st)))
      as [[b st2] t2].
    unfold result_of in *. cbn [fst] in *. apply IH.
    intros Hl'. destruct Hround as [Hround|Hround]; [congruence|].
    rewrite Hround. lia.
Qed.

(** A loop that keeps coming back to one of two unloaded states is
    still running after any number of rounds. *)
Lemma load_loop_cycles sc (a b : Oracle) :
  fLoadedCurrencies a = false -> fLoadedCurrencies b = false ->
  (forall i, round_state sc i a = b) -> (forall i, round_state sc i b = b) ->
  forall fuel i st, st = a \/ st = b ->
    result_of (load_loop fuel sc i st) = Normal false.
Proof.
  intros Ha Hb Hab Hbb. induction fuel as [|fuel IH]; intros i st Hst.
  - rewrite load_loop_out_of_fuel by (destruct Hst as [->| ->]; auto). reflexivity.
  - rewrite load_loop_round by (destruct Hst as [->| ->]; auto).
    assert (Hnext : round_state sc i st = b) by (destruct Hst as [->| ->]; auto).
    rewrite Hnext. specialize (IH (S i) b (or_intror eq_refl)).
    destruct (load_loop fuel sc (S i) b) as [[r st2] t2]. exact IH.
Qed.

Lemma load_result fuel sc st :
  result_of (load fuel sc st) = result_of (load_loop fuel sc 0%nat st).
Proof.
  unfold load, bind at 1.
  destruct (load_loop_props sc fuel 0%nat st) as (b & st' & t & -> & _).
  destruct b; reflexivity.
Qed.

(** While the bulk endpoint answers 500 and another task fetches a
    price successfully during each sleep, every success resets the
    count of consecutive failures, the oracle is never disabled, and no
    number of rounds brings [load] to its end. *)
Lemma load_loops_while_prices_succeed :
  ~ load_always_resolves active_oracle bulk_endpoint_down.
Proof.
  intros [fuel H]. rewrite load_result in H.
  rewrite (load_loop_cycles bulk_endpoint_down active_oracle
             (mkOracle [(JStr "usd", rec_usd 1)] false 0 false)) in H;
    try discriminate H; try reflexivity.
  now left.
Qed.

(** Nor does [load] end, even with no other task about, on a server
    that answers every request with the list [[null]]: each round
    resets the failure counter before the [null] element makes the
    upsert loop throw, so the counter never passes 1. *)
Lemma load_stuck_on_null_element fuel :
  result_of (load fuel null_list_server active_oracle) = Normal false.
Proof.
  rewrite load_result.
  apply (load_loop_cycles null_list_server active_oracle (mkOracle [] false 1 false));
    try reflexivity.
  now left.
Qed.

(* ================================================================== *)
(** ** The state machine of an instance *)

Lemma failed_state_count w st :
  nOracleFailures (failed_state w st) = nOracleFailures st + 1.
Proof.
  unfold failed_state, disabled_state. cbn [nOracleFailures set_failures fOracleDisabled].
  destruct (nOracleFailures st + 1 >=? ORACLE_RETRY_LIMIT); [|reflexivity].
  destruct (fOracleDisabled st); reflexivity.
Qed.

Lemma map_get_missing c m :
  (forall k v, In (k, v) m -> k <> JStr c) -> map_get (JStr c) m = None.
Proof.
  induction m as [|[k v] m IH]; intros H; simpl; [reflexivity|].
  destruct (same_value_zero k (JStr c)) eqn:E.
  - apply same_value_zero_eq in E. destruct (H k v (or_introl eq_refl) E).
  - apply IH. intros k' v' Hin. apply (H k' v'). now right.
Qed.

Lemma map_get_first c pre rec post :
  (forall k v, In (k, v) pre -> k <> JStr c) ->
  map_get (JStr c) (pre ++ (JStr c, rec) :: post) = Some rec.
Proof.
  induction pre as [|[k v] pre IH]; intros H; simpl.
  - now rewrite String.eqb_refl.
  - destruct (same_value_zero k (JStr c)) eqn:E.
    + apply same_value_zero_eq in E. destruct (H k v (or_introl eq_refl) E).
    + apply IH. intros k' v' Hin. apply (H k' v'). now right.
Qed.

(** The cached price of a code that is no key of the cache is 0. *)
Lemma cachedPrice_missing c m :
  (forall k v, In (k, v) m -> k <> JStr c) -> cachedPrice c m = JNum 0.
Proof. intros H. unfold cachedPrice. now rewrite map_get_missing. Qed.

(** The cached price of a code is the numeric [value] of the record
    stored under it. *)
Lemma cachedPrice_found c pre fields post v :
  (forall k x, In (k, x) pre -> k <> JStr c) ->
  assoc "value" fields = Some (JNum v) ->
  cachedPrice c (pre ++ (JStr c, JObj fields) :: post) = JNum v.
Proof.
  intros H Hv. unfold cachedPrice. rewrite map_get_first by exact H.
  unfold get_prop_opt, get_prop. rewrite Hv. unfold js_or, truthy.
  destruct (v =? 0) eqn:E; [|reflexivity].
  apply Z.eqb_eq in E. now subst.
Qed.

(** How a [getPrice] call on an active instance moves the failure
    counter. *)
Lemma getPrice_counts c w st :
  fOracleDisabled st = false ->
  let st' := state_of (getPrice c w st) in
  (price_failure w = false -> nOracleFailures st' = 0 /\ fOracleDisabled st' = false) /\
  (transport_failure w = true -> not_found w = false ->
     nOracleFailures st' = nOracleFailures st + 1) /\
  (not_found w = true -> nOracleFailures st' = nOracleFailures st).
Proof.
  intros Hact. cbv zeta.
  destruct (getPrice_active_run st c w Hact) as (t & -> & _).
  unfold state_of. cbn [fst snd].
  unfold getPrice_summary, price_failure, transport_failure, not_found.
  destruct (net w) as [r|e].
  - destruct (ok r) eqn:Hok.
    + rewrite (ok_not_404 r Hok).
      destruct (body r) as [v|e].
      * split; [|split]; try discriminate.
        intros Hv. destruct (get_prop v "value") as [x|e] eqn:Hx.
        -- cbn. auto.
        -- assert (nullish v = true) by (apply (get_prop_throw_nullish v "value"); eauto).
           congruence.
      * split; [discriminate|]. split; [|discriminate].
        intros _ _. apply failed_state_count.
    + split; [discriminate|]. destruct (status r =? 404); cbn [snd cached_price_at].
      * split; [discriminate|]. intros _.
        now destruct (disabled_state_flags w st Hact) as (_ & _ & ->).
      * split; [|discriminate]. intros _ _. apply failed_state_count.
  - split; [discriminate|]. split; [|discriminate].
    intros _ _. apply failed_state_count.
Qed.

(** The same for [getCurrencies]. *)
Lemma getCurrencies_counts w st :
  fOracleDisabled st = false ->
  let st' := state_of (getCurrencies w st) in
  (currencies_failure w = false ->
     nOracleFailures st' = 0 /\ fOracleDisabled st' = false) /\
  (bulk_rejected w = true -> not_found w = false ->
     nOracleFailures st' = nOracleFailures st + 1) /\
  (not_found w = true -> nOracleFailures st' = nOracleFailures st).
Proof.
  intros Hact. cbv zeta.
  destruct (getCurrencies_active_run st w Hact) as (t & -> & _).
  unfold state_of. cbn [fst snd].
  unfold getCurrencies_summary, currencies_failure, bulk_rejected, not_found.
  assert (Hfail : (true = false ->
                   nOracleFailures (failed_state w st) = 0 /\
                   fOracleDisabled (failed_state w st) = false) /\
                  (true = true -> false = false ->
                   nOracleFailures (failed_state w st) = nOracleFailures st + 1) /\
                  (false = true -> nOracleFailures (failed_state w st) = nOracleFailures st)).
  { split; [discriminate|]. split; [|discriminate]. intros _ _. apply failed_state_count. }
  destruct (net w) as [r|e]; [|exact Hfail].
  destruct (ok r) eqn:Hok.
  - rewrite (ok_not_404 r Hok).
    destruct (body r) as [v|e]; [|exact Hfail].
    destruct v as [| | | | |[|x l]|]; try exact Hfail.
    split; [|split]; try discriminate.
    intros Hn.
    destruct (upsert_all (x :: l) (mapCurrencies st)) as [m [e|]] eqn:Hup.
    + apply upsert_all_error in Hup. congruence.
    + cbn. auto.
  - destruct (status r =? 404); cbn [snd cached_list_at].
    + split; [discriminate|]. split; [discriminate|]. intros _.
      now destruct (disabled_state_flags w st Hact) as (_ & _ & ->).
    + split; [discriminate|]. split; [|discriminate]. intros _ _. apply failed_state_count.
Qed.

(** C2: an instance is born disabled exactly when [ORACLE_ENABLED] is
    false.  An active instance, whose failure count is below the limit
    (as it is on every instance that calls lead to), becomes disabled by
    a [getPrice] or [getCurrencies] call exactly when the answer is a
    404 (whatever the count) or the call brings the counter to
    [ORACLE_RETRY_LIMIT] = 3.  The counter counts the failures in a row:
    a failed request adds one, a 404 leaves it, a success sets it back
    to 0; so three non-2xx answers in a row disable the instance, and
    two after a success do not.  A disabled instance stays as it is
    under every sequence of calls, none of which touches the network;
    [getPrice] then answers the [value] of the record that the cache
    holds under the requested code, 0 when it holds none, and
    [getCurrencies] the records of the cache in insertion order.  (An
    answer is OK when its status is from 200 to 299, and a 404 is an
    answer whose status is 404.) *)
Theorem oracle_state_machine :
  (forall enabled w, fOracleDisabled (Oracle_new enabled w) = negb enabled) /\
  (forall st c w,
     fOracleDisabled st = false -> 0 <= nOracleFailures st < ORACLE_RETRY_LIMIT ->
     let st' := state_of (getPrice c w st) in
     fOracleDisabled st' = true <->
     not_found w = true \/ nOracleFailures st' = ORACLE_RETRY_LIMIT) /\
  (forall st w,
     fOracleDisabled st = false -> 0 <= nOracleFailures st < ORACLE_RETRY_LIMIT ->
     let st' := state_of (getCurrencies w st) in
     fOracleDisabled st' = true <->
     not_found w = true \/ nOracleFailures st' = ORACLE_RETRY_LIMIT) /\
  (forall st, reachable st -> fOracleDisabled st = false ->
     0 <= nOracleFailures st < ORACLE_RETRY_LIMIT) /\
  (forall st c w, fOracleDisabled st = false ->
     let st' := state_of (getPrice c w st) in
     (price_failure w = false -> nOracleFailures st' = 0 /\ fOracleDisabled st' = false) /\
     (transport_failure w = true -> not_found w = false ->
        nOracleFailures st' = nOracleFailures st + 1) /\
     (not_found w = true -> nOracleFailures st' = nOracleFailures st)) /\
  (forall st w, fOracleDisabled st = false ->
     let st' := state_of (getCurrencies w st) in
     (currencies_failure w = false ->
        nOracleFailures st' = 0 /\ fOracleDisabled st' = false) /\
     (bulk_rejected w = true -> not_found w = false ->
        nOracleFailures st' = nOracleFailures st + 1) /\
     (not_found w = true -> nOracleFailures st' = nOracleFailures st)) /\
  (forall st c1 c2 c3 w1 w2 w3,
     (fOracleDisabled st = false -> 0 <= nOracleFailures st) ->
     http_failure w1 = true -> http_failure w2 = true -> http_failure w3 = true ->
     fOracleDisabled
       (state_of (getPrice c3 w3 (state_of (getPrice c2 w2 (state_of (getPrice c1 w1 st))))))
     = true) /\
  (forall st c0 c1 c2 w0 w1 w2,
     fOracleDisabled st = false -> price_failure w0 = false ->
     http_failure w1 = true -> http_failure w2 = true ->
     fOracleDisabled
       (state_of (getPrice c2 w2 (state_of (getPrice c1 w1 (state_of (getPrice c0 w0 st))))))
     = false) /\
  (forall st ks, fOracleDisabled st = true ->
     fst (run_calls ks st) = st /\ no_fetch (snd (run_calls ks st))) /\
  (forall st c w, fOracleDisabled st = true ->
     getPrice c w st = (Normal (cachedPrice c (mapCurrencies st)), st, [])) /\
  (forall st w, fOracleDisabled st = true ->
     getCurrencies w st = (Normal (JArr (List.map snd (mapCurrencies st))), st, [])) /\
  (forall c m, (forall k v, In (k, v) m -> k <> JStr c) -> cachedPrice c m = JNum 0) /\
  (forall c pre fields post v,
     (forall k x, In (k, x) pre -> k <> JStr c) ->
     assoc "value" fields = Some (JNum v) ->
     cachedPrice c (pre ++ (JStr c, JObj fields) :: post) = JNum v) /\
  ORACLE_RETRY_LIMIT = 3 /\
  (forall r, ok r = true <-> 200 <= status r <= 299) /\
  (forall w, not_found w = true <-> exists b, net w = Normal (Response 404 b)).
Proof.
  split; [|split; [|split; [|split; [|split; [|split; [|split;
    [|split; [|split; [|split; [|split; [|split; [|split; [|split; [|split]]]]]]]]]]]]]].
  - intros [] w; reflexivity.
  - intros st c w Hact Hn.
    destruct (getPrice_active_run st c w Hact) as (t & -> & _).
    now apply summary_price_disabled_iff.
  - intros st w Hact Hn.
    destruct (getCurrencies_active_run st w Hact) as (t & -> & _).
    now apply summary_currencies_disabled_iff.
  - intros st Hr. exact (proj1 (reachable_inv st Hr)).
  - intros st c w. apply getPrice_counts.
  - intros st w. apply getCurrencies_counts.
  - intros st c1 c2 c3 w1 w2 w3 Hn H1 H2 H3.
    assert (Hstep : forall c w s, http_failure w = true ->
              fOracleDisabled s = false ->
              state_of (getPrice c w s) = failed_state w s)
      by (intros; now apply getPrice_http_failure_state).
    assert (Hfix : forall c w s, fOracleDisabled s = true -> state_of (getPrice c w s) = s)
      by (intros c w s Hd; now rewrite getPrice_disabled_run).
    assert (Hlim : forall w s, fOracleDisabled s = false ->
              fOracleDisabled (failed_state w s) = false ->
              nOracleFailures s + 1 < ORACLE_RETRY_LIMIT).
    { intros w s Ha Hf.
      destruct (Z_lt_le_dec (nOracleFailures s + 1) ORACLE_RETRY_LIMIT) as [Hlt|Hge]; auto.
      rewrite (failed_state_limit w s Ha Hge) in Hf. discriminate. }
    destruct (fOracleDisabled st) eqn:E0;
      [now rewrite (Hfix c1 w1 st E0), (Hfix c2 w2 st E0), (Hfix c3 w3 st E0)|].
    rewrite (Hstep c1 w1 st H1 E0).
    destruct (fOracleDisabled (failed_state w1 st)) eqn:E1;
      [now rewrite (Hfix c2 w2 _ E1), (Hfix c3 w3 _ E1)|].
    rewrite (Hstep c2 w2 _ H2 E1).
    destruct (fOracleDisabled (failed_state w2 (failed_state w1 st))) eqn:E2;
      [now rewrite (Hfix c3 w3 _ E2)|].
    rewrite (Hstep c3 w3 _ H3 E2).
    destruct (fOracleDisabled (failed_state w3 (failed_state w2 (failed_state w1 st))))
      eqn:E3; [reflexivity|].
    pose proof (Hlim w3 _ E2 E3) as L3.
    rewrite !failed_state_count in L3. specialize (Hn eq_refl).
    unfold ORACLE_RETRY_LIMIT in L3. lia.
  - intros st c0 c1 c2 w0 w1 w2 Hact H0 H1 H2.
    destruct (getPrice_success_value st c0 w0 Hact H0) as (s & v & x & _ & _ & _ & ->).
    set (st0 := stored_state (JStr c0) v st).
    assert (Ha0 : fOracleDisabled st0 = false) by exact Hact.
    rewrite (getPrice_http_failure_state c1 w1 st0 Ha0 H1).
    assert (E1 : failed_state w1 st0 = set_failures 1 st0) by reflexivity.
    rewrite E1.
    assert (Ha1 : fOracleDisabled (set_failures 1 st0) = false) by exact Hact.
    rewrite (getPrice_http_failure_state c2 w2 _ Ha1 H2).
    exact Hact.
  - intros st ks. apply run_calls_disabled.
  - intros st c w. apply getPrice_disabled_run.
  - intros st w. apply getCurrencies_disabled_run.
  - exact cachedPrice_missing.
  - exact cachedPrice_found.
  - reflexivity.
  - intros r. unfold ok. rewrite andb_true_iff, !Z.leb_le. tauto.
  - intros [[[s b]|e] clock]; unfold not_found; cbn [net status].
    + rewrite Z.eqb_eq. split.
      * intros ->. now exists b.
      * intros [b' [= -> _]]. reflexivity.
    + split; [discriminate|]. intros [b H]. discriminate H.
Qed.

Lemma oracle_state_machine_witness :
  let st0 := Oracle_new true network_down in
  let st2 := fst (run_calls [GetPrice "usd" (http_error 500); GetCurrencies network_down] st0) in
  let st3 := state_of (getPrice "usd" (http_error 503) st2) in
  let st404 := state_of (getCurrencies (http_error 404) st0) in
  let back := state_of (getPrice "usd" (ok_json 200 (rec_usd 7) 0) st2) in
  fOracleDisabled st2 = false /\ nOracleFailures st2 = 2 /\
  fOracleDisabled st3 = true /\
  fOracleDisabled st404 = true /\
  (nOracleFailures back = 0 /\ fOracleDisabled back = false) /\
  (fst (run_calls [GetPrice "eur" (ok_json 200 rec_eur 0); Load 5 (quiet (fun _ => network_down))] st3) = st3
   /\ no_fetch (snd (run_calls [GetPrice "eur" (ok_json 200 rec_eur 0);
                                 Load 5 (quiet (fun _ => network_down))] st3))) /\
  result_of (getPrice "usd" network_down
               (state_of (getCurrencies (http_error 404) back))) = Normal (JNum 7).
Proof.
  intros st0 st2 st3 st404 back.
  destruct oracle_state_machine
    as (_ & Hprice & Hcur & _ & Hcount & _ & _ & _ & Hperm & Hdis & _ & _ & Hfound & _).
  assert (B2 : 0 <= nOracleFailures st2 < ORACLE_RETRY_LIMIT)
    by (vm_compute; split; [discriminate|reflexivity]).
  assert (B0 : 0 <= nOracleFailures st0 < ORACLE_RETRY_LIMIT)
    by (vm_compute; split; [discriminate|reflexivity]).
  split; [reflexivity|]. split; [reflexivity|]. split; [|split; [|split; [|split]]].
  - apply (Hprice st2 "usd" (http_error 503) eq_refl B2). right. reflexivity.
  - apply (Hcur st0 (http_error 404) eq_refl B0). left. reflexivity.
  - apply (Hcount st2 "usd" (ok_json 200 (rec_usd 7) 0) eq_refl). reflexivity.
  - apply Hperm.
    apply (Hprice st2 "usd" (http_error 503) eq_refl B2). right. reflexivity.
  - rewrite (Hdis (state_of (getCurrencies (http_error 404) back)) "usd" network_down eq_refl).
    exact (f_equal Normal
             (Hfound "usd" []
                [("currency", JStr "usd"); ("value", JNum 7); ("last_updated", JNum 1700000000)]
                [(JStr "eur", fallback_record "eur" 0); (JStr "gbp", fallback_record "gbp" 0);
                 (JStr "btc", fallback_record "btc" 0)] 7
                (fun k x (H : In (k, x) []) => match H with end) eq_refl)).
Defined.

(* ================================================================== *)
(** ** getCurrencies on an OK response *)

Lemma is_currency_not_nullish x : is_currency x = true -> nullish x = false.
Proof. destruct x; simpl; congruence. Qed.

Lemma get_prop_currency_of x :
  nullish x = false -> get_prop x "currency" = Normal (currency_of x).
Proof. unfold currency_of, get_prop_opt. destruct x; simpl; congruence. Qed.

Lemma upsert_all_fold l : forall m,
  existsb nullish l = false -> upsert_all l m = (fold_left upsert l m, None).
Proof.
  induction l as [|x l IH]; intros m H; simpl in *; auto.
  apply orb_false_elim in H as [Hx Hl].
  rewrite (get_prop_currency_of x Hx). now apply IH.
Qed.

Lemma records_not_nullish l :
  Forall (fun x => is_currency x = true) l -> existsb nullish l = false.
Proof.
  induction 1 as [|x l Hx _ IH]; simpl; auto.
  now rewrite (is_currency_not_nullish x Hx).
Qed.

(** Later records with other codes leave an entry alone. *)
Lemma fold_upsert_get_kept l : forall m k v,
  map_get k m = Some v ->
  (forall y, In y l -> currency_of y <> k) ->
  map_get k (fold_left upsert l m) = Some v.
Proof.
  induction l as [|y l IH]; intros m k v Hk Hl; simpl; auto.
  apply IH.
  - unfold upsert. rewrite map_get_set_other; auto.
    apply same_value_zero_neq. apply Hl. now left.
  - intros z Hz. apply Hl. now right.
Qed.

Lemma record_cached_price rec s m :
  is_currency rec = true -> map_get (JStr s) m = Some rec ->
  cachedPrice s m = value_of rec.
Proof.
  intros Hrec Hget. unfold cachedPrice, value_of. rewrite Hget.
  destruct (is_currency_value rec Hrec) as [v Hv].
  unfold get_prop_opt. rewrite Hv. unfold js_or. cbn.
  destruct (v =? 0) eqn:E; cbn; auto. apply Z.eqb_eq in E. now subst.
Qed.

Lemma getCurrencies_ok_run st status x l clock :
  fOracleDisabled st = false ->
  ok (Response status (Normal (JArr (x :: l)))) = true ->
  existsb nullish (x :: l) = false ->
  result_of (getCurrencies (ok_json status (JArr (x :: l)) clock) st) = Normal (JArr (x :: l)) /\
  state_of (getCurrencies (ok_json status (JArr (x :: l)) clock) st)
  = set_loaded true (set_map (fold_left upsert (x :: l) (mapCurrencies st)) (set_failures 0 st)).
Proof.
  intros Hact Hok Hnn.
  destruct (getCurrencies_active_run st (ok_json status (JArr (x :: l)) clock) Hact)
    as (t & -> & _).
  unfold result_of, state_of, getCurrencies_summary, ok_json. cbn [fst snd net body].
  rewrite Hok. rewrite (upsert_all_fold (x :: l) _ Hnn). auto.
Qed.

(** C5 (as amended): on an OK response whose body is a non-empty list
    of Currency records, [getCurrencies] resets the failure counter to
    0, upserts the records one after the other under their own currency
    fields, sets [loadedCurrencies] and returns the fetched list itself.
    Afterwards a record's value is what [getCachedPrice] returns for the
    record's currency field provided no later record of the list has
    the same currency field (a later one overwrites it); so it is for
    every record when the currency fields of the list are pairwise
    distinct. *)
Theorem getCurrencies_ok_upserts st status l clock :
  fOracleDisabled st = false ->
  ok (Response status (Normal (JArr l))) = true ->
  l <> [] ->
  Forall (fun x => is_currency x = true) l ->
  let r := getCurrencies (ok_json status (JArr l) clock) st in
  result_of r = Normal (JArr l) /\
  nOracleFailures (state_of r) = 0 /\
  fLoadedCurrencies (state_of r) = true /\
  mapCurrencies (state_of r) = fold_left upsert l (mapCurrencies st) /\
  (forall l1 x l2, l = l1 ++ x :: l2 ->
     (forall y, In y l2 -> currency_of y <> currency_of x) ->
     retrievable x (state_of r)) /\
  (NoDup (List.map currency_of l) -> forall x, In x l -> retrievable x (state_of r)).
Proof.
  intros Hact Hok Hne Hrecs r.
  destruct l as [|x0 l0]; [congruence|].
  destruct (getCurrencies_ok_run st status x0 l0 clock Hact Hok (records_not_nullish _ Hrecs))
    as [Hres Hst].
  subst r. rewrite Hres, Hst. cbn [nOracleFailures fLoadedCurrencies mapCurrencies
    set_loaded set_map set_failures].
  assert (Hlast : forall l1 x l2, x0 :: l0 = l1 ++ x :: l2 ->
            (forall y, In y l2 -> currency_of y <> currency_of x) ->
            retrievable x (set_loaded true
              (set_map (fold_left upsert (x0 :: l0) (mapCurrencies st)) (set_failures 0 st)))).
  { intros l1 x l2 El Hl2.
    assert (Hx : is_currency x = true).
    { rewrite Forall_forall in Hrecs. apply Hrecs. rewrite El. apply in_elt. }
    unfold retrievable. destruct (is_currency_field x Hx) as [s Hs].
    assert (Hc : currency_of x = JStr s)
      by (unfold currency_of, get_prop_opt; now rewrite Hs).
    rewrite Hc in *.
    change (Normal (cachedPrice s (fold_left upsert (x0 :: l0) (mapCurrencies st)))
            = Normal (value_of x)).
    f_equal. apply record_cached_price; auto.
    rewrite El, fold_left_app. cbn [fold_left].
    apply fold_upsert_get_kept; auto.
    unfold upsert at 1. rewrite Hc. apply map_get_set_same. }
  repeat split; auto.
  intros Hnd x Hin. apply in_split in Hin as (l1 & l2 & El).
  apply (Hlast l1 x l2 El).
  rewrite El, map_app in Hnd. cbn [List.map] in Hnd.
  apply NoDup_remove_2 in Hnd.
  intros y Hy E. apply Hnd. apply in_or_app. right. rewrite <- E. now apply in_map.
Qed.

Lemma getCurrencies_ok_upserts_witness :
  let l := [rec_usd 3; rec_eur] in
  let r := getCurrencies (ok_json 200 (JArr l) 0) (mkOracle [] false 2 false) in
  result_of r = Normal (JArr l) /\
  nOracleFailures (state_of r) = 0 /\
  fLoadedCurrencies (state_of r) = true /\
  retrievable (rec_usd 3) (state_of r) /\
  retrievable rec_eur (state_of r).
Proof.
  intros l r.
  assert (Hrecs : Forall (fun x => is_currency x = true) l)
    by (repeat constructor).
  assert (Hne : l <> []) by discriminate.
  destruct (getCurrencies_ok_upserts (mkOracle [] false 2 false) 200 l 0
              eq_refl eq_refl Hne Hrecs) as (H1 & H2 & H3 & _ & _ & Hall).
  assert (Hnd : NoDup (List.map currency_of l)).
  { constructor; [intros [H|[]]; discriminate H|].
    constructor; [intros []|constructor]. }
  split; [exact H1|]. split; [exact H2|]. split; [exact H3|].
  split; apply (Hall Hnd); simpl; auto.
Defined.

(** C5 (as stated) fails: when the fetched list has two records for
    "usd", only the value of the second is retrievable. *)
Lemma getCurrencies_records_retrievable_counterexample :
  ~ getCurrencies_records_retrievable active_oracle
      (ok_json 200 (JArr [rec_usd 1; rec_usd 2]) 0) [rec_usd 1; rec_usd 2].
Proof.
  intros H. specialize (H (rec_usd 1) (or_introl eq_refl)).
  vm_compute in H. discriminate H.
Qed.

(* ================================================================== *)
(** ** The keys of the cache *)

Lemma map_keys_set_in k v m : In k (map_keys (map_set k v m)).
Proof.
  induction m as [|[k0 v0] m IH]; simpl; auto.
  destruct (same_value_zero k0 k) eqn:E; simpl; auto.
  left. now apply same_value_zero_eq.
Qed.

Lemma keys_lowercase_set k v m :
  keys_lowercase m -> is_lowercase k = true -> keys_lowercase (map_set k v m).
Proof.
  unfold keys_lowercase. intros Hm Hk.
  destruct (map_keys_set k v m) as [-> | ->]; auto.
  apply Forall_app. split; auto.
Qed.

Lemma fallback_lowercase c : In c FALLBACK_CURRENCIES -> is_lowercase (JStr c) = true.
Proof. simpl. intros [<-|[<-|[<-|[<-|[]]]]]; reflexivity. Qed.

Lemma keys_lowercase_ensure now m :
  keys_lowercase m -> keys_lowercase (ensure_loop FALLBACK_CURRENCIES now m).
Proof.
  unfold keys_lowercase. intros Hm.
  destruct (ensure_loop_extends now FALLBACK_CURRENCIES m) as (extra & -> & Hextra).
  unfold map_keys. rewrite map_app. apply Forall_app. split; auto.
  induction Hextra as [|kv extra (c & Hc & ->) _ IH]; simpl; constructor; auto.
  now apply fallback_lowercase.
Qed.

Lemma keys_lowercase_disabled w st :
  keys_lowercase (mapCurrencies st) -> keys_lowercase (mapCurrencies (disabled_state w st)).
Proof.
  intros H. unfold disabled_state. destruct (fOracleDisabled st); auto.
  now apply keys_lowercase_ensure.
Qed.

Lemma keys_lowercase_failed w st :
  keys_lowercase (mapCurrencies st) -> keys_lowercase (mapCurrencies (failed_state w st)).
Proof.
  intros H. unfold failed_state. destruct (_ >=? _); auto.
  now apply keys_lowercase_disabled.
Qed.

Lemma keys_lowercase_upsert_all l : forall m,
  keys_lowercase m ->
  (forall x, In x l -> nullish x = false -> is_lowercase (currency_of x) = true) ->
  keys_lowercase (fst (upsert_all l m)).
Proof.
  induction l as [|x l IH]; intros m Hm Hl; simpl; auto.
  destruct (get_prop x "currency") as [k|e] eqn:E; auto.
  apply IH; [|intros; apply Hl; simpl; auto].
  apply keys_lowercase_set; auto.
  assert (Hn : nullish x = false).
  { destruct (nullish x) eqn:Hn; auto.
    apply (get_prop_throw_nullish x "currency") in Hn as [e He]. congruence. }
  rewrite (get_prop_currency_of x Hn) in E. injection E as <-.
  apply Hl; simpl; auto.
Qed.

Lemma getPrice_keys_lowercase st c w :
  keys_lowercase (mapCurrencies st) -> is_lowercase (JStr c) = true ->
  keys_lowercase (mapCurrencies (state_of (getPrice c w st))).
Proof.
  intros Hm Hc. destruct (fOracleDisabled st) eqn:E.
  - now rewrite getPrice_disabled_run.
  - destruct (getPrice_active_run st c w E) as (t & -> & _).
    unfold state_of. cbn [fst snd]. unfold getPrice_summary.
    assert (Hstored : forall v, keys_lowercase (mapCurrencies (stored_state (JStr c) v st)))
      by (intros v; now apply keys_lowercase_set).
    repeat match goal with
           | |- context [match ?x with _ => _ end] => destruct x
           end; cbn [snd cached_price_at];
      auto using keys_lowercase_failed, keys_lowercase_disabled.
Qed.

Lemma getCurrencies_keys_lowercase st w :
  keys_lowercase (mapCurrencies st) ->
  (forall s l x, net w = Normal (Response s (Normal (JArr l))) -> In x l ->
     nullish x = false -> is_lowercase (currency_of x) = true) ->
  keys_lowercase (mapCurrencies (state_of (getCurrencies w st))).
Proof.
  intros Hm Hw. destruct (fOracleDisabled st) eqn:E.
  - now rewrite getCurrencies_disabled_run.
  - destruct (getCurrencies_active_run st w E) as (t & -> & _).
    unfold state_of. cbn [fst snd]. unfold getCurrencies_summary.
    destruct (net w) as [[s b]|e]; [|now apply keys_lowercase_failed].
    destruct (ok (Response s b)); cbn [status body];
      [|destruct (s =? 404); cbn [snd cached_list_at];
        auto using keys_lowercase_failed, keys_lowercase_disabled].
    destruct b as [v|e]; [|now apply keys_lowercase_failed].
    destruct v as [| | | | |[|x l]|]; try now apply keys_lowercase_failed.
    pose proof (keys_lowercase_upsert_all (x :: l) (mapCurrencies st) Hm
                  (fun y => Hw s (x :: l) y eq_refl)) as Hup.
    destruct (upsert_all (x :: l) (mapCurrencies st)) as [m [e|]];
      cbn [fst snd cached_list_at] in *; auto using keys_lowercase_failed.
Qed.

(** C7 (as amended): the cache stores keys as they come, without
    normalising their case: after an OK answer [getPrice c] has an entry
    under [c] exactly as passed, and [getCurrencies] one under each
    record's currency field exactly as received.  The keys of the cache
    are therefore all lowercase after a call when they were before and
    the code passed, or every currency field received, is lowercase;
    the fallback codes are. *)
Theorem cache_keys_stored_verbatim st :
  (forall c w, fOracleDisabled st = false -> price_failure w = false ->
     In (JStr c) (map_keys (mapCurrencies (state_of (getPrice c w st))))) /\
  (forall c w, keys_lowercase (mapCurrencies st) -> is_lowercase (JStr c) = true ->
     keys_lowercase (mapCurrencies (state_of (getPrice c w st)))) /\
  (forall status x l clock,
     fOracleDisabled st = false ->
     ok (Response status (Normal (JArr (x :: l)))) = true ->
     existsb nullish (x :: l) = false ->
     mapCurrencies (state_of (getCurrencies (ok_json status (JArr (x :: l)) clock) st))
     = fold_left upsert (x :: l) (mapCurrencies st)) /\
  (forall w, keys_lowercase (mapCurrencies st) ->
     (forall s l x, net w = Normal (Response s (Normal (JArr l))) -> In x l ->
        nullish x = false -> is_lowercase (currency_of x) = true) ->
     keys_lowercase (mapCurrencies (state_of (getCurrencies w st)))) /\
  (forall c, In c FALLBACK_CURRENCIES -> is_lowercase (JStr c) = true).
Proof.
  split; [|split; [|split; [|split]]].
  - intros c w Hact Hok.
    destruct (getPrice_success_value st c w Hact Hok) as (s & v & x & _ & _ & _ & ->).
    apply map_keys_set_in.
  - intros c w. apply getPrice_keys_lowercase.
  - intros status x l clock Hact Hok Hnn.
    destruct (getCurrencies_ok_run st status x l clock Hact Hok Hnn) as [_ ->].
    reflexivity.
  - intros w. apply getCurrencies_keys_lowercase.
  - apply fallback_lowercase.
Qed.

Lemma cache_keys_stored_verbatim_witness :
  In (JStr "USD")
     (map_keys (mapCurrencies (state_of (getPrice "USD" (ok_json 200 (rec_usd 1) 0) active_oracle))))
  /\ keys_lowercase
       (mapCurrencies (state_of (getPrice "usd" (ok_json 200 (rec_usd 1) 0) active_oracle))).
Proof.
  destruct (cache_keys_stored_verbatim active_oracle) as (Hin & Hlow & _).
  split.
  - apply Hin; reflexivity.
  - apply Hlow; [constructor|reflexivity].
Defined.

(** C7 (as stated) fails: [getPrice "USD"] stores its record under the
    key "USD". *)
Lemma getPrice_keeps_keys_lowercase_counterexample :
  ~ getPrice_keeps_keys_lowercase active_oracle "USD" (ok_json 200 (rec_usd 1) 0).
Proof.
  intros H. assert (H0 : keys_lowercase (mapCurrencies active_oracle)) by constructor.
  apply H in H0. vm_compute in H0. inversion H0 as [|k ks Hk _]. discriminate Hk.
Qed.

(* ================================================================== *)
(** ** load: rounds, sleeps and the two notifications *)

Lemma round_effects_sleeps sc i st :
  List.filter is_sleep (round_effects sc i st)
  = if fLoadedCurrencies (state_of (getCurrencies (answers sc i) st))
    then [] else [Sleep 5000].
Proof.
  unfold round_effects. rewrite filter_app.
  destruct (getCurrencies_trace_shape (answers sc i) st) as [_ ->].
  destruct (run_others_harmless (meanwhile sc i)
              (state_of (getCurrencies (answers sc i) st))) as (_ & _ & _ & _ & Hs).
  destruct (fLoadedCurrencies _); [reflexivity|].
  cbn [app List.filter is_sleep]. now rewrite Hs.
Qed.

Section LoadRounds.
Variables (sc : schedule) (st0 : Oracle).

Lemma load_loop_rounds k : forall i fuel,
  (forall j, (i <= j < i + k)%nat -> fLoadedCurrencies (state_after sc j st0) = false) ->
  fLoadedCurrencies (state_after sc (i + k) st0) = true ->
  (k <= fuel)%nat ->
  load_loop fuel sc i (state_after sc i st0)
  = (Normal true, state_after sc (i + k) st0, rounds_from sc st0 i k).
Proof.
  induction k as [|k IH]; intros i fuel Hbefore Hat Hfuel.
  - rewrite Nat.add_0_r in *. now apply load_loop_loaded.
  - destruct fuel as [|fuel]; [lia|].
    rewrite load_loop_round by (apply Hbefore; lia).
    change (round_state sc i (state_after sc i st0)) with (state_after sc (S i) st0).
    rewrite (IH (S i) fuel).
    + rewrite Nat.add_succ_r. reflexivity.
    + intros j Hj. apply Hbefore. lia.
    + now rewrite Nat.add_succ_r in Hat.
    + lia.
Qed.

(** With fewer rounds than it takes, the loop is still running. *)
Lemma load_loop_short fuel : forall i,
  (forall j, (i <= j <= i + fuel)%nat -> fLoadedCurrencies (state_after sc j st0) = false) ->
  result_of (load_loop fuel sc i (state_after sc i st0)) = Normal false.
Proof.
  induction fuel as [|fuel IH]; intros i Hbefore.
  - rewrite load_loop_out_of_fuel by (apply Hbefore; lia). reflexivity.
  - rewrite load_loop_round by (apply Hbefore; lia).
    change (round_state sc i (state_after sc i st0)) with (state_after sc (S i) st0).
    assert (H : result_of (load_loop fuel sc (S i) (state_after sc (S i) st0)) = Normal false)
      by (apply IH; intros j Hj; apply Hbefore; lia).
    destruct (load_loop fuel sc (S i) (state_after sc (S i) st0)) as [[b st2] t2].
    exact H.
Qed.

Lemma rounds_from_no_emit k : forall i,
  List.filter is_emit (rounds_from sc st0 i k) = [].
Proof.
  induction k as [|k IH]; intros i; simpl; auto.
  rewrite filter_app, IH.
  destruct (round_state_props sc i (state_after sc i st0)) as (_ & _ & ->).
  reflexivity.
Qed.

(** Every sleep of the loop lasts 5000 ms. *)
Lemma rounds_from_sleeps_5000 k : forall i,
  Forall (fun e => e = Sleep 5000) (List.filter is_sleep (rounds_from sc st0 i k)).
Proof.
  induction k as [|k IH]; intros i; simpl; [constructor|].
  rewrite filter_app, round_effects_sleeps. apply Forall_app. split; auto.
  destruct (fLoadedCurrencies _); repeat constructor.
Qed.
End LoadRounds.

(** With no other task about, the loop sleeps between two rounds and
    not after the last. *)
Lemma rounds_from_sleeps_quiet ws st0 k : forall i,
  (forall j, (i <= j < i + k)%nat ->
     fLoadedCurrencies (state_after (quiet ws) j st0) = false) ->
  fLoadedCurrencies (state_after (quiet ws) (i + k) st0) = true ->
  List.filter is_sleep (rounds_from (quiet ws) st0 i k) = repeat (Sleep 5000) (k - 1).
Proof.
  induction k as [|k IH]; intros i Hbefore Hat; simpl; auto.
  rewrite filter_app, round_effects_sleeps.
  rewrite Nat.add_succ_r in Hat.
  rewrite (IH (S i)); [|intros j Hj; apply Hbefore; lia|exact Hat].
  assert (Hnext : state_of (getCurrencies (answers (quiet ws) i) (state_after (quiet ws) i st0))
                  = state_after (quiet ws) (S i) st0)
    by (cbn [state_after]; now rewrite round_state_quiet).
  rewrite Hnext. destruct k as [|k].
  - rewrite Nat.add_0_r in Hat. cbn [Nat.add] in Hat. rewrite Hat. reflexivity.
  - rewrite (Hbefore (S i)) by lia. cbn. now rewrite Nat.sub_0_r.
Qed.

(** C6: [load] runs its loop for as long as [loadedCurrencies] is
    false: if the instance is first found loaded after [n] rounds, then
    [n] rounds (and no fewer) bring [load] to its end.  A round is a
    call of [getCurrencies] followed, while the instance is still not
    loaded, by a sleep of 5000 ms (so [n - 1] sleeps when no other task
    loads the oracle meanwhile).  Then come 'currency-loaded' with the
    cache and 'price-update', once each and in that order, and no other
    notification.  A 404 ends the loop like any other path that sets
    the flag, and on an instance that starts disabled [load] resolves
    at once with just the two notifications. *)
Theorem load_rounds_then_events :
  (forall sc st n fuel,
     (forall i, (i < n)%nat -> fLoadedCurrencies (state_after sc i st) = false) ->
     fLoadedCurrencies (state_after sc n st) = true ->
     let st' := state_after sc n st in
     ((n <= fuel)%nat ->
        load fuel sc st = (Normal true, st', rounds_from sc st 0 n ++ load_events st') /\
        List.filter is_emit (trace_of (load fuel sc st)) = load_events st' /\
        Forall (fun e => e = Sleep 5000) (List.filter is_sleep (trace_of (load fuel sc st)))) /\
     ((fuel < n)%nat -> result_of (load fuel sc st) = Normal false)) /\
  (forall ws st n fuel,
     (forall i, (i < n)%nat -> fLoadedCurrencies (state_after (quiet ws) i st) = false) ->
     fLoadedCurrencies (state_after (quiet ws) n st) = true ->
     (n <= fuel)%nat ->
     List.filter is_sleep (trace_of (load fuel (quiet ws) st)) = repeat (Sleep 5000) (n - 1)) /\
  (forall sc i st,
     round_effects sc i st
     = trace_of (getCurrencies (answers sc i) st) ++
       (if fLoadedCurrencies (state_of (getCurrencies (answers sc i) st)) then []
        else Sleep 5000 :: trace_of (run_others (meanwhile sc i)
                                       (state_of (getCurrencies (answers sc i) st))))) /\
  (forall w st, fOracleDisabled st = false -> not_found w = true ->
     fLoadedCurrencies (state_of (getCurrencies w st)) = true) /\
  (forall fuel sc w,
     load fuel sc (Oracle_new false w)
     = (Normal true, Oracle_new false w, load_events (Oracle_new false w))).
Proof.
  assert (Hrun : forall sc st n fuel,
            (forall i, (i < n)%nat -> fLoadedCurrencies (state_after sc i st) = false) ->
            fLoadedCurrencies (state_after sc n st) = true ->
            (n <= fuel)%nat ->
            load fuel sc st
            = (Normal true, state_after sc n st,
               rounds_from sc st 0 n ++ load_events (state_after sc n st))).
  { intros sc st n fuel Hbefore Hat Hfuel.
    assert (Hloop : load_loop fuel sc 0 st
                    = (Normal true, state_after sc n st, rounds_from sc st 0 n)).
    { apply (load_loop_rounds sc st n 0 fuel); auto.
      intros j Hj. apply Hbefore. lia. }
    unfold load, bind at 1. rewrite Hloop.
    unfold bind, gets, emit, tell, ret, load_events. cbn [fst snd app].
    reflexivity. }
  split; [|split; [|split; [|split]]].
  - intros sc st n fuel Hbefore Hat st'. split.
    + intros Hfuel. rewrite (Hrun sc st n fuel Hbefore Hat Hfuel).
      unfold trace_of. cbn [snd]. repeat split.
      * rewrite filter_app, rounds_from_no_emit. reflexivity.
      * rewrite filter_app. cbn. rewrite app_nil_r. apply rounds_from_sleeps_5000.
    + intros Hfuel. rewrite load_result.
      apply (load_loop_short sc st fuel 0). intros j Hj. apply Hbefore. lia.
  - intros ws st n fuel Hbefore Hat Hfuel.
    rewrite (Hrun (quiet ws) st n fuel Hbefore Hat Hfuel).
    unfold trace_of. cbn [snd].
    rewrite filter_app, (rounds_from_sleeps_quiet ws st n 0); auto.
    + cbn. apply app_nil_r.
    + intros j Hj. apply Hbefore. lia.
  - reflexivity.
  - intros w st Hact Hnf.
    destruct (getCurrencies_active_run st w Hact) as (t & -> & _).
    unfold state_of. cbn [fst snd]. unfold getCurrencies_summary, not_found in *.
    destruct (net w) as [r|e]; [|discriminate].
    destruct (ok r) eqn:Hok; [rewrite (ok_not_404 r Hok) in Hnf; discriminate|].
    rewrite Hnf. now apply disabled_state_flags.
  - intros fuel sc w. unfold load, bind at 1.
    rewrite load_loop_loaded by reflexivity. reflexivity.
Qed.

Lemma load_rounds_then_events_witness :
  let ws := fun i : nat => if Nat.eqb i 0 then network_down
                           else ok_json 200 (JArr [rec_eur]) 0 in
  let r := load 5 (quiet ws) active_oracle in
  result_of r = Normal true /\
  List.filter is_emit (trace_of r)
  = [Emit "currency-loaded" (Some [(JStr "eur", rec_eur)]); Emit "price-update" None] /\
  List.filter is_sleep (trace_of r) = [Sleep 5000].
Proof.
  intros ws r.
  destruct load_rounds_then_events as (Hload & Hsleeps & _).
  assert (Hbefore : forall i, (i < 2)%nat ->
            fLoadedCurrencies (state_after (quiet ws) i active_oracle) = false)
    by (intros i Hi; destruct i as [|[|i]]; [reflexivity|reflexivity|lia]).
  destruct (Hload (quiet ws) active_oracle 2%nat 5%nat Hbefore eq_refl) as (Hdone & _).
  destruct Hdone as (Hrun & Hemit & _); [lia|].
  subst r. split; [now rewrite Hrun|]. split; [exact Hemit|].
  apply (Hsleeps ws active_oracle 2%nat 5%nat Hbefore eq_refl). lia.
Defined.

(* ================================================================== *)
(** ** The singleton of this build *)

Lemma fallback_cache_price now c : cachedPrice c (fallback_cache now) = JNum 0.
Proof.
  unfold cachedPrice, fallback_cache. cbn [map_get same_value_zero].
  destruct ("usd" =? c)%string; [reflexivity|].
  destruct ("eur" =? c)%string; [reflexivity|].
  destruct ("gbp" =? c)%string; [reflexivity|].
  destruct ("btc" =? c)%string; reflexivity.
Qed.

(** C10: [ORACLE_ENABLED] is false, so the singleton (like every
    instance of this build) is born disabled and loaded, with a cache of
    exactly the four zero-valued fallback records usd, eur, gbp, btc.
    No sequence of calls changes it or reaches the network: [getPrice]
    and [getCachedPrice] return 0 for every code, [getCurrencies]
    returns the four fallback records, and [load] resolves at once after
    its two notifications. *)
Theorem cOracle_is_disabled_stub w :
  let o := cOracle w in
  let now := clock_ms w / 1000 in
  ORACLE_ENABLED = false /\
  o = mkOracle (fallback_cache now) true 0 true /\
  List.map value_of (map_values (mapCurrencies o)) = [JNum 0; JNum 0; JNum 0; JNum 0] /\
  (forall ks, fst (run_calls ks o) = o /\ no_fetch (snd (run_calls ks o))) /\
  (forall c w', getPrice c w' o = (Normal (JNum 0), o, [])) /\
  (forall c, getCachedPrice c o = (Normal (JNum 0), o, [])) /\
  (forall w', getCurrencies w' o = (Normal (JArr (map_values (fallback_cache now))), o, [])) /\
  (forall fuel sc,
     load fuel sc o
     = (Normal true, o,
        [Emit "currency-loaded" (Some (fallback_cache now)); Emit "price-update" None])).
Proof.
  intros o now.
  assert (Ho : o = mkOracle (fallback_cache now) true 0 true) by reflexivity.
  split; [reflexivity|]. split; [exact Ho|]. split; [reflexivity|].
  rewrite Ho. split; [|split; [|split; [|split]]].
  - intros ks. now apply run_calls_disabled.
  - intros c w'. rewrite getPrice_disabled_run by reflexivity.
    cbn [mapCurrencies]. now rewrite fallback_cache_price.
  - intros c. unfold getCachedPrice, bind, gets, ret. cbn [fst snd mapCurrencies app].
    now rewrite fallback_cache_price.
  - intros w'. now rewrite getCurrencies_disabled_run.
  - intros fuel sc. unfold load, bind at 1.
    rewrite load_loop_loaded by reflexivity. reflexivity.
Qed.

(* ================================================================== *)
(** ** AsyncInterval: failures, deferred cancellation *)

Module AsyncIntervalSpec.
Import AsyncInterval.

Lemma insert_timer_in t q x : In x (insert_timer t q) <-> x = t \/ In x q.
Proof.
  induction q as [|y q IH]; simpl.
  - intuition.
  - destruct (due y <=? due t); simpl; rewrite ?IH; intuition.
Qed.

Lemma count_resume_insert t q :
  count_resume (insert_timer t q) = (count_resume [t] + count_resume q)%nat.
Proof.
  unfold count_resume. induction q as [|y q IH]; simpl.
  - now rewrite Nat.add_0_r.
  - destruct (due y <=? due t); simpl.
    + destruct (is_resume y); simpl; rewrite IH; simpl; lia.
    + destruct (is_resume t), (is_resume y); reflexivity.
Qed.

Lemma count_resume_app p q : count_resume (p ++ q) = (count_resume p + count_resume q)%nat.
Proof. unfold count_resume. now rewrite filter_app, length_app. Qed.

(** A new timer splits the queue: ahead of it are timers that are due
    no later. *)
Lemma insert_timer_split t q :
  exists pre post, insert_timer t q = pre ++ t :: post /\ q = pre ++ post /\
                   Forall (fun x => due x <= due t) pre.
Proof.
  induction q as [|y q (pre & post & E & Eq & Hpre)]; simpl.
  - exists [], []. auto.
  - destruct (due y <=? due t) eqn:Hy.
    + exists (y :: pre), post. rewrite E, Eq at 1. repeat split; auto.
      constructor; auto. now apply Z.leb_le.
    + exists [], (y :: q). auto.
Qed.

(** A timer that is due no earlier than [d] queues behind [d]. *)
Lemma insert_timer_behind t d pre post :
  Forall (fun x => due x <= due d) pre -> due d <= due t ->
  insert_timer t (pre ++ d :: post) = pre ++ d :: insert_timer t post.
Proof.
  intros Hpre Hd. induction Hpre as [|x pre Hx _ IH]; simpl.
  - apply Z.leb_le in Hd. now rewrite Hd.
  - assert (H : (due x <=? due t) = true) by (apply Z.leb_le; lia).
    now rewrite H, IH.
Qed.

Lemma loop_inv_step timeOut l s s' :
  loop_inv s -> step timeOut l s = Some s' -> loop_inv s'.
Proof.
  unfold loop_inv. intros Hs Hstep. destruct l as [at_ outcome| |at_ ms]; simpl in Hstep.
  - destruct (where_ s) eqn:Hw; try discriminate.
    destruct (now s <=? at_); [|discriminate]. injection Hstep as <-.
    unfold after_callback, sleep. cbn [timers where_].
    rewrite count_resume_insert, Hs. reflexivity.
  - unfold fire in Hstep. destruct (timers s) as [|t rest] eqn:Ht; [discriminate|].
    injection Hstep as <-. unfold count_resume in Hs. simpl in Hs.
    unfold is_resume in Hs at 1.
    destruct (task t); simpl in *.
    + assert (count_resume rest = 0%nat)
        by (unfold count_resume; destruct (where_ s); simpl in *; lia).
      unfold loop_head. cbn. destruct (active s); cbn; auto.
    + exact Hs.
  - destruct (now s <=? at_); [|discriminate]. injection Hstep as <-.
    unfold clearInterval, setTimeout. cbn [timers where_].
    rewrite count_resume_insert. exact Hs.
Qed.

Lemma loop_inv_run timeOut ls : forall s s',
  loop_inv s -> run timeOut ls s = Some s' -> loop_inv s'.
Proof.
  induction ls as [|l ls IH]; intros s s' Hs Hrun; simpl in Hrun.
  - now injection Hrun as <-.
  - destruct (step timeOut l s) as [s1|] eqn:Hstep; [|discriminate].
    eapply IH; [|exact Hrun]. eapply loop_inv_step; eauto.
Qed.

Lemma loop_inv_create t0 : loop_inv (create t0).
Proof. reflexivity. Qed.

Lemma now_step timeOut l s s' : step timeOut l s = Some s' -> now s <= now s'.
Proof.
  destruct l as [at_ outcome| |at_ ms]; simpl.
  - destruct (where_ s); try discriminate.
    destruct (now s <=? at_) eqn:E; [|discriminate]. intros [= <-]. cbn.
    now apply Z.leb_le.
  - unfold fire. destruct (timers s) as [|t rest]; [discriminate|]. intros [= <-].
    destruct (task t); unfold loop_head; cbn; [destruct (active s); cbn|]; lia.
  - destruct (now s <=? at_) eqn:E; [|discriminate]. intros [= <-]. cbn.
    now apply Z.leb_le.
Qed.

(* ------------------------------------------------------------------ *)
(** *** Without [clearInterval] the loop goes on, whatever [cb] does *)

Lemma alive_step timeOut l s s' :
  is_clear l = false -> alive s -> step timeOut l s = Some s' -> alive s'.
Proof.
  unfold alive. intros Hl (Ha & Hw & Ht) Hstep.
  destruct l as [at_ outcome| |at_ ms]; simpl in *; try discriminate.
  - destruct (where_ s); try discriminate.
    destruct (now s <=? at_); [|discriminate]. injection Hstep as <-.
    unfold after_callback, sleep. cbn [active where_ timers].
    repeat split; auto; [discriminate|].
    apply Forall_forall. intros x Hx. apply insert_timer_in in Hx as [->|Hx]; auto.
    rewrite Forall_forall in Ht. auto.
  - unfold fire in Hstep. destruct (timers s) as [|t rest]; [discriminate|].
    injection Hstep as <-. inversion Ht as [|? ? Htask Hrest]; subst.
    rewrite Htask. unfold loop_head. cbn [active]. rewrite Ha. cbn.
    repeat split; auto. discriminate.
Qed.

Lemma alive_run timeOut ls : forall s s',
  forallb (fun l => negb (is_clear l)) ls = true ->
  alive s -> run timeOut ls s = Some s' -> alive s'.
Proof.
  induction ls as [|l ls IH]; intros s s' Hls Hs Hrun; simpl in *.
  - now injection Hrun as <-.
  - apply andb_prop in Hls as [Hl Hls]. apply negb_true_iff in Hl.
    destruct (step timeOut l s) as [s1|] eqn:Hstep; [|discriminate].
    apply (IH s1 s' Hls); [|exact Hrun]. eapply alive_step; eauto.
Qed.

(** A sleeping loop that is alive wakes up into a new call of [cb]. *)
Lemma alive_sleeping_fires s :
  alive s -> loop_inv s -> where_ s = Sleeping ->
  exists s', fire s = Some s' /\ invocations s' = S (invocations s) /\
             where_ s' = InCallback.
Proof.
  unfold alive, loop_inv. intros (Ha & _ & Ht) Hl Hw. rewrite Hw in Hl.
  unfold fire. destruct (timers s) as [|t rest]; [discriminate|].
  inversion Ht as [|? ? Htask _]; subst. rewrite Htask.
  unfold loop_head. cbn [active]. rewrite Ha. eexists. repeat split.
Qed.

(** A callback that fails at every call is called again and again. *)
Lemma failing_rounds_run timeOut e n : forall s,
  active s = true -> where_ s = InCallback -> timers s = [] ->
  exists s',
    failing_rounds timeOut e n s = Some s' /\
    invocations s' = (n + invocations s)%nat /\
    errors s' = errors s ++ repeat e n /\
    active s' = true /\ where_ s' = InCallback /\ timers s' = [].
Proof.
  induction n as [|n IH]; intros s Ha Hw Ht.
  - exists s. rewrite app_nil_r. repeat split; auto.
  - cbn [failing_rounds failing_round run step]. rewrite Hw, Z.leb_refl.
    unfold fire, after_callback, sleep. cbn [timers]. rewrite Ht.
    cbn [insert_timer task]. unfold loop_head. cbn [active]. rewrite Ha.
    match goal with
    | |- context [failing_rounds timeOut e n ?s1] =>
        destruct (IH s1 eq_refl eq_refl eq_refl) as (s' & -> & Hi & He & H)
    end.
    exists s'. cbn [invocations errors] in *. rewrite Hi, He, <- app_assoc.
    split; [reflexivity|]. split; [lia|]. split; [reflexivity|exact H].
Qed.

(* ------------------------------------------------------------------ *)
(** *** Cancellation is deferred *)

Lemma deferred_step timeOut l hist s s' :
  deferred hist s -> step timeOut l s = Some s' -> deferred (hist ++ [l]) s'.
Proof.
  intros (Ht & Ha) Hstep. pose proof (now_step _ _ _ _ Hstep) as Hnow.
  assert (Hold : forall at_ ms, In (Clear at_ ms) hist -> In (Clear at_ ms) (hist ++ [l]))
    by (intros; apply in_or_app; now left).
  assert (Ha' : active s = false ->
            exists at_ ms, In (Clear at_ ms) (hist ++ [l]) /\ at_ + timer_delay ms <= now s').
  { intros H. destruct (Ha H) as (at_ & ms & Hin & Hle). exists at_, ms. split; auto. lia. }
  assert (Ht' : forall t, In t (timers s) -> task t = Deactivate ->
            exists at_ ms, In (Clear at_ ms) (hist ++ [l]) /\ at_ + timer_delay ms = due t).
  { intros t Hin Htask. destruct (Ht t Hin Htask) as (at_ & ms & H1 & H2). eauto. }
  destruct l as [at_ outcome| |at_ ms]; simpl in Hstep.
  - destruct (where_ s); try discriminate.
    destruct (now s <=? at_); [|discriminate]. injection Hstep as <-.
    split; [|exact Ha'].
    unfold after_callback, sleep. cbn [timers]. intros t Hin Htask.
    apply insert_timer_in in Hin as [->|Hin]; [discriminate Htask|auto].
  - unfold fire in Hstep. destruct (timers s) as [|t rest] eqn:Hq; [discriminate|].
    injection Hstep as <-. destruct (task t) eqn:Htask.
    + unfold loop_head. cbn [active]. destruct (active s) eqn:Hact; cbn [timers active now].
      * split; [intros x Hx; apply Ht'; now right|discriminate].
      * split; [intros x Hx; apply Ht'; now right|].
        intros _. exact (Ha' eq_refl).
    + cbn [timers active now]. split; [intros x Hx; apply Ht'; now right|].
      intros _. destruct (Ht' t (or_introl eq_refl) Htask) as (at_ & ms & Hin & Hdue).
      exists at_, ms. split; [exact Hin|]. cbn [now]. lia.
  - destruct (now s <=? at_); [|discriminate]. injection Hstep as <-.
    split; [|exact Ha'].
    unfold clearInterval, setTimeout. cbn [timers]. intros t Hin Htask.
    apply insert_timer_in in Hin as [->|Hin]; [|auto].
    exists at_, ms. split; [apply in_or_app; right; now left|reflexivity].
Qed.

Lemma deferred_run timeOut ls : forall hist s s',
  deferred hist s -> run timeOut ls s = Some s' -> deferred (hist ++ ls) s'.
Proof.
  induction ls as [|l ls IH]; intros hist s s' Hs Hrun; simpl in Hrun.
  - injection Hrun as <-. now rewrite app_nil_r.
  - destruct (step timeOut l s) as [s1|] eqn:Hstep; [|discriminate].
    replace (hist ++ l :: ls) with ((hist ++ [l]) ++ ls) by (now rewrite <- app_assoc).
    eapply IH; [|exact Hrun]. eapply deferred_step; eauto.
Qed.

Lemma deferred_create t0 : deferred [] (create t0).
Proof. split; [intros t []|discriminate]. Qed.

(* ------------------------------------------------------------------ *)
(** *** After [clearInterval(0)]: at most one more call of [cb] *)

Lemma timer_delay_nonneg ms : 0 <= timer_delay ms.
Proof.
  unfold timer_delay. destruct (0 <=? ms) eqn:E; cbn [andb]; [|lia].
  apply Z.leb_le in E. destruct (ms <=? TIMEOUT_MAX); lia.
Qed.

Lemma timer_delay_in_range ms : 0 <= ms <= TIMEOUT_MAX -> timer_delay ms = ms.
Proof.
  intros [H0 H1]. unfold timer_delay.
  apply Z.leb_le in H0, H1. now rewrite H0, H1.
Qed.

Lemma timer_delay_out_of_range ms : ms < 0 \/ TIMEOUT_MAX < ms -> timer_delay ms = 0.
Proof.
  intros H. unfold timer_delay.
  destruct (0 <=? ms) eqn:H0; cbn [andb]; [|reflexivity].
  destruct (ms <=? TIMEOUT_MAX) eqn:H1; [|reflexivity].
  apply Z.leb_le in H0, H1. lia.
Qed.

Lemma winding_down_insert T c s k at_ d (s' : state) :
  winding_down T c s -> now s <= at_ -> 0 <= d ->
  now s' = at_ -> active s' = active s -> invocations s' = invocations s ->
  timers s' = insert_timer (Timer (at_ + d) k) (timers s) ->
  winding_down T c s'.
Proof.
  intros (HT & H) Hat Hd Hnow Hact Hinv Htimers. split; [lia|].
  destruct H as [(pre & post & Hq & Hpre & Hc)|[Ha Hc]].
  - left. exists pre, (insert_timer (Timer (at_ + d) k) post).
    rewrite Htimers, Hq, Hinv. split; [|auto].
    apply (insert_timer_behind _ (Timer T Deactivate)); cbn [due]; auto. lia.
  - right. rewrite Hact, Hinv. auto.
Qed.

Lemma winding_down_step timeOut T c l s s' :
  winding_down T c s -> step timeOut l s = Some s' -> winding_down T c s'.
Proof.
  intros Hs Hstep. pose proof (now_step _ _ _ _ Hstep) as Hnow.
  destruct l as [at_ outcome| |at_ ms]; simpl in Hstep.
  - destruct (where_ s); try discriminate.
    destruct (now s <=? at_) eqn:E; [|discriminate]. injection Hstep as <-.
    apply Z.leb_le in E.
    eapply (winding_down_insert T c s Resume at_ (Z.max 0 timeOut)); eauto. lia.
  - destruct Hs as (HT & H). split; [lia|]. clear Hnow.
    unfold fire in Hstep. destruct (timers s) as [|t rest] eqn:Hq; [discriminate|].
    injection Hstep as <-.
    destruct H as [(pre & post & Hsplit & Hpre & Hc)|[Ha Hc]].
    + destruct pre as [|x pre]; simpl in Hsplit; injection Hsplit as -> ->.
      * right. cbn [task active invocations]. split; auto.
        unfold count_resume in Hc. simpl in Hc. lia.
      * left. exists pre, post. inversion Hpre as [|? ? _ Hpre']; subst.
        unfold count_resume in Hc. simpl in Hc. unfold is_resume in Hc at 1.
        fold (count_resume pre) in Hc.
        destruct (task x); [unfold loop_head; cbn [active]; destruct (active s)|];
          cbn [timers invocations]; repeat split; auto;
          unfold count_resume in *; simpl in Hc; lia.
    + right. destruct (task t); [unfold loop_head; cbn [active]; rewrite Ha|];
        cbn [active invocations]; auto.
  - destruct (now s <=? at_) eqn:E; [|discriminate]. injection Hstep as <-.
    apply Z.leb_le in E.
    eapply (winding_down_insert T c s Deactivate at_ (timer_delay ms)); eauto.
    apply timer_delay_nonneg.
Qed.

Lemma winding_down_run timeOut T c ls : forall s s',
  winding_down T c s -> run timeOut ls s = Some s' -> winding_down T c s'.
Proof.
  induction ls as [|l ls IH]; intros s s' Hs Hrun; simpl in Hrun.
  - now injection Hrun as <-.
  - destruct (step timeOut l s) as [s1|] eqn:Hstep; [|discriminate].
    eapply IH; [|exact Hrun]. eapply winding_down_step; eauto.
Qed.

Lemma winding_down_bound T c s : winding_down T c s -> (invocations s <= c)%nat.
Proof. intros (_ & [(pre & post & _ & _ & H)|[_ H]]); lia. Qed.

Lemma clear_zero_winds_down s at_ :
  loop_inv s -> now s <= at_ ->
  winding_down (at_ + timer_delay 0) (S (invocations s)) (clearInterval 0 at_ s).
Proof.
  intros Hl Hat. split; [cbn; lia|]. left.
  unfold clearInterval, setTimeout. cbn [timers invocations].
  destruct (insert_timer_split (Timer (at_ + timer_delay 0) Deactivate) (timers s))
    as (pre & post & -> & Hq & Hpre).
  exists pre, post. repeat split; auto.
  unfold loop_inv in Hl. rewrite Hq, count_resume_app in Hl.
  destruct (where_ s); lia.
Qed.

(** C8, the claim as worded, fails for a timeout that the platform's
    timer cannot hold: [clearInterval(2147483648)], called at time 10,
    lowers the flag at the next turn of the timers, at time 10, some 25
    days before the given timeout has elapsed. *)
Lemma flag_waits_for_the_given_timeout_counterexample :
  ~ flag_waits_for_the_given_timeout 1000 0.
Proof.
  intros H.
  destruct (H [Clear 10 2147483648; Fire]
              (State false InCallback 10 [] 1 []) eq_refl eq_refl)
    as (at_ & ms & Hin & Hle).
  destruct Hin as [E|[E|[]]]; [|discriminate E].
  injection E as <- <-. cbn in Hle. lia.
Qed.

(** C8: a failing callback never stops the loop.  As long as
    [clearInterval] is not called the interval stays active and its
    loop never exits, however the calls of [cb] settle, and a sleeping
    loop wakes up into the next call; a callback that fails at every
    call has been called [n + 1] times after [n] rounds, with its [n]
    failures logged and none propagated (so 3 calls after 2 rounds).
    [clearInterval] leaves the flag as it is and sets a timer for the
    delay that the platform applies: the given timeout when it is from
    0 to [TIMEOUT_MAX] = 2^31 - 1, no delay otherwise.  The flag goes
    down only when the applied delay of some [clearInterval] call has
    elapsed; so, when every timeout given is in that range, only after a
    given timeout has elapsed.  And after [clearInterval(0)] the
    callback is called at most once more, whatever happens next. *)
Theorem failing_callback_never_stops_interval (timeOut t0 : Z) :
  (forall ls s,
     forallb (fun l => negb (is_clear l)) ls = true ->
     run timeOut ls (create t0) = Some s ->
     active s = true /\ where_ s <> Exited /\
     (where_ s = Sleeping ->
        exists s', step timeOut Fire s = Some s' /\
                   invocations s' = S (invocations s) /\ where_ s' = InCallback)) /\
  (forall e n, exists s,
     failing_rounds timeOut e n (create t0) = Some s /\
     invocations s = S n /\ errors s = repeat e n /\
     active s = true /\ where_ s = InCallback) /\
  (forall s at_ ms,
     active (clearInterval ms at_ s) = active s /\
     In (Timer (at_ + timer_delay ms) Deactivate) (timers (clearInterval ms at_ s))) /\
  (TIMEOUT_MAX = 2 ^ 31 - 1 /\
   (forall ms, 0 <= ms <= TIMEOUT_MAX -> timer_delay ms = ms) /\
   (forall ms, ms < 0 \/ TIMEOUT_MAX < ms -> timer_delay ms = 0)) /\
  (forall ls s,
     run timeOut ls (create t0) = Some s -> active s = false ->
     exists at_ ms, In (Clear at_ ms) ls /\ at_ + timer_delay ms <= now s) /\
  (forall ls s,
     (forall at_ ms, In (Clear at_ ms) ls -> 0 <= ms <= TIMEOUT_MAX) ->
     run timeOut ls (create t0) = Some s -> active s = false ->
     exists at_ ms, In (Clear at_ ms) ls /\ at_ + ms <= now s) /\
  (forall ls1 s at_ ls2 s2,
     run timeOut ls1 (create t0) = Some s ->
     run timeOut (Clear at_ 0 :: ls2) s = Some s2 ->
     (invocations s2 <= S (invocations s))%nat).
Proof.
  assert (Hdown : forall ls s,
            run timeOut ls (create t0) = Some s -> active s = false ->
            exists at_ ms, In (Clear at_ ms) ls /\ at_ + timer_delay ms <= now s).
  { intros ls s Hrun Ha.
    destruct (deferred_run timeOut ls [] (create t0) s (deferred_create t0) Hrun) as [_ H].
    exact (H Ha). }
  split; [|split; [|split; [|split; [|split; [|split]]]]].
  - intros ls s Hls Hrun.
    assert (Ha : alive s).
    { eapply alive_run; eauto. repeat split; [discriminate|constructor]. }
    assert (Hl : loop_inv s) by (eapply loop_inv_run; eauto using loop_inv_create).
    destruct Ha as (H1 & H2 & H3). repeat split; auto.
    intros Hw. apply alive_sleeping_fires; auto. repeat split; auto.
  - intros e n.
    destruct (failing_rounds_run timeOut e n (create t0) eq_refl eq_refl eq_refl)
      as (s & Hr & Hi & He & Ha & Hw & _).
    exists s. cbn in Hi, He. repeat split; auto. lia.
  - intros s at_ ms. split; [reflexivity|].
    unfold clearInterval, setTimeout. cbn [timers]. apply insert_timer_in. now left.
  - split; [reflexivity|].
    split; [exact timer_delay_in_range|exact timer_delay_out_of_range].
  - exact Hdown.
  - intros ls s Hrange Hrun Ha.
    destruct (Hdown ls s Hrun Ha) as (at_ & ms & Hin & Hle).
    exists at_, ms. split; [exact Hin|].
    now rewrite <- (timer_delay_in_range ms (Hrange at_ ms Hin)).
  - intros ls1 s at_ ls2 s2 Hrun1 Hrun2.
    assert (Hl : loop_inv s) by (eapply loop_inv_run; eauto using loop_inv_create).
    cbn [run step] in Hrun2.
    destruct (now s <=? at_) eqn:E; [|discriminate]. apply Z.leb_le in E.
    eapply winding_down_bound, winding_down_run; [|exact Hrun2].
    now apply clear_zero_winds_down.
Qed.

Lemma failing_callback_never_stops_interval_witness :
  let boom := Error "offline" in
  let before := [Settle 3 (Throw boom); Fire; Settle 1003 (Throw boom)] in
  let after := [Fire; Settle 2500 (Throw boom); Fire; Fire] in
  let late := [Clear 1200 5000; Fire; Settle 2500 (Throw boom); Fire; Fire] in
  match run 1000 before (create 0) with
  | Some s =>
      invocations s = 2%nat /\ active s = true /\
      match run 1000 (Clear 2003 0 :: after) s with
      | Some s2 => (invocations s2 <= S (invocations s))%nat /\ active s2 = false
      | None => False
      end /\
      match run 1000 late s with
      | Some s3 =>
          active s3 = false /\
          exists at_ ms, In (Clear at_ ms) (before ++ late) /\ at_ + ms <= now s3
      | None => False
      end
  | None => False
  end.
Proof.
  intros boom before after late.
  destruct (failing_callback_never_stops_interval 1000 0)
    as (Hlive & _ & _ & _ & _ & Hwait & Hstop).
  destruct (run 1000 before (create 0)) as [s|] eqn:H1; [|discriminate H1].
  split; [injection H1 as <-; reflexivity|].
  split; [apply (Hlive before s eq_refl H1)|].
  split.
  - destruct (run 1000 (Clear 2003 0 :: after) s) as [s2|] eqn:H2.
    + split; [exact (Hstop before s 2003 after s2 H1 H2)|].
      injection H1 as <-. injection H2 as <-. reflexivity.
    + injection H1 as <-. discriminate H2.
  - destruct (run 1000 late s) as [s3|] eqn:H3.
    + assert (Ha : active s3 = false)
        by (injection H1 as <-; injection H3 as <-; reflexivity).
      split; [exact Ha|].
      apply Hwait; [| |exact Ha].
      * intros at_ ms Hin. unfold before, late in Hin. cbn in Hin.
        repeat (destruct Hin as [E|Hin]; [try discriminate E|]); [|destruct Hin].
        injection E as <- <-. unfold TIMEOUT_MAX. lia.
      * injection H1 as <-. injection H3 as <-. reflexivity.
    + injection H1 as <-. discriminate H3.
Defined.

End AsyncIntervalSpec.

(* ================================================================== *)
(** ** What every call keeps *)

Lemma run_others_cons k ks st :
  state_of (run_others (k :: ks) st) = state_of (run_others ks (state_of (run_other k st))).
Proof.
  cbn [run_others]. unfold bind.
  destruct (run_other_harmless k st) as (Hr & _).
  destruct (run_other k st) as [[res st1] t1].
  unfold result_of, state_of in *. cbn [fst snd] in *. subst res.
  now destruct (run_others ks st1) as [[res st2] t2].
Qed.

Lemma load_unfold fuel sc st :
  load fuel sc st =
    let r := load_loop fuel sc 0%nat st in
    (result_of r, state_of r,
     trace_of r ++ match result_of r with
                   | Normal true => load_events (state_of r)
                   | _ => []
                   end).
Proof.
  unfold load, bind at 1.
  destruct (load_loop_props sc fuel 0%nat st) as (b & st' & t & -> & _).
  unfold result_of, state_of, trace_of. cbn [fst snd].
  destruct b; reflexivity.
Qed.

(** A relation between the instance before and after, which holds
    across [getPrice] and across [getCurrencies], holds across every
    call and every sequence of calls, [load] and the other tasks
    running during its sleeps included. *)
Section AcrossCalls.
Variable R : Oracle -> Oracle -> Prop.
Hypothesis R_refl : forall st, R st st.
Hypothesis R_trans : forall a b c, R a b -> R b c -> R a c.
Hypothesis R_price : forall c w st, R st (state_of (getPrice c w st)).
Hypothesis R_currencies : forall w st, R st (state_of (getCurrencies w st)).

Lemma across_run_others ks : forall st, R st (state_of (run_others ks st)).
Proof.
  induction ks as [|k ks IH]; intros st.
  - apply R_refl.
  - rewrite run_others_cons. eapply R_trans; [|apply IH].
    destruct k as [c w|w];
      [rewrite run_other_price|rewrite run_other_currencies];
      unfold state_of at 1; cbn [fst snd]; auto.
Qed.

Lemma across_round sc i st : R st (round_state sc i st).
Proof.
  unfold round_state. destruct (fLoadedCurrencies _); auto.
  eapply R_trans; [apply R_currencies|apply across_run_others].
Qed.

Lemma across_load_loop sc fuel : forall i st, R st (state_of (load_loop fuel sc i st)).
Proof.
  induction fuel as [|fuel IH]; intros i st;
    destruct (fLoadedCurrencies st) eqn:E;
    try (rewrite load_loop_loaded by auto; apply R_refl).
  - rewrite load_loop_out_of_fuel by auto. apply R_refl.
  - rewrite load_loop_round by auto.
    specialize (IH (S i) (round_state sc i st)).
    destruct (load_loop fuel sc (S i) (round_state sc i st)) as [[b st2] t2].
    eapply R_trans; [apply across_round|exact IH].
Qed.

Lemma across_call k st : R st (fst (run_call k st)).
Proof.
  destruct k as [c| |c w|w|fuel sc]; cbn [run_call fst].
  - apply R_refl.
  - apply R_refl.
  - apply R_price.
  - apply R_currencies.
  - rewrite load_unfold. apply across_load_loop.
Qed.

Lemma across_calls ks : forall st, R st (fst (run_calls ks st)).
Proof.
  induction ks as [|k ks IH]; intros st; cbn [run_calls].
  - apply R_refl.
  - pose proof (across_call k st) as Hk. destruct (run_call k st) as [st1 t1].
    specialize (IH st1). destruct (run_calls ks st1) as [st2 t2].
    cbn [fst] in *. eauto.
Qed.
End AcrossCalls.

(** The instance that [getPrice] leaves is the one it found (when
    disabled), or one that the bookkeeping helpers lead to. *)
Lemma getPrice_state_cases c w st :
  let st' := state_of (getPrice c w st) in
  (fOracleDisabled st = true /\ st' = st) \/
  (fOracleDisabled st = false /\
   (st' = failed_state w st \/ st' = disabled_state w st \/
    exists v, st' = stored_state (JStr c) v st \/
              st' = failed_state w (stored_state (JStr c) v st))).
Proof.
  cbv zeta. destruct (fOracleDisabled st) eqn:E.
  - left. now rewrite getPrice_disabled_run.
  - right. split; auto.
    destruct (getPrice_active_run st c w E) as (t & -> & _).
    unfold state_of. cbn [fst snd]. unfold getPrice_summary.
    destruct (net w) as [r|e]; [|now left].
    destruct (ok r); [|destruct (status r =? 404); cbn [snd cached_price_at]; auto].
    destruct (body r) as [v|e]; [|now left].
    right. right. exists v.
    destruct (get_prop v "value"); cbn [snd cached_price_at]; auto.
Qed.

Lemma getCurrencies_state_cases w st :
  let st' := state_of (getCurrencies w st) in
  (fOracleDisabled st = true /\ st' = st) \/
  (fOracleDisabled st = false /\
   (st' = failed_state w st \/ st' = disabled_state w st \/
    exists l m o, upsert_all l (mapCurrencies st) = (m, o) /\
      (st' = set_loaded true (set_map m (set_failures 0 st)) \/
       st' = failed_state w (set_map m (set_failures 0 st))))).
Proof.
  cbv zeta. destruct (fOracleDisabled st) eqn:E.
  - left. now rewrite getCurrencies_disabled_run.
  - right. split; auto.
    destruct (getCurrencies_active_run st w E) as (t & -> & _).
    unfold state_of. cbn [fst snd]. unfold getCurrencies_summary.
    destruct (net w) as [r|e]; [|now left].
    destruct (ok r); [|destruct (status r =? 404); cbn [snd cached_list_at]; auto].
    destruct (body r) as [v|e]; [|now left].
    destruct v as [| | | | |[|x l]|]; try now left.
    right. right.
    destruct (upsert_all (x :: l) (mapCurrencies st)) as [m o] eqn:Hup.
    exists (x :: l), m, o. split; auto.
    destruct o; cbn [snd cached_list_at]; auto.
Qed.

(** So a relation that holds across each bookkeeping step on an active
    instance holds across every call. *)
Section AcrossSteps.
Variable R : Oracle -> Oracle -> Prop.
Hypothesis R_refl : forall st, R st st.
Hypothesis R_trans : forall a b c, R a b -> R b c -> R a c.
Hypothesis R_failed : forall w st, fOracleDisabled st = false -> R st (failed_state w st).
Hypothesis R_disabled : forall w st, fOracleDisabled st = false -> R st (disabled_state w st).
Hypothesis R_stored : forall k v st, fOracleDisabled st = false -> R st (stored_state k v st).
Hypothesis R_upserted : forall l m o st, fOracleDisabled st = false ->
  upsert_all l (mapCurrencies st) = (m, o) -> R st (set_map m (set_failures 0 st)).
Hypothesis R_loaded : forall st, fOracleDisabled st = false -> R st (set_loaded true st).

Lemma steps_getPrice c w st : R st (state_of (getPrice c w st)).
Proof.
  destruct (getPrice_state_cases c w st) as [[_ ->]|[E [-> |[-> |[v [-> | ->]]]]]]; auto.
  eapply R_trans; [apply (R_stored (JStr c) v st E)|]. now apply R_failed.
Qed.

Lemma steps_getCurrencies w st : R st (state_of (getCurrencies w st)).
Proof.
  destruct (getCurrencies_state_cases w st)
    as [[_ ->]|[E [-> |[-> |(l & m & o & Hup & [-> | ->])]]]]; auto.
  - eapply R_trans; [apply (R_upserted l m o st E Hup)|]. now apply R_loaded.
  - eapply R_trans; [apply (R_upserted l m o st E Hup)|]. now apply R_failed.
Qed.

Lemma steps_call k st : R st (fst (run_call k st)).
Proof. apply across_call; auto using steps_getPrice, steps_getCurrencies. Qed.

Lemma steps_calls ks st : R st (fst (run_calls ks st)).
Proof. apply across_calls; auto using steps_getPrice, steps_getCurrencies. Qed.
End AcrossSteps.

(* ================================================================== *)
(** ** The cache only grows *)

Lemma cache_extends_refl m : cache_extends m m.
Proof. exists []. now rewrite app_nil_r. Qed.

Lemma cache_extends_keys m m' : cache_extends m m' -> keys_extend m m'.
Proof. intros [extra ->]. exists (map_keys extra). unfold map_keys. apply map_app. Qed.

Lemma keys_extend_refl m : keys_extend m m.
Proof. apply cache_extends_keys, cache_extends_refl. Qed.

Lemma keys_extend_trans a b c : keys_extend a b -> keys_extend b c -> keys_extend a c.
Proof.
  intros [e1 H1] [e2 H2]. exists (e1 ++ e2). now rewrite H2, H1, app_assoc.
Qed.

Lemma keys_extend_set k v m : keys_extend m (map_set k v m).
Proof.
  destruct (map_keys_set k v m) as [H|H]; [exists []|exists [k]]; rewrite H; auto.
  now rewrite app_nil_r.
Qed.

Lemma cache_extends_ensure now m :
  cache_extends m (ensure_loop FALLBACK_CURRENCIES now m).
Proof.
  destruct (ensure_loop_extends now FALLBACK_CURRENCIES m) as (extra & H & _).
  now exists extra.
Qed.

Lemma cache_extends_disabled w st :
  cache_extends (mapCurrencies st) (mapCurrencies (disabled_state w st)).
Proof.
  unfold disabled_state. destruct (fOracleDisabled st).
  - apply cache_extends_refl.
  - apply cache_extends_ensure.
Qed.

Lemma cache_extends_failed w st :
  cache_extends (mapCurrencies st) (mapCurrencies (failed_state w st)).
Proof.
  unfold failed_state. destruct (_ >=? _).
  - apply (cache_extends_disabled w (set_failures (nOracleFailures st + 1) st)).
  - apply cache_extends_refl.
Qed.

Lemma keys_extend_upsert_all l : forall m m' o,
  upsert_all l m = (m', o) -> keys_extend m m'.
Proof.
  induction l as [|x l IH]; intros m m' o H; simpl in H.
  - injection H as <- _. apply keys_extend_refl.
  - destruct (get_prop x "currency") as [k|e].
    + eapply keys_extend_trans; [apply (keys_extend_set k x)|eapply IH; eauto].
    + injection H as <- _. apply keys_extend_refl.
Qed.

Lemma map_has_keys k m :
  map_has k m = existsb (fun k' => same_value_zero k' k) (map_keys m).
Proof.
  unfold map_has. induction m as [|[k0 v0] m IH]; simpl; auto.
  destruct (same_value_zero k0 k); auto.
Qed.

Lemma keys_extend_has m m' k :
  keys_extend m m' -> map_has k m = true -> map_has k m' = true.
Proof.
  intros [extra H]. rewrite !map_has_keys, H, existsb_app. intros ->. reflexivity.
Qed.

(** X1: no call of a public method, and no sequence of them, ever
    removes a key from the cache or moves one: the keys that were there
    stay where they are, and new ones come after them. *)
Theorem cache_keys_only_grow ks st :
  keys_extend (mapCurrencies st) (mapCurrencies (fst (run_calls ks st))) /\
  (forall k, map_has k (mapCurrencies st) = true ->
             map_has k (mapCurrencies (fst (run_calls ks st))) = true).
Proof.
  assert (H : keys_extend (mapCurrencies st) (mapCurrencies (fst (run_calls ks st)))).
  { apply (steps_calls (fun a b => keys_extend (mapCurrencies a) (mapCurrencies b))).
    - intros a. apply keys_extend_refl.
    - intros a b c. apply keys_extend_trans.
    - intros w a _. apply cache_extends_keys, cache_extends_failed.
    - intros w a _. apply cache_extends_keys, cache_extends_disabled.
    - intros k v a _. apply keys_extend_set.
    - intros l m o a _ Hup. eapply keys_extend_upsert_all; eauto.
    - intros a _. apply keys_extend_refl. }
  split; [exact H|]. intros k. now apply keys_extend_has.
Qed.

(* ================================================================== *)
(** ** The flags and the counter *)

(** X2: [loadedCurrencies] is never reset: once it is true it stays
    true across every sequence of calls. *)
Theorem loaded_flag_is_never_reset ks st :
  fLoadedCurrencies st = true ->
  fLoadedCurrencies (fst (run_calls ks st)) = true.
Proof.
  apply (steps_calls (fun a b => fLoadedCurrencies a = true -> fLoadedCurrencies b = true)).
  - auto.
  - auto.
  - intros w a _ H. unfold failed_state, disabled_state. cbn.
    destruct (_ >=? _); [destruct (fOracleDisabled a)|]; auto.
  - intros w a _ H. unfold disabled_state. destruct (fOracleDisabled a); auto.
  - auto.
  - auto.
  - auto.
Qed.

Lemma loaded_flag_is_never_reset_witness :
  fLoadedCurrencies
    (fst (run_calls [GetPrice "usd" network_down; GetCurrencies (http_error 500);
                     Load 2 bulk_endpoint_down]
            (mkOracle [] true 0 false))) = true.
Proof. apply loaded_flag_is_never_reset. reflexivity. Defined.

Lemma ensure_loop_has_all now c m :
  In c FALLBACK_CURRENCIES ->
  map_has (JStr c) (ensure_loop FALLBACK_CURRENCIES now m) = true.
Proof.
  intros Hc. unfold map_has.
  destruct (map_get (JStr c) m) as [v|] eqn:E.
  - now rewrite (ensure_loop_get_present now FALLBACK_CURRENCIES m _ v E).
  - now rewrite (ensure_loop_get_fallback now FALLBACK_CURRENCIES m c Hc E).
Qed.

Lemma cache_keys_only_grow_witness :
  let st := mkOracle [(JStr "EUR", rec_eur)] false 0 false in
  map_has (JStr "EUR")
    (mapCurrencies (fst (run_calls [GetCurrencies (ok_json 200 (JArr [rec_eur]) 0);
                                    GetPrice "usd" (http_error 404)] st))) = true.
Proof.
  intros st.
  apply (cache_keys_only_grow
           [GetCurrencies (ok_json 200 (JArr [rec_eur]) 0); GetPrice "usd" (http_error 404)] st).
  reflexivity.
Defined.

(* ================================================================== *)
(** ** Requests and diagnostics *)

(** X4: a call of [getPrice] or of [getCurrencies] makes exactly one
    request when the oracle is active, to [ORACLE_BASE/price/<code>]
    (the code as passed) or to [ORACLE_BASE/currencies], and none when
    it is disabled; it never retries within a call. *)
Theorem one_request_per_call c w st :
  fetches (trace_of (getPrice c w st))
  = (if fOracleDisabled st then []
     else [Fetch (ORACLE_BASE ++ "/price/" ++ c)%string]) /\
  fetches (trace_of (getCurrencies w st))
  = (if fOracleDisabled st then []
     else [Fetch (ORACLE_BASE ++ "/currencies")%string]).
Proof.
  unfold fetches. destruct (fOracleDisabled st) eqn:E.
  - rewrite getPrice_disabled_run, getCurrencies_disabled_run by auto. split; reflexivity.
  - destruct (getPrice_active_run st c w E) as (t & -> & Ht).
    destruct (getCurrencies_active_run st w E) as (t' & -> & Ht').
    unfold trace_of. cbn [snd List.filter is_fetch].
    apply forallb_warn_no_fetch in Ht, Ht'. unfold no_fetch in *.
    now rewrite Ht, Ht'.
Qed.

Lemma markOracleFailure_run reason w st :
  markOracleFailure reason w st =
    (Normal tt, failed_state w st,
     Warn (LStr ("Oracle request failed (" ++ string_of_Z (nOracleFailures st + 1) ++ "/"
                 ++ string_of_Z ORACLE_RETRY_LIMIT ++ "): " ++ reason)%string)
     :: (if (nOracleFailures st + 1 >=? ORACLE_RETRY_LIMIT) && negb (fOracleDisabled st)
         then [Warn (LStr ("Oracle disabled: " ++ reason)%string)] else [])).
Proof.
  unfold markOracleFailure, failed_state, bind at 1 2 3, modify, gets, debugWarn, tell.
  cbn [nOracleFailures set_failures app fst snd].
  destruct (nOracleFailures st + 1 >=? ORACLE_RETRY_LIMIT); cbn [andb].
  - destruct (fOracleDisabled st) eqn:E; cbn [negb].
    + rewrite disableOracle_disabled_run by exact E.
      unfold disabled_state. cbn [fOracleDisabled set_failures]. now rewrite E.
    + rewrite disableOracle_active_run by exact E.
      unfold disabled_state. cbn [fOracleDisabled set_failures]. now rewrite E.
  - reflexivity.
Qed.

(** X5: [#markOracleFailure] always adds one to the counter and first
    logs "Oracle request failed (n/3): reason" with the new count.
    Below the limit, or on an oracle that is already disabled, it does
    nothing else (the counter of a disabled oracle keeps counting, the
    cache is not seeded again); at the limit on an active oracle it
    disables it and logs "Oracle disabled: reason" as well. *)
Theorem markOracleFailure_counts_and_logs reason w st :
  let r := markOracleFailure reason w st in
  let n := nOracleFailures st + 1 in
  let failed := Warn (LStr ("Oracle request failed (" ++ string_of_Z n ++ "/"
                            ++ string_of_Z ORACLE_RETRY_LIMIT ++ "): " ++ reason)%string) in
  result_of r = Normal tt /\
  nOracleFailures (state_of r) = n /\
  (n < ORACLE_RETRY_LIMIT \/ fOracleDisabled st = true ->
     state_of r = set_failures n st /\ trace_of r = [failed]) /\
  (ORACLE_RETRY_LIMIT <= n -> fOracleDisabled st = false ->
     fOracleDisabled (state_of r) = true /\
     fLoadedCurrencies (state_of r) = true /\
     trace_of r = [failed; Warn (LStr ("Oracle disabled: " ++ reason)%string)]).
Proof.
  cbv zeta. rewrite markOracleFailure_run.
  unfold result_of, state_of, trace_of. cbn [fst snd].
  unfold failed_state, disabled_state. cbn [nOracleFailures set_failures fOracleDisabled].
  destruct (nOracleFailures st + 1 >=? ORACLE_RETRY_LIMIT) eqn:G;
    rewrite Z.geb_leb in G; [apply Z.leb_le in G|apply Z.leb_gt in G];
    destruct (fOracleDisabled st) eqn:E; cbn.
  - split; [reflexivity|]. split; [reflexivity|]. split; [auto|congruence].
  - split; [reflexivity|]. split; [reflexivity|]. split; [|auto].
    intros [H|H]; [lia|congruence].
  - split; [reflexivity|]. split; [reflexivity|]. split; [auto|congruence].
  - split; [reflexivity|]. split; [reflexivity|]. split; [auto|]. intros; lia.
Qed.

Lemma markOracleFailure_counts_and_logs_witness :
  let st := mkOracle [] true 3 true in
  let r := markOracleFailure "late answer" network_down st in
  state_of r = mkOracle [] true 4 true /\
  trace_of r = [Warn (LStr "Oracle request failed (4/3): late answer")].
Proof.
  intros st r.
  destruct (markOracleFailure_counts_and_logs "late answer" network_down st)
    as (_ & _ & H & _).
  apply H. right. reflexivity.
Defined.

(* ================================================================== *)
(** ** A failed request leaves the cache alone *)

Lemma transport_failure_price w : transport_failure w = true -> price_failure w = true.
Proof.
  unfold transport_failure, price_failure.
  destruct (net w) as [r|e]; auto. destruct (ok r); auto.
  destruct (body r); auto. discriminate.
Qed.

Lemma bulk_rejected_failure w : bulk_rejected w = true -> currencies_failure w = true.
Proof.
  unfold bulk_rejected, currencies_failure.
  destruct (net w) as [r|e]; auto. destruct (ok r); auto.
  destruct (body r) as [v|e]; auto. destruct v as [| | | | |[|x l]|]; auto. discriminate.
Qed.

Lemma getPrice_transport_failure_cache c w st :
  transport_failure w = true ->
  cache_extends (mapCurrencies st) (mapCurrencies (state_of (getPrice c w st))).
Proof.
  intros Hw. destruct (fOracleDisabled st) eqn:E.
  - rewrite getPrice_disabled_run by auto. apply cache_extends_refl.
  - destruct (getPrice_active_run st c w E) as (t & -> & _).
    unfold state_of. cbn [fst snd]. unfold getPrice_summary, transport_failure in *.
    destruct (net w) as [r|e]; [|apply cache_extends_failed].
    destruct (ok r).
    + destruct (body r); [discriminate|apply cache_extends_failed].
    + destruct (status r =? 404); cbn [snd cached_price_at];
        [apply cache_extends_disabled|apply cache_extends_failed].
Qed.

Lemma disabled_state_seeds w st :
  mapCurrencies (disabled_state w st) = mapCurrencies st \/
  mapCurrencies (disabled_state w st)
  = ensure_loop FALLBACK_CURRENCIES (clock_ms w / 1000) (mapCurrencies st).
Proof. unfold disabled_state. destruct (fOracleDisabled st); auto. Qed.

Lemma failed_state_seeds w st :
  mapCurrencies (failed_state w st) = mapCurrencies st \/
  mapCurrencies (failed_state w st)
  = ensure_loop FALLBACK_CURRENCIES (clock_ms w / 1000) (mapCurrencies st).
Proof.
  unfold failed_state. cbv zeta. destruct (_ >=? _); [|now left].
  apply (disabled_state_seeds w (set_failures (nOracleFailures st + 1) st)).
Qed.

Lemma getPrice_transport_failure_seeds c w st :
  transport_failure w = true ->
  mapCurrencies (state_of (getPrice c w st)) = mapCurrencies st \/
  mapCurrencies (state_of (getPrice c w st))
  = ensure_loop FALLBACK_CURRENCIES (clock_ms w / 1000) (mapCurrencies st).
Proof.
  intros Hw. destruct (fOracleDisabled st) eqn:E.
  - rewrite getPrice_disabled_run by auto. now left.
  - destruct (getPrice_active_run st c w E) as (t & -> & _).
    unfold state_of. cbn [fst snd]. unfold getPrice_summary, transport_failure in *.
    destruct (net w) as [r|e]; [|apply failed_state_seeds].
    destruct (ok r).
    + destruct (body r); [discriminate|apply failed_state_seeds].
    + destruct (status r =? 404); cbn [snd cached_price_at];
        [apply disabled_state_seeds|apply failed_state_seeds].
Qed.

(** X6: when the fetch of [getPrice] rejects, answers with a non-2xx
    status (404 included) or with a body that does not parse, every
    entry of the cache stays in place with its record (at most the
    fallback records are appended: the cache is left as it was, or as
    the seeding of the fallback codes makes it), and if the cache has a
    Currency record for the requested code the call returns that
    record's value: a stale price is served. *)
Theorem failed_getPrice_serves_stale_price c w st :
  transport_failure w = true ->
  cache_extends (mapCurrencies st) (mapCurrencies (state_of (getPrice c w st))) /\
  (forall k v, map_get k (mapCurrencies st) = Some v ->
     map_get k (mapCurrencies (state_of (getPrice c w st))) = Some v) /\
  (forall rec, map_get (JStr c) (mapCurrencies st) = Some rec -> is_currency rec = true ->
     result_of (getPrice c w st) = Normal (value_of rec)) /\
  (mapCurrencies (state_of (getPrice c w st)) = mapCurrencies st \/
   mapCurrencies (state_of (getPrice c w st))
   = ensure_loop FALLBACK_CURRENCIES (clock_ms w / 1000) (mapCurrencies st)).
Proof.
  intros Hw. pose proof (getPrice_transport_failure_cache c w st Hw) as Hext.
  split; [exact Hext|]. destruct Hext as [extra Hext]. split; [|split].
  - intros k v Hk. rewrite Hext. now apply map_get_app_present.
  - intros rec Hrec Hcur.
    rewrite getPrice_failure_cached by (right; now apply transport_failure_price).
    f_equal. apply record_cached_price; auto.
    rewrite Hext. now apply map_get_app_present.
  - now apply getPrice_transport_failure_seeds.
Qed.

Lemma failed_getPrice_serves_stale_price_witness :
  let st := mkOracle [(JStr "usd", rec_usd 7)] true 2 false in
  result_of (getPrice "usd" (http_error 503) st) = Normal (JNum 7) /\
  fOracleDisabled (state_of (getPrice "usd" (http_error 503) st)) = true.
Proof.
  intros st.
  destruct (failed_getPrice_serves_stale_price "usd" (http_error 503) st eq_refl)
    as (_ & _ & H & _).
  split; [|reflexivity]. apply (H (rec_usd 7)); reflexivity.
Defined.

(** X7: when [getCurrencies] stores nothing (the fetch rejects, the
    status is not 2xx, the body does not parse or is not a non-empty
    array), every entry of the cache stays in place with its record, and
    the list returned starts with the records that were cached before
    the call, in their order. *)
Theorem failed_getCurrencies_returns_snapshot w st :
  bulk_rejected w = true ->
  cache_extends (mapCurrencies st) (mapCurrencies (state_of (getCurrencies w st))) /\
  exists extra,
    result_of (getCurrencies w st)
    = Normal (JArr (map_values (mapCurrencies st) ++ extra)).
Proof.
  intros Hw.
  assert (Hext : cache_extends (mapCurrencies st)
                   (mapCurrencies (state_of (getCurrencies w st)))).
  { destruct (fOracleDisabled st) eqn:E.
    - rewrite getCurrencies_disabled_run by auto. apply cache_extends_refl.
    - destruct (getCurrencies_active_run st w E) as (t & -> & _).
      unfold state_of. cbn [fst snd]. unfold getCurrencies_summary, bulk_rejected in *.
      destruct (net w) as [r|e]; [|apply cache_extends_failed].
      destruct (ok r).
      + destruct (body r) as [v|e]; [|apply cache_extends_failed].
        destruct v as [| | | | |[|x l]|]; try apply cache_extends_failed. discriminate.
      + destruct (status r =? 404); cbn [snd cached_list_at];
          [apply cache_extends_disabled|apply cache_extends_failed]. }
  split; [exact Hext|]. destruct Hext as [extra Hext].
  exists (map_values extra).
  rewrite getCurrencies_failure_cached by (right; now apply bulk_rejected_failure).
  rewrite Hext. unfold map_values. now rewrite map_app.
Qed.

Lemma failed_getCurrencies_returns_snapshot_witness :
  let st := mkOracle [(JStr "usd", rec_usd 7)] true 0 false in
  exists extra,
    result_of (getCurrencies (ok_json 200 (JArr []) 0) st)
    = Normal (JArr ([rec_usd 7] ++ extra)).
Proof.
  intros st.
  destruct (failed_getCurrencies_returns_snapshot (ok_json 200 (JArr []) 0) st eq_refl)
    as (_ & extra & H).
  exists extra. exact H.
Defined.

(* ================================================================== *)
(** ** Bodies that are read and then fail *)

(** X8: an OK answer to [getPrice] whose body is [null] is stored
    before it is read: the cache entry of the requested code becomes
    [null] (a price cached there is lost), the failure counter ends at 1
    whatever it was, and the call returns 0. *)
Theorem null_body_overwrites_cached_price st c status clock :
  fOracleDisabled st = false ->
  ok (Response status (Normal JNull)) = true ->
  let r := getPrice c (ok_json status JNull clock) st in
  result_of r = Normal (JNum 0) /\
  state_of r = set_map (map_set (JStr c) JNull (mapCurrencies st)) (set_failures 1 st) /\
  map_get (JStr c) (mapCurrencies (state_of r)) = Some JNull.
Proof.
  intros Hact Hok. cbv zeta.
  destruct (getPrice_active_run st c (ok_json status JNull clock) Hact) as (t & -> & _).
  unfold result_of, state_of, getPrice_summary, ok_json. cbn [fst snd net body].
  rewrite Hok. cbn [get_prop cached_price_at fst snd].
  assert (Hst : failed_state (World (Normal (Response status (Normal JNull))) clock)
                  (stored_state (JStr c) JNull st)
                = set_map (map_set (JStr c) JNull (mapCurrencies st)) (set_failures 1 st))
    by reflexivity.
  rewrite Hst. cbn [mapCurrencies set_map set_failures].
  unfold cachedPrice. rewrite map_get_set_same. repeat split.
Qed.

Lemma null_body_overwrites_cached_price_witness :
  let st := mkOracle [(JStr "usd", rec_usd 7)] true 2 false in
  let r := getPrice "usd" (ok_json 200 JNull 0) st in
  result_of r = Normal (JNum 0) /\
  state_of r = mkOracle [(JStr "usd", JNull)] true 1 false.
Proof.
  intros st r.
  destruct (null_body_overwrites_cached_price st "usd" 200 0 eq_refl eq_refl)
    as (H1 & H2 & _).
  split; [exact H1|exact H2].
Defined.

Lemma upsert_all_stops l1 l2 : forall m,
  existsb nullish l1 = false ->
  exists e, upsert_all (l1 ++ JNull :: l2) m = (fold_left upsert l1 m, Some e).
Proof.
  induction l1 as [|x l1 IH]; intros m H; simpl in *.
  - eauto.
  - apply orb_false_elim in H as [Hx Hl].
    rewrite (get_prop_currency_of x Hx). now apply IH.
Qed.

(** X9: when the list that [getCurrencies] receives has a [null]
    element, the records before it are stored, those after it are not,
    [loadedCurrencies] is left as it was, the failure counter ends at 1,
    and the call returns the records cached so far. *)
Theorem null_element_stops_upsert st status l1 l2 clock :
  fOracleDisabled st = false ->
  ok (Response status (Normal (JArr (l1 ++ JNull :: l2)))) = true ->
  existsb nullish l1 = false ->
  let r := getCurrencies (ok_json status (JArr (l1 ++ JNull :: l2)) clock) st in
  let m := fold_left upsert l1 (mapCurrencies st) in
  state_of r = set_map m (set_failures 1 st) /\
  result_of r = Normal (JArr (map_values m)) /\
  fLoadedCurrencies (state_of r) = fLoadedCurrencies st.
Proof.
  intros Hact Hok Hl1. cbv zeta.
  destruct (getCurrencies_active_run st (ok_json status (JArr (l1 ++ JNull :: l2)) clock) Hact)
    as (t & -> & _).
  unfold result_of, state_of, getCurrencies_summary, ok_json. cbn [fst snd net body].
  rewrite Hok.
  destruct (upsert_all_stops l1 l2 (mapCurrencies st) Hl1) as [e He].
  destruct (l1 ++ JNull :: l2) as [|x l] eqn:El; [destruct l1; discriminate El|].
  rewrite He. cbn [cached_list_at fst snd].
  set (m := fold_left upsert l1 (mapCurrencies st)).
  assert (Hst : failed_state (World (Normal (Response status (Normal (JArr (x :: l))))) clock)
                  (set_map m (set_failures 0 st))
                = set_map m (set_failures 1 st)) by reflexivity.
  rewrite Hst. repeat split.
Qed.

Lemma null_element_stops_upsert_witness :
  let r := getCurrencies (ok_json 200 (JArr ([rec_eur] ++ JNull :: [rec_usd 2])) 0)
             active_oracle in
  state_of r = mkOracle [(JStr "eur", rec_eur)] false 1 false /\
  result_of r = Normal (JArr [rec_eur]).
Proof.
  intros r.
  destruct (null_element_stops_upsert active_oracle 200 [rec_eur] [rec_usd 2] 0
              eq_refl eq_refl eq_refl) as (H1 & H2 & _).
  split; [exact H1|exact H2].
Defined.

(* ================================================================== *)
(** ** Fetch, then read back *)

Lemma map_has_app k m m' : map_has k (m ++ m') = map_has k m || map_has k m'.
Proof. rewrite !map_has_keys. unfold map_keys. now rewrite map_app, existsb_app. Qed.

Lemma fold_upsert_fresh l : forall m,
  NoDup (List.map currency_of l) ->
  (forall x, In x l -> map_has (currency_of x) m = false) ->
  fold_left upsert l m = m ++ List.map (fun x => (currency_of x, x)) l.
Proof.
  induction l as [|x l IH]; intros m Hnd Hfresh; simpl.
  - now rewrite app_nil_r.
  - inversion Hnd as [|? ? Hx Hnd']; subst.
    unfold upsert at 2. rewrite map_set_absent by (apply Hfresh; now left).
    rewrite IH; auto.
    + now rewrite <- app_assoc.
    + intros y Hy. rewrite map_has_app, (Hfresh y) by now right.
      unfold map_has. simpl.
      rewrite same_value_zero_neq; auto.
      intros E. apply Hx. rewrite E. now apply in_map.
Qed.

(** X10: after [getCurrencies] has stored a non-empty list of Currency
    records whose codes are pairwise distinct and new to the cache,
    [getCachedCurrencies] returns the records cached before followed by
    the fetched list, in its order; on an empty cache it returns exactly
    the list that [getCurrencies] returned. *)
Theorem getCurrencies_then_snapshot st status l clock :
  fOracleDisabled st = false ->
  ok (Response status (Normal (JArr l))) = true ->
  l <> [] ->
  Forall (fun x => is_currency x = true) l ->
  NoDup (List.map currency_of l) ->
  (forall x, In x l -> map_has (currency_of x) (mapCurrencies st) = false) ->
  let r := getCurrencies (ok_json status (JArr l) clock) st in
  result_of (getCachedCurrencies (state_of r))
  = Normal (JArr (map_values (mapCurrencies st) ++ l)) /\
  (mapCurrencies st = [] -> result_of (getCachedCurrencies (state_of r)) = result_of r).
Proof.
  intros Hact Hok Hne Hrecs Hnd Hfresh. cbv zeta.
  destruct l as [|x0 l0]; [congruence|].
  destruct (getCurrencies_ok_run st status x0 l0 clock Hact Hok (records_not_nullish _ Hrecs))
    as [Hres Hst].
  rewrite Hres, Hst.
  assert (H : result_of (getCachedCurrencies
                (set_loaded true (set_map (fold_left upsert (x0 :: l0) (mapCurrencies st))
                                          (set_failures 0 st))))
              = Normal (JArr (map_values (mapCurrencies st) ++ x0 :: l0))).
  { change (Normal (JArr (map_values (fold_left upsert (x0 :: l0) (mapCurrencies st))))
            = Normal (JArr (map_values (mapCurrencies st) ++ x0 :: l0))).
    rewrite (fold_upsert_fresh (x0 :: l0) _ Hnd Hfresh).
    unfold map_values. rewrite map_app, map_map. cbn [snd]. now rewrite map_id. }
  split; [exact H|]. intros Hm. rewrite H, Hm. reflexivity.
Qed.

Lemma getCurrencies_then_snapshot_witness :
  let l := [rec_usd 3; rec_eur] in
  let r := getCurrencies (ok_json 200 (JArr l) 0) active_oracle in
  result_of (getCachedCurrencies (state_of r)) = Normal (JArr l).
Proof.
  intros l r.
  assert (Hrecs : Forall (fun x => is_currency x = true) l) by (repeat constructor).
  assert (Hne : l <> []) by discriminate.
  assert (Hnd : NoDup (List.map currency_of l)).
  { constructor; [intros [H|[]]; discriminate H|].
    constructor; [intros []|constructor]. }
  destruct (getCurrencies_then_snapshot active_oracle 200 l 0 eq_refl eq_refl Hne Hrecs Hnd)
    as (H & _); [reflexivity|exact H].
Defined.

Lemma cachedPrice_shape c m : cachedPrice c m = JNum 0 \/ truthy (cachedPrice c m) = true.
Proof.
  unfold cachedPrice, js_or.
  destruct (truthy (match map_get (JStr c) m with
                    | Some v => get_prop_opt v "value"
                    | None => JUndefined
                    end)) eqn:E; auto.
Qed.

(** X11: whenever [getPrice] answers from the cache (the oracle is
    disabled, or the request fails in any of the ways that the [catch]
    block or the status checks handle), what it returns is the number 0
    or a truthy value, never [undefined], [null], [false] or the empty
    string, whatever the cache holds. *)
Theorem degraded_price_is_zero_or_truthy c w st :
  fOracleDisabled st = true \/ price_failure w = true ->
  exists v, result_of (getPrice c w st) = Normal v /\ (v = JNum 0 \/ truthy v = true).
Proof.
  intros H. rewrite (getPrice_failure_cached st c w H).
  eexists. split; [reflexivity|apply cachedPrice_shape].
Qed.

Lemma degraded_price_is_zero_or_truthy_witness :
  exists v,
    result_of (getPrice "usd" network_down
                 (mkOracle [(JStr "usd", JObj [("value", JStr "")])] false 0 false))
    = Normal v /\ (v = JNum 0 \/ truthy v = true).
Proof.
  apply (degraded_price_is_zero_or_truthy "usd" network_down). right. reflexivity.
Defined.

(* ================================================================== *)
(** ** How many requests load makes *)

Lemma fetches_app t1 t2 : fetches (t1 ++ t2) = fetches t1 ++ fetches t2.
Proof. apply filter_app. Qed.

(* ================================================================== *)
(** ** Seeding twice, and a success between failures *)

Lemma ensure_loop_present_noop now codes : forall m,
  (forall c, In c codes -> map_has (JStr c) m = true) ->
  ensure_loop codes now m = m.
Proof.
  induction codes as [|c codes IH]; intros m H; simpl; auto.
  rewrite (H c) by now left. cbn [negb]. apply IH. intros c' Hc'. apply H. now right.
Qed.

(** X16: [#ensureFallbackCurrencies] is idempotent: run again, at
    whatever later time, it changes nothing, so the records it seeded
    keep the timestamp of the first seeding; and on a cache that
    already has the four codes it changes nothing at all. *)
Theorem ensureFallbackCurrencies_idempotent w1 w2 st :
  state_of (ensureFallbackCurrencies w2 (state_of (ensureFallbackCurrencies w1 st)))
  = state_of (ensureFallbackCurrencies w1 st) /\
  ((forall c, In c FALLBACK_CURRENCIES -> map_has (JStr c) (mapCurrencies st) = true) ->
   state_of (ensureFallbackCurrencies w1 st) = st).
Proof.
  unfold ensureFallbackCurrencies, modify, state_of. cbn [fst snd mapCurrencies set_map].
  split.
  - rewrite (ensure_loop_present_noop (clock_ms w2 / 1000) FALLBACK_CURRENCIES
               (ensure_loop FALLBACK_CURRENCIES (clock_ms w1 / 1000) (mapCurrencies st)));
      [reflexivity|].
    intros c Hc. now apply ensure_loop_has_all.
  - intros H. rewrite ensure_loop_present_noop by exact H. now destruct st.
Qed.

Lemma ensureFallbackCurrencies_idempotent_witness :
  let st := cOracle (World (Throw (Error "none")) 5000) in
  state_of (ensureFallbackCurrencies (World (Throw (Error "none")) 99000) st) = st.
Proof.
  intros st.
  apply (ensureFallbackCurrencies_idempotent (World (Throw (Error "none")) 99000)
           (World (Throw (Error "none")) 0) st).
  intros c Hc. simpl in Hc. destruct Hc as [<-|[<-|[<-|[<-|[]]]]]; reflexivity.
Defined.

(** X17: the counter counts consecutive failures only: after any
    successful [getPrice] (an OK answer with a body other than [null]),
    whatever the count was, two failed requests in a row leave the
    oracle active, with a count of 2 and the cache as the success left
    it. *)
Theorem success_resets_the_failure_count st c0 w0 c1 w1 c2 w2 :
  fOracleDisabled st = false ->
  price_failure w0 = false ->
  http_failure w1 = true -> http_failure w2 = true ->
  let st0 := state_of (getPrice c0 w0 st) in
  let st2 := state_of (getPrice c2 w2 (state_of (getPrice c1 w1 st0))) in
  nOracleFailures st0 = 0 /\
  fOracleDisabled st2 = false /\ nOracleFailures st2 = 2 /\
  mapCurrencies st2 = mapCurrencies st0.
Proof.
  intros Hact H0 H1 H2. cbv zeta.
  destruct (getPrice_success_value st c0 w0 Hact H0) as (s & v & x & _ & _ & _ & ->).
  set (st0 := stored_state (JStr c0) v st).
  assert (Ha0 : fOracleDisabled st0 = false) by exact Hact.
  rewrite (getPrice_http_failure_state c1 w1 st0 Ha0 H1).
  assert (E1 : failed_state w1 st0 = set_failures 1 st0) by reflexivity.
  rewrite E1.
  assert (Ha1 : fOracleDisabled (set_failures 1 st0) = false) by exact Hact.
  rewrite (getPrice_http_failure_state c2 w2 _ Ha1 H2).
  assert (E2 : failed_state w2 (set_failures 1 st0) = set_failures 2 st0) by reflexivity.
  rewrite E2. cbn. auto.
Qed.

Lemma success_resets_the_failure_count_witness :
  let st := mkOracle [] false 2 false in
  let st0 := state_of (getPrice "usd" (ok_json 200 (rec_usd 4) 0) st) in
  let st2 := state_of (getPrice "eur" (http_error 500)
                         (state_of (getPrice "usd" (http_error 502) st0))) in
  fOracleDisabled st2 = false /\ nOracleFailures st2 = 2.
Proof.
  intros st st0 st2.
  destruct (success_resets_the_failure_count st "usd" (ok_json 200 (rec_usd 4) 0)
              "usd" (http_error 502) "eur" (http_error 500)
              eq_refl eq_refl eq_refl eq_refl) as (_ & H1 & H2 & _).
  split; [exact H1|exact H2].
Defined.

(* ================================================================== *)
(** ** Bodies are not validated *)

Lemma map_get_set_same_key k v m :
  same_value_zero k k = true -> map_get k (map_set k v m) = Some v.
Proof.
  intros Hk. induction m as [|[k' v'] m IH]; simpl.
  - now rewrite Hk.
  - destruct (same_value_zero k' k) eqn:E; simpl; rewrite E; auto.
Qed.

(** X18: [getPrice] takes any OK body other than [null] as the record,
    unchecked: it caches it under the requested code, resets the
    counter and returns its [value] property, [undefined] when there is
    none.  [getCachedPrice] then reads that entry as [value || 0]: the
    two agree exactly when the value is truthy or the number 0. *)
Theorem getPrice_takes_any_body st c status v clock :
  fOracleDisabled st = false ->
  ok (Response status (Normal v)) = true ->
  nullish v = false ->
  let r := getPrice c (ok_json status v clock) st in
  result_of r = Normal (value_of v) /\
  state_of r = stored_state (JStr c) v st /\
  result_of (getCachedPrice c (state_of r)) = Normal (js_or (value_of v) (JNum 0)) /\
  (result_of (getCachedPrice c (state_of r)) = result_of r <->
   truthy (value_of v) = true \/ value_of v = JNum 0).
Proof.
  intros Hact Hok Hv. cbv zeta.
  assert (Hw : price_failure (ok_json status v clock) = false).
  { unfold price_failure, ok_json. cbn [net body]. now rewrite Hok. }
  destruct (getPrice_success_value st c _ Hact Hw) as (s & v' & x & Hnet & Hx & -> & ->).
  unfold ok_json in Hnet. cbn in Hnet. injection Hnet as _ <-.
  assert (Hval : value_of v = x) by (unfold value_of, get_prop_opt; now rewrite Hx).
  rewrite Hval.
  assert (Hc : result_of (getCachedPrice c (stored_state (JStr c) v st))
               = Normal (js_or x (JNum 0))).
  { change (Normal (cachedPrice c (map_set (JStr c) v (mapCurrencies st)))
            = Normal (js_or x (JNum 0))).
    unfold cachedPrice. rewrite map_get_set_same.
    unfold value_of in Hval. now rewrite Hval. }
  split; [reflexivity|]. split; [reflexivity|]. split; [exact Hc|].
  rewrite Hc. unfold js_or. destruct (truthy x) eqn:T.
  - split; auto.
  - split.
    + intros H. right. now injection H as <-.
    + intros [H| ->]; [discriminate|reflexivity].
Qed.

Lemma getPrice_takes_any_body_witness :
  let r := getPrice "usd" (ok_json 200 (JObj [("price", JNum 3)]) 0) active_oracle in
  result_of r = Normal JUndefined /\
  result_of (getCachedPrice "usd" (state_of r)) = Normal (JNum 0).
Proof.
  intros r.
  destruct (getPrice_takes_any_body active_oracle "usd" 200 (JObj [("price", JNum 3)]) 0
              eq_refl eq_refl eq_refl) as (H1 & _ & H3 & _).
  split; [exact H1|exact H3].
Defined.

(** X19: [getCurrencies] takes any non-empty array without [null]
    elements as the list, unchecked: it resets the counter, stores each
    element under its [currency] property ([undefined] when there is
    none), sets [loadedCurrencies] and returns the array; afterwards the
    last element is the entry of its key, whenever that key is a
    primitive value (not an object or an array). *)
Theorem getCurrencies_takes_any_list st status l x clock :
  fOracleDisabled st = false ->
  ok (Response status (Normal (JArr (l ++ [x])))) = true ->
  existsb nullish (l ++ [x]) = false ->
  let r := getCurrencies (ok_json status (JArr (l ++ [x])) clock) st in
  result_of r = Normal (JArr (l ++ [x])) /\
  fLoadedCurrencies (state_of r) = true /\
  nOracleFailures (state_of r) = 0 /\
  mapCurrencies (state_of r) = fold_left upsert (l ++ [x]) (mapCurrencies st) /\
  (same_value_zero (currency_of x) (currency_of x) = true ->
   map_get (currency_of x) (mapCurrencies (state_of r)) = Some x).
Proof.
  intros Hact Hok Hnn. cbv zeta.
  destruct (l ++ [x]) as [|y l'] eqn:El; [destruct l; discriminate El|].
  destruct (getCurrencies_ok_run st status y l' clock Hact Hok Hnn) as [-> ->].
  cbn [fLoadedCurrencies nOracleFailures mapCurrencies set_loaded set_map set_failures].
  repeat split.
  intros Hk. rewrite <- El, fold_left_app. cbn [fold_left].
  unfold upsert at 1. now apply map_get_set_same_key.
Qed.

Lemma getCurrencies_takes_any_list_witness :
  let r := getCurrencies (ok_json 200 (JArr ([JNum 5] ++ [JStr "x"])) 0) active_oracle in
  fLoadedCurrencies (state_of r) = true /\
  mapCurrencies (state_of r) = [(JUndefined, JStr "x")].
Proof.
  intros r.
  destruct (getCurrencies_takes_any_list active_oracle 200 [JNum 5] (JStr "x") 0
              eq_refl eq_refl eq_refl) as (_ & H2 & _ & H4 & _).
  split; [exact H2|exact H4].
Defined.

(* ================================================================== *)
(** ** AsyncInterval: pacing, exit and the error log *)

Module AsyncIntervalMore.
Import AsyncInterval.

Lemma no_resume_pending q t :
  count_resume q = 0%nat -> In t q -> task t = Resume -> False.
Proof.
  unfold count_resume. induction q as [|x q IH]; simpl; [tauto|].
  intros Hc [->|Hin] Ht.
  - unfold is_resume in Hc. rewrite Ht in Hc. discriminate.
  - destruct (is_resume x); [discriminate|auto].
Qed.

Lemma asleep_until_step timeOut D c l s s' :
  asleep_until D c s -> step timeOut l s = Some s' -> asleep_until D c s'.
Proof.
  intros Hs Hstep. pose proof (AsyncIntervalSpec.now_step _ _ _ _ Hstep) as Hnow.
  destruct Hs as [(Hc & Hw & Ht)|Hd]; [|right; lia].
  destruct l as [at_ outcome| |at_ ms]; simpl in Hstep.
  - rewrite Hw in Hstep. discriminate.
  - unfold fire in Hstep. destruct (timers s) as [|t rest] eqn:Hq; [discriminate|].
    injection Hstep as <-. destruct (task t) eqn:Htask.
    + right. pose proof (Ht t (or_introl eq_refl) Htask).
      unfold loop_head. cbn [active now]. destruct (active s); cbn [now]; lia.
    + left. cbn [invocations where_ timers]. repeat split; auto.
      intros x Hx. apply Ht. now right.
  - destruct (now s <=? at_); [|discriminate]. injection Hstep as <-.
    left. unfold clearInterval, setTimeout. cbn [invocations where_ timers].
    repeat split; auto. intros x Hx Hr.
    apply AsyncIntervalSpec.insert_timer_in in Hx as [->|Hx]; [discriminate Hr|auto].
Qed.

Lemma asleep_until_run timeOut D c ls : forall s s',
  asleep_until D c s -> run timeOut ls s = Some s' -> asleep_until D c s'.
Proof.
  induction ls as [|l ls IH]; intros s s' Hs Hrun; simpl in Hrun.
  - now injection Hrun as <-.
  - destruct (step timeOut l s) as [s1|] eqn:Hstep; [|discriminate].
    eapply IH; [|exact Hrun]. eapply asleep_until_step; eauto.
Qed.

(** X13: the delay runs from the moment the callback has settled: once
    a call of [cb] has settled at time [at_], the next call does not
    start before [at_ + timeOut], whatever else happens meanwhile. *)
Theorem next_call_waits_for_the_delay timeOut t0 ls1 s at_ outcome s1 ls2 s2 :
  run timeOut ls1 (create t0) = Some s ->
  step timeOut (Settle at_ outcome) s = Some s1 ->
  run timeOut ls2 s1 = Some s2 ->
  (invocations s1 < invocations s2)%nat ->
  at_ + Z.max 0 timeOut <= now s2.
Proof.
  intros Hrun1 Hstep Hrun2 Hmore.
  assert (Hl : loop_inv s)
    by (eapply AsyncIntervalSpec.loop_inv_run; eauto using AsyncIntervalSpec.loop_inv_create).
  assert (H1 : asleep_until (at_ + Z.max 0 timeOut) (invocations s1) s1).
  { simpl in Hstep. destruct (where_ s) eqn:Hw; try discriminate.
    destruct (now s <=? at_); [|discriminate]. injection Hstep as <-.
    left. unfold after_callback, sleep. cbn [invocations where_ timers].
    repeat split. intros t Hin Ht.
    apply AsyncIntervalSpec.insert_timer_in in Hin as [->|Hin]; [cbn; lia|].
    unfold loop_inv in Hl. rewrite Hw in Hl.
    destruct (no_resume_pending _ t Hl Hin Ht). }
  destruct (asleep_until_run timeOut _ _ ls2 s1 s2 H1 Hrun2) as [(Hc & _)|Hd]; [lia|exact Hd].
Qed.

Lemma next_call_waits_for_the_delay_witness :
  match run 1000 [Settle 250 (Normal tt); Clear 300 5000; Fire] (create 0) with
  | Some s2 => invocations s2 = 2%nat /\ 250 + Z.max 0 1000 <= now s2
  | None => False
  end.
Proof.
  destruct (run 1000 [Settle 250 (Normal tt); Clear 300 5000; Fire] (create 0))
    as [s2|] eqn:H; [|discriminate H].
  split; [injection H as <-; reflexivity|].
  apply (next_call_waits_for_the_delay 1000 0 [] (create 0) 250 (Normal tt)
           (after_callback 1000 250 (Normal tt) (create 0)) [Clear 300 5000; Fire] s2);
    try reflexivity.
  - exact H.
  - injection H as <-. cbn. lia.
Defined.

Lemma inactive_step timeOut l s s' :
  active s = false -> step timeOut l s = Some s' ->
  active s' = false /\ invocations s' = invocations s.
Proof.
  intros Ha Hstep. destruct l as [at_ outcome| |at_ ms]; simpl in Hstep.
  - destruct (where_ s); try discriminate.
    destruct (now s <=? at_); [|discriminate]. injection Hstep as <-. auto.
  - unfold fire in Hstep. destruct (timers s) as [|t rest]; [discriminate|].
    injection Hstep as <-. destruct (task t); [unfold loop_head; cbn [active]; rewrite Ha|];
      cbn; auto.
  - destruct (now s <=? at_); [|discriminate]. injection Hstep as <-. auto.
Qed.

Lemma exited_step timeOut l s s' :
  loop_inv s -> where_ s = Exited -> step timeOut l s = Some s' -> where_ s' = Exited.
Proof.
  unfold loop_inv. intros Hl Hw Hstep. rewrite Hw in Hl.
  destruct l as [at_ outcome| |at_ ms]; simpl in Hstep.
  - rewrite Hw in Hstep. discriminate.
  - unfold fire in Hstep. destruct (timers s) as [|t rest] eqn:Hq; [discriminate|].
    injection Hstep as <-. destruct (task t) eqn:Ht; [|exact Hw].
    destruct (no_resume_pending _ t Hl (or_introl eq_refl) Ht).
  - destruct (now s <=? at_); [|discriminate]. injection Hstep as <-. exact Hw.
Qed.

Lemma exit_needs_flag_step timeOut l s s' :
  (where_ s = Exited -> active s = false) -> step timeOut l s = Some s' ->
  where_ s' = Exited -> active s' = false.
Proof.
  intros Hs Hstep. destruct l as [at_ outcome| |at_ ms]; simpl in Hstep.
  - destruct (where_ s); try discriminate.
    destruct (now s <=? at_); [|discriminate]. injection Hstep as <-. discriminate.
  - unfold fire in Hstep. destruct (timers s) as [|t rest]; [discriminate|].
    injection Hstep as <-. destruct (task t); [|auto].
    unfold loop_head. cbn [active]. destruct (active s); cbn; [discriminate|auto].
  - destruct (now s <=? at_); [|discriminate]. injection Hstep as <-. exact Hs.
Qed.

(** X14: the flag is one-way and the exit is final.  Once [#active] is
    false it stays false and [cb] is never called again; the loop
    leaves its [while] only with the flag down; and once it has left,
    no later event brings it back. *)
Theorem cancellation_is_final timeOut t0 :
  (forall ls s s', active s = false -> run timeOut ls s = Some s' ->
     active s' = false /\ invocations s' = invocations s) /\
  (forall ls s, run timeOut ls (create t0) = Some s ->
     where_ s = Exited -> active s = false) /\
  (forall ls1 s ls2 s', run timeOut ls1 (create t0) = Some s ->
     where_ s = Exited -> run timeOut ls2 s = Some s' ->
     where_ s' = Exited /\ invocations s' = invocations s).
Proof.
  assert (Hflag : forall ls s s', active s = false -> run timeOut ls s = Some s' ->
            active s' = false /\ invocations s' = invocations s).
  { induction ls as [|l ls IH]; intros s s' Ha Hrun; simpl in Hrun.
    - injection Hrun as <-. auto.
    - destruct (step timeOut l s) as [s1|] eqn:Hstep; [|discriminate].
      destruct (inactive_step _ _ _ _ Ha Hstep) as [Ha1 Hi1].
      destruct (IH s1 s' Ha1 Hrun) as [Ha' Hi']. split; auto. congruence. }
  assert (Hexit : forall ls s s', (where_ s = Exited -> active s = false) ->
            run timeOut ls s = Some s' -> where_ s' = Exited -> active s' = false).
  { induction ls as [|l ls IH]; intros s s' Hs Hrun; simpl in Hrun.
    - now injection Hrun as <-.
    - destruct (step timeOut l s) as [s1|] eqn:Hstep; [|discriminate].
      apply (IH s1 s'); auto. eapply exit_needs_flag_step; eauto. }
  assert (Hstay : forall ls s s', loop_inv s -> where_ s = Exited ->
            run timeOut ls s = Some s' -> where_ s' = Exited).
  { induction ls as [|l ls IH]; intros s s' Hl Hw Hrun; simpl in Hrun.
    - now injection Hrun as <-.
    - destruct (step timeOut l s) as [s1|] eqn:Hstep; [|discriminate].
      apply (IH s1 s'); auto.
      + eapply AsyncIntervalSpec.loop_inv_step; eauto.
      + eapply exited_step; eauto. }
  split; [exact Hflag|]. split.
  - intros ls s Hrun. apply (Hexit ls (create t0) s); auto. discriminate.
  - intros ls1 s ls2 s' Hrun1 Hw Hrun2. split.
    + apply (Hstay ls2 s s'); auto.
      eapply AsyncIntervalSpec.loop_inv_run; eauto using AsyncIntervalSpec.loop_inv_create.
    + apply (Hflag ls2 s s'); auto.
      apply (Hexit ls1 (create t0) s); auto. discriminate.
Qed.

Lemma cancellation_is_final_witness :
  match run 10 [Clear 0 0; Fire; Settle 1 (Normal tt); Fire] (create 0) with
  | Some s =>
      where_ s = Exited /\
      match run 10 [Clear 50 0; Fire] s with
      | Some s' => where_ s' = Exited /\ invocations s' = invocations s
      | None => False
      end
  | None => False
  end.
Proof.
  destruct (cancellation_is_final 10 0) as (_ & _ & H).
  destruct (run 10 [Clear 0 0; Fire; Settle 1 (Normal tt); Fire] (create 0))
    as [s|] eqn:H1; [|discriminate H1].
  assert (Hw : where_ s = Exited) by (injection H1 as <-; reflexivity).
  split; [exact Hw|].
  destruct (run 10 [Clear 50 0; Fire] s) as [s'|] eqn:H2.
  - exact (H _ s _ s' H1 Hw H2).
  - injection H1 as <-. discriminate H2.
Defined.

Lemma errors_step timeOut l s s' :
  step timeOut l s = Some s' ->
  errors s' = errors s ++ thrown [l] /\ (errors_accounted s -> errors_accounted s').
Proof.
  unfold errors_accounted. intros Hstep.
  destruct l as [at_ outcome| |at_ ms]; simpl in Hstep.
  - destruct (where_ s) eqn:Hw; try discriminate.
    destruct (now s <=? at_); [|discriminate]. injection Hstep as <-.
    destruct outcome as [[]|e]; cbn; rewrite ?app_nil_r, ?length_app; cbn;
      split; auto; lia.
  - unfold fire in Hstep. destruct (timers s) as [|t rest]; [discriminate|].
    injection Hstep as <-.
    destruct (task t); [unfold loop_head; cbn [active]; destruct (active s)|];
      cbn; rewrite app_nil_r; split; auto; destruct (where_ s); lia.
  - destruct (now s <=? at_); [|discriminate]. injection Hstep as <-.
    cbn. rewrite app_nil_r. auto.
Qed.

Lemma thrown_app ls1 ls2 : thrown (ls1 ++ ls2) = thrown ls1 ++ thrown ls2.
Proof.
  induction ls1 as [|l ls1 IH]; simpl; auto.
  destruct l as [a [u|e]| |a m]; simpl; now rewrite ?IH.
Qed.

(** X15: [console.error] receives exactly the errors with which the
    awaited callbacks failed, in the order of the failures, and nothing
    else: a call that settles normally, a timer or a [clearInterval]
    logs nothing; so there are never more logged errors than settled
    calls of [cb]. *)
Theorem error_log_is_the_failures timeOut t0 ls s :
  run timeOut ls (create t0) = Some s ->
  errors s = thrown ls /\
  (List.length (errors s) <= invocations s)%nat.
Proof.
  assert (H : forall ls s0 s', run timeOut ls s0 = Some s' ->
            errors s' = errors s0 ++ thrown ls /\
            (errors_accounted s0 -> errors_accounted s')).
  { clear ls s. induction ls as [|l ls IH]; intros s0 s' Hrun; simpl in Hrun.
    - injection Hrun as <-. cbn. now rewrite app_nil_r.
    - destruct (step timeOut l s0) as [s1|] eqn:Hstep; [|discriminate].
      destruct (errors_step _ _ _ _ Hstep) as [He Ha].
      destruct (IH s1 s' Hrun) as [He' Ha'].
      split; [|auto].
      rewrite He', He, <- app_assoc. f_equal.
      change (l :: ls) with ([l] ++ ls). now rewrite thrown_app. }
  intros Hrun. destruct (H ls (create t0) s Hrun) as [He Ha].
  split; [exact He|].
  assert (Hacc : errors_accounted s) by (apply Ha; unfold errors_accounted; cbn; lia).
  unfold errors_accounted in Hacc. lia.
Qed.

Lemma error_log_is_the_failures_witness :
  match run 5 [Settle 1 (Throw (Error "a")); Fire; Settle 7 (Normal tt); Fire;
               Settle 20 (Throw (Error "b"))] (create 0) with
  | Some s => errors s = [Error "a"; Error "b"]
  | None => False
  end.
Proof.
  destruct (run 5 [Settle 1 (Throw (Error "a")); Fire; Settle 7 (Normal tt); Fire;
                   Settle 20 (Throw (Error "b"))] (create 0)) as [s|] eqn:H;
    [|discriminate H].
  exact (proj1 (error_log_is_the_failures 5 0 _ s H)).
Defined.

End AsyncIntervalMore.

(* ================================================================== *)
(** ** Calls in flight: what each stretch does *)

Lemma finish_normal (m : M jsval) st v st' t :
  m st = (Normal v, st', t) -> finish m st = (Resolved v, st', t).
Proof. intros H. unfold finish. now rewrite H. Qed.

Lemma try_catch_normal {A} (m : M A) h st v st' t :
  m st = (Normal v, st', t) -> try_catch m h st = (Normal v, st', t).
Proof. intros H. unfold try_catch. now rewrite H. Qed.

Lemma getPrice_called_run c st :
  getPrice_called c st =
    if fOracleDisabled st then (Resolved (cachedPrice c (mapCurrencies st)), st, [])
    else (Awaiting (PriceFetch c), st, [Fetch (ORACLE_BASE ++ "/price/" ++ c)%string]).
Proof. unfold getPrice_called. destruct (fOracleDisabled st); reflexivity. Qed.

Lemma getCurrencies_called_run st :
  getCurrencies_called st =
    if fOracleDisabled st then (Resolved (JArr (map_values (mapCurrencies st))), st, [])
    else (Awaiting BulkFetch, st, [Fetch (ORACLE_BASE ++ "/currencies")%string]).
Proof. unfold getCurrencies_called. destruct (fOracleDisabled st); reflexivity. Qed.

Lemma getPrice_fetched_run c w st :
  exists t, forallb is_warn t = true /\
    getPrice_fetched c w st =
      match net w with
      | Normal cReq =>
          if ok cReq then (Awaiting (PriceBody c cReq), st, t)
          else if status cReq =? 404 then
            (Resolved (cachedPrice c (mapCurrencies (disabled_state w st))),
             disabled_state w st, t)
          else
            (Resolved (cachedPrice c (mapCurrencies (failed_state w st))),
             failed_state w st, t)
      | Throw _ =>
          (Resolved (cachedPrice c (mapCurrencies (failed_state w st))),
           failed_state w st, t)
      end.
Proof.
  unfold getPrice_fetched. destruct (net w) as [r|e].
  - destruct (ok r); cbn [negb].
    + exists []. split; reflexivity.
    + destruct (status r =? 404).
      * destruct (disableOracle_state "oracle route not found (404)" w st) as (t & Hd & Hf).
        exists t. split; [exact Hf|].
        apply finish_normal, try_catch_normal, then_cached_price, Hd.
      * destruct (markOracleFailure_state
                    ("HTTP " ++ string_of_Z (status r) ++ " on price")%string w st)
          as (t & Hd & Hf).
        exists t. split; [exact Hf|].
        apply finish_normal, try_catch_normal, then_cached_price, Hd.
  - destruct (getPrice_catch_run c e w st) as (t & Ht & Hf).
    exists t. split; [exact Hf|]. apply finish_normal, Ht.
Qed.

Lemma getPrice_parsed_run c cReq clock st :
  exists t, forallb is_warn t = true /\
    getPrice_parsed c cReq clock st =
      match body cReq with
      | Normal v =>
          match get_prop v "value" with
          | Normal x => (Resolved x, stored_state (JStr c) v st, t)
          | Throw _ =>
              (Resolved (cachedPrice c (mapCurrencies
                 (failed_state (World (Normal cReq) clock) (stored_state (JStr c) v st)))),
               failed_state (World (Normal cReq) clock) (stored_state (JStr c) v st), t)
          end
      | Throw _ =>
          (Resolved (cachedPrice c (mapCurrencies
             (failed_state (World (Normal cReq) clock) st))),
           failed_state (World (Normal cReq) clock) st, t)
      end.
Proof.
  unfold getPrice_parsed. cbv zeta. set (w := World (Normal cReq) clock).
  unfold finish, try_catch, json. destruct (body cReq) as [v|e]; cbn [await].
  - unfold bind at 1. unfold ret at 1. unfold bind at 1. unfold markOracleSuccess, modify at 1.
    unfold bind at 1. unfold modify at 1. cbn [app].
    change (set_map (map_set (JStr c) v (mapCurrencies (set_failures 0 st)))
              (set_failures 0 st)) with (stored_state (JStr c) v st).
    destruct (get_prop v "value") as [x|e]; cbn [await].
    + exists []. split; reflexivity.
    + unfold throw.
      destruct (getPrice_catch_run c e w (stored_state (JStr c) v st)) as (t & Ht & Hf).
      unfold price_handler. rewrite Ht. exists t. split; [exact Hf|reflexivity].
  - unfold bind at 1. unfold throw at 1.
    destruct (getPrice_catch_run c e w st) as (t & Ht & Hf).
    unfold price_handler. rewrite Ht. exists t. split; [exact Hf|reflexivity].
Qed.

Lemma getCurrencies_fetched_run w st :
  exists t, forallb is_warn t = true /\
    getCurrencies_fetched w st =
      match net w with
      | Normal cReq =>
          if ok cReq then (Awaiting (BulkBody cReq), st, t)
          else if status cReq =? 404 then
            (Resolved (JArr (map_values (mapCurrencies (disabled_state w st)))),
             disabled_state w st, t)
          else
            (Resolved (JArr (map_values (mapCurrencies (failed_state w st)))),
             failed_state w st, t)
      | Throw _ =>
          (Resolved (JArr (map_values (mapCurrencies (failed_state w st)))),
           failed_state w st, t)
      end.
Proof.
  unfold getCurrencies_fetched. destruct (net w) as [r|e].
  - destruct (ok r); cbn [negb].
    + exists []. split; reflexivity.
    + destruct (status r =? 404).
      * destruct (disableOracle_state "oracle route not found (404)" w st) as (t & Hd & Hf).
        exists t. split; [exact Hf|].
        apply finish_normal, try_catch_normal, then_cached_list, Hd.
      * destruct (markOracleFailure_state
                    ("HTTP " ++ string_of_Z (status r) ++ " on currencies")%string w st)
          as (t & Hd & Hf).
        exists t. split; [exact Hf|].
        apply finish_normal, try_catch_normal, then_cached_list, Hd.
  - destruct (getCurrencies_catch_run e w st) as (t & Ht & Hf).
    exists t. split; [exact Hf|]. apply finish_normal, Ht.
Qed.

Lemma getCurrencies_parsed_run cReq clock st :
  exists t, forallb is_warn t = true /\
    getCurrencies_parsed cReq clock st =
      match body cReq with
      | Normal (JArr (x :: l)) =>
          match upsert_all (x :: l) (mapCurrencies st) with
          | (m, None) =>
              (Resolved (JArr (x :: l)), set_loaded true (set_map m (set_failures 0 st)), t)
          | (m, Some _) =>
              (Resolved (JArr (map_values (mapCurrencies
                 (failed_state (World (Normal cReq) clock)
                    (set_map m (set_failures 0 st)))))),
               failed_state (World (Normal cReq) clock) (set_map m (set_failures 0 st)), t)
          end
      | _ =>
          (Resolved (JArr (map_values (mapCurrencies
             (failed_state (World (Normal cReq) clock) st)))),
           failed_state (World (Normal cReq) clock) st, t)
      end.
Proof.
  unfold getCurrencies_parsed. cbv zeta. set (w := World (Normal cReq) clock).
  unfold finish, try_catch, json. destruct (body cReq) as [v|e]; cbn [await].
  - unfold bind at 1. unfold ret at 1. cbn [app].
    destruct v as [| | | | |[|x l]|];
      try (destruct (getCurrencies_invalid_run w st) as (t & Ht & Hf);
           rewrite Ht; exists t; split; [exact Hf|reflexivity]).
    unfold bind at 1. unfold markOracleSuccess, modify at 1.
    unfold bind at 1. rewrite upsert_loop_run.
    cbn [mapCurrencies set_failures].
    destruct (upsert_all (x :: l) (mapCurrencies st)) as [m [e|]] eqn:Hup; cbn [fst snd].
    + destruct (getCurrencies_catch_run e w (set_map m (set_failures 0 st)))
        as (t & Ht & Hf).
      cbn [app]. unfold currencies_handler. rewrite Ht.
      exists t. split; [exact Hf|reflexivity].
    + unfold bind, modify, ret. cbn. exists []. split; reflexivity.
  - unfold bind at 1. unfold throw at 1.
    destruct (getCurrencies_catch_run e w st) as (t & Ht & Hf).
    unfold currencies_handler. rewrite Ht. exists t. split; [exact Hf|reflexivity].
Qed.

(* ------------------------------------------------------------------ *)
(** *** The task table *)

Lemma replace_nth_length {A} n (x : A) l : List.length (replace_nth n x l) = List.length l.
Proof.
  revert n. induction l as [|y l IH]; intros [|n]; simpl; auto.
Qed.

Lemma replace_nth_same {A} n (x y : A) l :
  nth_error l n = Some y -> nth_error (replace_nth n x l) n = Some x.
Proof.
  revert n. induction l as [|z l IH]; intros [|n]; simpl; try discriminate; auto.
Qed.

Lemma replace_nth_other {A} n m (x : A) l :
  n <> m -> nth_error (replace_nth n x l) m = nth_error l m.
Proof.
  revert n m. induction l as [|z l IH]; intros [|n] [|m] H; simpl; auto;
    try congruence.
Qed.

Lemma replace_nth_Forall {A} (P : A -> Prop) n x l :
  P x -> Forall P l -> Forall P (replace_nth n x l).
Proof.
  intros Hx Hl. revert n. induction Hl as [|y l Hy Hl IH]; intros [|n]; simpl; auto.
Qed.

Lemma resume_run n (k : stretch task) s x st' t :
  k (oracle s) = (x, st', t) ->
  resume n k s = System st' (replace_nth n x (tasks s)) (effects s ++ t).
Proof. intros H. unfold resume. now rewrite H. Qed.

Lemma resume_at n (k : stretch task) st ts eff x st' t :
  k st = (x, st', t) ->
  resume n k (System st ts eff) = System st' (replace_nth n x ts) (eff ++ t).
Proof. intros H. unfold resume. cbn [oracle tasks effects]. now rewrite H. Qed.

Lemma spawn_run (k : stretch task) s x st' t :
  k (oracle s) = (x, st', t) ->
  spawn k s = System st' (tasks s ++ [x]) (effects s ++ t).
Proof. intros H. unfold spawn. now rewrite H. Qed.

Lemma as_call_run (k : stretch promise) st p st' t :
  k st = (p, st', t) -> as_call k st = (Called p, st', t).
Proof. intros H. unfold as_call. now rewrite H. Qed.

Lemma as_load_run (k : stretch promise) st p st' t :
  k st = (p, st', t) -> as_load k st = (Loading p, st', t).
Proof. intros H. unfold as_load. now rewrite H. Qed.

Lemma load_head_run st :
  load_head st =
    if fLoadedCurrencies st then
      (Loaded, st, [Emit "currency-loaded" (Some (mapCurrencies st)); Emit "price-update" None])
    else if fOracleDisabled st then
      (Loading (Resolved (JArr (map_values (mapCurrencies st)))), st, [])
    else (Loading (Awaiting BulkFetch), st, [Fetch (ORACLE_BASE ++ "/currencies")%string]).
Proof.
  unfold load_head. destruct (fLoadedCurrencies st); [reflexivity|].
  rewrite getCurrencies_called_run. destruct (fOracleDisabled st); reflexivity.
Qed.

(** What a tick does, read off the task that it resumes: the stretch
    that runs, and the task that it leaves in place. *)
Lemma advance_resumes k s s' n :
  advance k s = Some s' -> tick_task k = Some n ->
  exists x0 (run_ : stretch task),
    nth_error (tasks s) n = Some x0 /\
    s' = resume n run_ s /\
    match k, x0 with
    | Fetched _ w, Called (Awaiting f) =>
        exists k', fetched f w = Some k' /\ run_ = as_call k'
    | Fetched _ w, Loading (Awaiting f) =>
        exists k', fetched f w = Some k' /\ run_ = as_load k'
    | Parsed _ clock, Called (Awaiting f) =>
        exists k', parsed f clock = Some k' /\ run_ = as_call k'
    | Parsed _ clock, Loading (Awaiting f) =>
        exists k', parsed f clock = Some k' /\ run_ = as_load k'
    | Returned _, Loading p => load_returned p = Some run_
    | Woke _, Dozing => run_ = load_head
    | _, _ => False
    end.
Proof.
  intros Hadv Hn.
  destruct k as [m|n' w|n' clock|n'|n']; cbn [tick_task] in Hn; try discriminate;
    injection Hn as ->; cbn [advance] in Hadv;
    destruct (nth_error (tasks s) n) as [x0|] eqn:Hx; try discriminate.
  - destruct x0 as [[f| |]|[f| |]| | |]; try discriminate;
      destruct (fetched f w) as [k'|] eqn:Hk; try discriminate;
      injection Hadv as <-; eexists _, _; (split; [reflexivity|]); (split; [reflexivity|]);
      exists k'; auto.
  - destruct x0 as [[f| |]|[f| |]| | |]; try discriminate;
      destruct (parsed f clock) as [k'|] eqn:Hk; try discriminate;
      injection Hadv as <-; eexists _, _; (split; [reflexivity|]); (split; [reflexivity|]);
      exists k'; auto.
  - destruct x0 as [|p| | |]; try discriminate.
    destruct (load_returned p) as [k'|] eqn:Hk; try discriminate.
    injection Hadv as <-. eexists _, _. split; [reflexivity|]. split; [reflexivity|]. exact Hk.
  - destruct x0; try discriminate. injection Hadv as <-.
    eexists _, _. split; [reflexivity|]. split; reflexivity.
Qed.

(* ------------------------------------------------------------------ *)
(** *** No stretch rejects *)

Lemma fetched_settles_well f w k st : fetched f w = Some k -> settles_well (k st).
Proof.
  destruct f as [c|c r| |r]; cbn [fetched]; intros [= <-].
  - destruct (getPrice_fetched_run c w st) as (t & Ht & ->).
    destruct (net w) as [r|e]; [destruct (ok r); [|destruct (status r =? 404)]|];
      split; auto; discriminate.
  - destruct (getCurrencies_fetched_run w st) as (t & Ht & ->).
    destruct (net w) as [r|e]; [destruct (ok r); [|destruct (status r =? 404)]|];
      split; auto; discriminate.
Qed.

Lemma parsed_settles_well f clock k st : parsed f clock = Some k -> settles_well (k st).
Proof.
  destruct f as [c|c r| |r]; cbn [parsed]; intros [= <-].
  - destruct (getPrice_parsed_run c r clock st) as (t & Ht & ->).
    destruct (body r) as [v|e]; [destruct (get_prop v "value")|]; split; auto; discriminate.
  - destruct (getCurrencies_parsed_run r clock st) as (t & Ht & ->).
    destruct (body r) as [v|e]; [|split; auto; discriminate].
    destruct v as [| | | | |[|x l]|]; try (split; auto; discriminate).
    destruct (upsert_all (x :: l) (mapCurrencies st)) as [m [e|]]; split; auto; discriminate.
Qed.

Lemma start_not_rejected m st : task_rejected (fst (fst (start m st))) = false.
Proof.
  destruct m as [c| |]; cbn [start].
  - unfold as_call. rewrite getPrice_called_run. now destruct (fOracleDisabled st).
  - unfold as_call. rewrite getCurrencies_called_run. now destruct (fOracleDisabled st).
  - rewrite load_head_run.
    destruct (fLoadedCurrencies st); [reflexivity|]. now destruct (fOracleDisabled st).
Qed.

Lemma promise_not_rejected p :
  (forall e, p <> Rejected e) ->
  task_rejected (Called p) = false /\ task_rejected (Loading p) = false.
Proof. destruct p; auto. intros H. destruct (H e eq_refl). Qed.

Lemma no_rejection_advance k s s' :
  Forall (fun x => task_rejected x = false) (tasks s) ->
  advance k s = Some s' ->
  Forall (fun x => task_rejected x = false) (tasks s').
Proof.
  intros Hs Hadv. destruct (tick_task k) as [n|] eqn:Hn.
  - destruct (advance_resumes k s s' n Hadv Hn) as (x0 & run_ & Hx0 & -> & Hrun).
    unfold resume. destruct (run_ (oracle s)) as [[x st'] t] eqn:Hr. cbn [tasks].
    apply replace_nth_Forall; [|exact Hs].
    assert (Hx0ok : task_rejected x0 = false).
    { rewrite Forall_forall in Hs. apply Hs. eapply nth_error_In; eauto. }
    destruct k as [m|n' w|n' clock|n'|n']; try discriminate.
    + destruct x0 as [[f| |]|[f| |]| | |]; try contradiction;
        destruct Hrun as (k' & Hk' & ->);
        pose proof (fetched_settles_well f w k' (oracle s) Hk') as [Hp _];
        [unfold as_call in Hr|unfold as_load in Hr];
        destruct (k' (oracle s)) as [[p st1] t1]; injection Hr as <- _ _;
        now apply promise_not_rejected.
    + destruct x0 as [[f| |]|[f| |]| | |]; try contradiction;
        destruct Hrun as (k' & Hk' & ->);
        pose proof (parsed_settles_well f clock k' (oracle s) Hk') as [Hp _];
        [unfold as_call in Hr|unfold as_load in Hr];
        destruct (k' (oracle s)) as [[p st1] t1]; injection Hr as <- _ _;
        now apply promise_not_rejected.
    + destruct x0 as [|p| | |]; try contradiction.
      destruct p as [f|v|e]; cbn [load_returned] in Hrun; try discriminate.
      injection Hrun as <-.
      destruct (negb (fLoadedCurrencies (oracle s))).
      * injection Hr as <- _ _. reflexivity.
      * pose proof (start_not_rejected MLoad (oracle s)) as H. cbn [start] in H.
        now rewrite Hr in H.
    + destruct x0; try contradiction. subst run_.
      pose proof (start_not_rejected MLoad (oracle s)) as H. cbn [start] in H.
      now rewrite Hr in H.
  - destruct k as [m| | | |]; try discriminate. cbn [advance] in Hadv.
    injection Hadv as <-. unfold spawn.
    pose proof (start_not_rejected m (oracle s)) as H.
    destruct (start m (oracle s)) as [[x st'] t]. cbn [tasks].
    apply Forall_app. split; [exact Hs|]. constructor; [exact H|constructor].
Qed.

Lemma no_rejection_play ks : forall s s',
  Forall (fun x => task_rejected x = false) (tasks s) ->
  play ks s = Some s' ->
  Forall (fun x => task_rejected x = false) (tasks s').
Proof.
  induction ks as [|k ks IH]; intros s s' Hs Hplay; simpl in Hplay.
  - now injection Hplay as <-.
  - destruct (advance k s) as [s1|] eqn:Hadv; [|discriminate].
    eapply IH; [|exact Hplay]. eapply no_rejection_advance; eauto.
Qed.

(* ------------------------------------------------------------------ *)
(** *** What is kept from stretch to stretch *)

Section AcrossStretches.
Variable R : Oracle -> Oracle -> Prop.
Hypothesis R_refl : forall st, R st st.
Hypothesis R_trans : forall a b c, R a b -> R b c -> R a c.
Hypothesis R_failed : forall w st, R st (failed_state w st).
Hypothesis R_disabled : forall w st, R st (disabled_state w st).
Hypothesis R_stored : forall k v st, R st (stored_state k v st).
Hypothesis R_upserted : forall l m o st,
  upsert_all l (mapCurrencies st) = (m, o) -> R st (set_map m (set_failures 0 st)).
Hypothesis R_loaded : forall st, R st (set_loaded true st).

Lemma across_fetched f w k st : fetched f w = Some k -> R st (snd (fst (k st))).
Proof.
  destruct f as [c|c r| |r]; cbn [fetched]; intros [= <-].
  - destruct (getPrice_fetched_run c w st) as (t & _ & ->).
    destruct (net w) as [r|e]; [destruct (ok r); [|destruct (status r =? 404)]|];
      cbn [fst snd]; auto.
  - destruct (getCurrencies_fetched_run w st) as (t & _ & ->).
    destruct (net w) as [r|e]; [destruct (ok r); [|destruct (status r =? 404)]|];
      cbn [fst snd]; auto.
Qed.

Lemma across_parsed f clock k st : parsed f clock = Some k -> R st (snd (fst (k st))).
Proof.
  destruct f as [c|c r| |r]; cbn [parsed]; intros [= <-].
  - destruct (getPrice_parsed_run c r clock st) as (t & _ & ->).
    destruct (body r) as [v|e]; [destruct (get_prop v "value")|]; cbn [fst snd]; eauto.
  - destruct (getCurrencies_parsed_run r clock st) as (t & _ & ->).
    destruct (body r) as [v|e]; [|cbn [fst snd]; auto].
    destruct v as [| | | | |[|x l]|]; cbn [fst snd]; auto.
    destruct (upsert_all (x :: l) (mapCurrencies st)) as [m [e|]] eqn:Hup;
      cbn [fst snd]; eauto.
Qed.

Lemma across_start m st : snd (fst (start m st)) = st.
Proof.
  destruct m as [c| |]; cbn [start].
  - unfold as_call. rewrite getPrice_called_run. now destruct (fOracleDisabled st).
  - unfold as_call. rewrite getCurrencies_called_run. now destruct (fOracleDisabled st).
  - rewrite load_head_run.
    destruct (fLoadedCurrencies st); [reflexivity|]. now destruct (fOracleDisabled st).
Qed.

Lemma across_advance k s s' : advance k s = Some s' -> R (oracle s) (oracle s').
Proof.
  intros Hadv. destruct (tick_task k) as [n|] eqn:Hn.
  - destruct (advance_resumes k s s' n Hadv Hn) as (x0 & run_ & Hx0 & -> & Hrun).
    unfold resume. destruct (run_ (oracle s)) as [[x st'] t] eqn:Hr. cbn [oracle].
    destruct k as [m|n' w|n' clock|n'|n']; try discriminate.
    + destruct x0 as [[f| |]|[f| |]| | |]; try contradiction;
        destruct Hrun as (k' & Hk' & ->);
        pose proof (across_fetched f w k' (oracle s) Hk') as H;
        [unfold as_call in Hr|unfold as_load in Hr];
        destruct (k' (oracle s)) as [[p st1] t1]; injection Hr as _ <- _; exact H.
    + destruct x0 as [[f| |]|[f| |]| | |]; try contradiction;
        destruct Hrun as (k' & Hk' & ->);
        pose proof (across_parsed f clock k' (oracle s) Hk') as H;
        [unfold as_call in Hr|unfold as_load in Hr];
        destruct (k' (oracle s)) as [[p st1] t1]; injection Hr as _ <- _; exact H.
    + destruct x0 as [|p| | |]; try contradiction.
      destruct p as [f|v|e]; cbn [load_returned] in Hrun; try discriminate;
        injection Hrun as <-.
      * destruct (negb (fLoadedCurrencies (oracle s))).
        -- injection Hr as _ <- _. auto.
        -- pose proof (across_start MLoad (oracle s)) as H. cbn [start] in H.
           rewrite Hr in H. cbn [fst snd] in H. subst st'. auto.
      * injection Hr as _ <- _. auto.
    + destruct x0; try contradiction. subst run_.
      pose proof (across_start MLoad (oracle s)) as H. cbn [start] in H.
      rewrite Hr in H. cbn [fst snd] in H. subst st'. auto.
  - destruct k as [m| | | |]; try discriminate. cbn [advance] in Hadv.
    injection Hadv as <-. unfold spawn.
    pose proof (across_start m (oracle s)) as H.
    destruct (start m (oracle s)) as [[x st'] t]. cbn [fst snd oracle] in *. subst st'. auto.
Qed.

Lemma across_play ks : forall s s', play ks s = Some s' -> R (oracle s) (oracle s').
Proof.
  induction ks as [|k ks IH]; intros s s' Hplay; simpl in Hplay.
  - injection Hplay as <-. auto.
  - destruct (advance k s) as [s1|] eqn:Hadv; [|discriminate].
    eapply R_trans; [eapply across_advance; eauto|eauto].
Qed.
End AcrossStretches.

(* ------------------------------------------------------------------ *)
(** *** The instance stays sound *)

Lemma sound_new enabled w : oracle_sound (Oracle_new enabled w).
Proof.
  destruct enabled; unfold oracle_sound; cbn.
  - split; [lia|]. split; [reflexivity|discriminate].
  - split; [lia|]. split; [discriminate|]. intros _. split; [reflexivity|].
    intros c Hc. now apply (ensure_loop_has_all (clock_ms w / 1000) c []).
Qed.

Lemma sound_disabled w st : oracle_sound st -> oracle_sound (disabled_state w st).
Proof.
  intros H. unfold disabled_state.
  destruct (fOracleDisabled st) eqn:E; [exact H|].
  destruct H as (H0 & _ & _). unfold oracle_sound. cbn. split; [exact H0|]. split; [discriminate|]. intros _. split; [reflexivity|].
  intros c Hc. now apply ensure_loop_has_all.
Qed.

Lemma sound_failed w st : oracle_sound st -> oracle_sound (failed_state w st).
Proof.
  intros (H0 & Ha & Hd).
  assert (H1 : oracle_sound (set_failures (nOracleFailures st + 1) st) \/
               (fOracleDisabled st = false /\
                ORACLE_RETRY_LIMIT <= nOracleFailures st + 1)).
  { destruct (fOracleDisabled st) eqn:E.
    - left. unfold oracle_sound. cbn. rewrite E.
      split; [lia|]. split; [discriminate|]. intros _. now apply Hd.
    - destruct (Z_lt_le_dec (nOracleFailures st + 1) ORACLE_RETRY_LIMIT) as [Hlt|Hge].
      + left. unfold oracle_sound. cbn. rewrite E.
        split; [lia|]. split; [auto|discriminate].
      + right. auto. }
  destruct H1 as [H1|[E Hge]].
  - unfold failed_state. cbv zeta. destruct (_ >=? _); [now apply sound_disabled|exact H1].
  - rewrite (failed_state_limit w st E Hge). unfold oracle_sound. cbn.
    split; [lia|]. split; [discriminate|]. intros _. split; [reflexivity|].
    intros c Hc. now apply ensure_loop_has_all.
Qed.

Lemma sound_reset m b st :
  keys_extend (mapCurrencies st) m ->
  (fLoadedCurrencies st = true -> b = true) ->
  oracle_sound st -> oracle_sound (mkOracle m b 0 (fOracleDisabled st)).
Proof.
  intros Hk Hb (H0 & Ha & Hd). unfold oracle_sound. cbn. split; [lia|].
  split; [intros _; unfold ORACLE_RETRY_LIMIT; lia|].
  intros E. destruct (Hd E) as [Hl Hf]. split; [auto|].
  intros c Hc. eapply keys_extend_has; eauto.
Qed.

Lemma sound_loaded st : oracle_sound st -> oracle_sound (set_loaded true st).
Proof.
  intros (H0 & Ha & Hd). unfold oracle_sound. cbn. split; [exact H0|]. split; [exact Ha|].
  intros E. split; [reflexivity|]. now apply Hd.
Qed.

Lemma sound_advance k s s' :
  advance k s = Some s' -> oracle_sound (oracle s) -> oracle_sound (oracle s').
Proof.
  apply (across_advance (fun a b => oracle_sound a -> oracle_sound b)).
  - auto.
  - auto.
  - intros w st. apply sound_failed.
  - intros w st. apply sound_disabled.
  - intros k0 v st. apply (sound_reset _ _ st); auto. apply keys_extend_set.
  - intros l m o st Hup. apply (sound_reset _ _ st); auto.
    eapply keys_extend_upsert_all; eauto.
  - intros st. apply sound_loaded.
Qed.

Lemma sound_play ks s s' :
  play ks s = Some s' -> oracle_sound (oracle s) -> oracle_sound (oracle s').
Proof.
  revert s. induction ks as [|k ks IH]; intros s Hplay; simpl in Hplay.
  - now injection Hplay as <-.
  - destruct (advance k s) as [s1|] eqn:Hadv; [|discriminate].
    intros H. apply (IH s1 Hplay). eapply sound_advance; eauto.
Qed.

(* ------------------------------------------------------------------ *)
(** *** [load] alone on the page *)

Lemma warn_only_fetches eff t :
  forallb is_warn t = true -> fetches (eff ++ t) = fetches eff.
Proof.
  intros H. rewrite fetches_app. unfold fetches at 2.
  rewrite (forallb_warn_no_fetch t H). apply app_nil_r.
Qed.

(** A round of the loop is over: the instance is loaded, or the round
    has counted one more failure. *)
Lemma settled_round s v st' t :
  oracle_sound st' -> forallb is_warn t = true ->
  fLoadedCurrencies st' = true \/ nOracleFailures st' = nOracleFailures (oracle s) + 1 ->
  nOracleFailures (oracle s) < ORACLE_RETRY_LIMIT ->
  let s' := System st' [Loading (Resolved v)] (effects s ++ t) in
  load_alone s' /\
  load_budget s' + 1 <= 4 * (ORACLE_RETRY_LIMIT - nOracleFailures (oracle s)) - 1 /\
  Z.of_nat (List.length (fetches (effects s'))) + fetch_budget s'
  <= Z.of_nat (List.length (fetches (effects s)))
     + (ORACLE_RETRY_LIMIT - nOracleFailures (oracle s) - 1).
Proof.
  intros Hsound Ht Hround Hn s'. unfold load_alone, load_budget, fetch_budget, s'.
  cbn [oracle tasks effects]. rewrite (warn_only_fetches _ t Ht).
  unfold ORACLE_RETRY_LIMIT in *.
  split; [split; [exact Hsound|exact I]|].
  destruct (fLoadedCurrencies st') eqn:Hl.
  - split; lia.
  - destruct Hround as [Hround|Hround]; [discriminate|]. rewrite Hround. split; lia.
Qed.

Lemma load_alone_advance k s s' :
  load_alone s -> is_invoke k = false -> null_element_tick k = false ->
  advance k s = Some s' ->
  load_alone s' /\
  load_budget s' + 1 <= load_budget s /\
  Z.of_nat (List.length (fetches (effects s'))) + fetch_budget s'
  <= Z.of_nat (List.length (fetches (effects s))) + fetch_budget s.
Proof.
  intros (Hsound & Hshape) Hinv Hnull Hadv.
  destruct s as [st ts eff]. cbn [oracle tasks effects] in *.
  destruct ts as [|x [|y ts]]; try contradiction;
    [|destruct x as [[[]| |]|[[]| |]| | |]; contradiction].
  pose proof Hsound as (H0 & Ha & Hd).
  destruct k as [m|n w|n clock|n|n]; try discriminate;
    (destruct n as [|n]; [|destruct n; discriminate Hadv]);
    cbn [advance tasks nth_error] in Hadv.
  - (* the fetch settles *)
    destruct x as [[f| |]|[f| |]| | |]; try discriminate; try contradiction.
    destruct f as [c|c r| |r]; try discriminate; try contradiction.
    cbn [fetched option_map] in Hadv. injection Hadv as <-.
    specialize (Ha Hshape).
    destruct (getCurrencies_fetched_run w st) as (t & Ht & Hrun).
    cbn [null_element_tick] in Hnull. unfold null_element_answer in Hnull.
    destruct (net w) as [r|e] eqn:Hnet.
    + destruct (ok r) eqn:Hok.
      * rewrite (resume_at 0 _ _ _ _ _ _ _ (as_load_run _ _ _ _ _ Hrun)).
        cbn [oracle tasks effects replace_nth andb] in *.
        unfold load_alone, load_budget, fetch_budget. cbn [oracle tasks effects].
        rewrite (warn_only_fetches _ t Ht).
        split; [split; [exact Hsound|split; [exact Hshape|exact Hnull]]|]. split; lia.
      * destruct (status r =? 404);
          rewrite (resume_at 0 _ _ _ _ _ _ _ (as_load_run _ _ _ _ _ Hrun));
          cbn [oracle tasks effects replace_nth].
        -- destruct (settled_round (System st [Loading (Awaiting BulkFetch)] eff)
                       (JArr (map_values (mapCurrencies (disabled_state w st))))
                       (disabled_state w st) t) as (H1 & H2 & H3); auto.
           ++ now apply sound_disabled.
           ++ left. now apply disabled_state_flags.
           ++ unfold load_budget, fetch_budget in *. cbn [oracle tasks effects] in *.
              split; [exact H1|]. split; lia.
        -- destruct (settled_round (System st [Loading (Awaiting BulkFetch)] eff)
                       (JArr (map_values (mapCurrencies (failed_state w st))))
                       (failed_state w st) t) as (H1 & H2 & H3); auto.
           ++ now apply sound_failed.
           ++ right. apply failed_state_count.
           ++ unfold load_budget, fetch_budget in *. cbn [oracle tasks effects] in *.
              split; [exact H1|]. split; lia.
    + rewrite (resume_at 0 _ _ _ _ _ _ _ (as_load_run _ _ _ _ _ Hrun)).
      cbn [oracle tasks effects replace_nth].
      destruct (settled_round (System st [Loading (Awaiting BulkFetch)] eff)
                  (JArr (map_values (mapCurrencies (failed_state w st))))
                  (failed_state w st) t) as (H1 & H2 & H3); auto.
      * now apply sound_failed.
      * right. apply failed_state_count.
      * unfold load_budget, fetch_budget in *. cbn [oracle tasks effects] in *.
        split; [exact H1|]. split; lia.
  - (* the body is parsed *)
    destruct x as [[f| |]|[f| |]| | |]; try discriminate; try contradiction.
    destruct f as [c|c r| |r]; try discriminate; try contradiction.
    cbn [parsed option_map] in Hadv. injection Hadv as <-.
    destruct Hshape as [Hact Hbody]. specialize (Ha Hact).
    destruct (getCurrencies_parsed_run r clock st) as (t & Ht & Hrun).
    set (w := World (Normal r) clock) in *.
    assert (Hfail : forall v,
              let s1 := System (failed_state w st) [Loading (Resolved v)] (eff ++ t) in
              load_alone s1 /\
              load_budget s1 + 1 <= load_budget (System st [Loading (Awaiting (BulkBody r))] eff) /\
              Z.of_nat (List.length (fetches (effects s1))) + fetch_budget s1
              <= Z.of_nat (List.length (fetches eff))
                 + fetch_budget (System st [Loading (Awaiting (BulkBody r))] eff)).
    { intros v.
      destruct (settled_round (System st [Loading (Awaiting (BulkBody r))] eff)
                  v (failed_state w st) t) as (H1 & H2 & H3); auto.
      - now apply sound_failed.
      - right. apply failed_state_count. }
    unfold null_element_body in Hbody.
    destruct (body r) as [v|e];
      [|rewrite (resume_at 0 _ _ _ _ _ _ _ (as_load_run _ _ _ _ _ Hrun)); apply Hfail].
    destruct v as [| | | | |[|x l]|];
      try (rewrite (resume_at 0 _ _ _ _ _ _ _ (as_load_run _ _ _ _ _ Hrun)); apply Hfail).
    destruct (upsert_all (x :: l) (mapCurrencies st)) as [m [e|]] eqn:Hup.
    + apply upsert_all_error in Hup. congruence.
    + rewrite (resume_at 0 _ _ _ _ _ _ _ (as_load_run _ _ _ _ _ Hrun)).
      cbn [replace_nth].
      destruct (settled_round (System st [Loading (Awaiting (BulkBody r))] eff)
                  (JArr (x :: l)) (set_loaded true (set_map m (set_failures 0 st))) t)
        as (H1 & H2 & H3); auto.
      apply sound_loaded. apply (sound_reset _ _ st); auto.
      eapply keys_extend_upsert_all; eauto.
  - (* the awaited call has returned *)
    destruct x as [|p| | |]; try discriminate.
    destruct p as [f|v|e]; cbn [load_returned option_map] in Hadv; try discriminate;
      try contradiction.
    injection Hadv as <-. unfold resume. cbn [oracle tasks effects].
    destruct (fLoadedCurrencies st) eqn:Hl; cbn [negb].
    + rewrite load_head_run, Hl. cbn [replace_nth].
      unfold load_alone, load_budget, fetch_budget. cbn [oracle tasks effects].
      rewrite Hl, fetches_app. cbn. rewrite app_nil_r.
      split; [split; [exact Hsound|exact I]|]. split; lia.
    + cbn [replace_nth]. unfold load_alone, load_budget, fetch_budget.
      cbn [oracle tasks effects]. rewrite Hl, fetches_app. cbn. rewrite app_nil_r.
      split; [split; [exact Hsound|exact I]|]. split; lia.
  - (* the sleep is over *)
    destruct x; try discriminate. injection Hadv as <-.
    unfold resume. cbn [oracle tasks effects]. rewrite load_head_run.
    destruct (fLoadedCurrencies st) eqn:Hl.
    + cbn [replace_nth]. unfold load_alone, load_budget, fetch_budget.
      cbn [oracle tasks effects]. rewrite Hl, fetches_app. cbn. rewrite app_nil_r.
      split; [split; [exact Hsound|exact I]|]. split; lia.
    + destruct (fOracleDisabled st) eqn:Hact.
      * destruct (Hd eq_refl) as [Hl' _]. congruence.
      * cbn [replace_nth]. unfold load_alone, load_budget, fetch_budget.
        cbn [oracle tasks effects]. rewrite Hl, fetches_app, length_app. cbn.
        split; [split; [exact Hsound|exact Hact]|]. split; lia.
Qed.

Lemma load_alone_play ks : forall s s',
  load_alone s ->
  forallb (fun k => negb (is_invoke k) && negb (null_element_tick k)) ks = true ->
  play ks s = Some s' ->
  load_alone s' /\
  Z.of_nat (List.length ks) + load_budget s' <= load_budget s /\
  Z.of_nat (List.length (fetches (effects s'))) + fetch_budget s'
  <= Z.of_nat (List.length (fetches (effects s))) + fetch_budget s.
Proof.
  induction ks as [|k ks IH]; intros s s' Hs Hks Hplay; simpl in Hplay.
  - injection Hplay as <-. split; [exact Hs|]. cbn [List.length]. split; lia.
  - destruct (advance k s) as [s1|] eqn:Hadv; [|discriminate].
    cbn [forallb] in Hks. apply andb_prop in Hks as [Hk Hks].
    apply andb_prop in Hk as [Hk1 Hk2]. apply negb_true_iff in Hk1, Hk2.
    destruct (load_alone_advance k s s1 Hs Hk1 Hk2 Hadv) as (H1 & H2 & H3).
    destruct (IH s1 s' H1 Hks Hplay) as (H4 & H5 & H6).
    split; [exact H4|]. cbn [List.length]. split; lia.
Qed.

Lemma load_alone_budgets s : load_alone s -> 0 <= load_budget s /\ 0 <= fetch_budget s.
Proof.
  intros ((H0 & Ha & Hd) & Hshape). unfold load_budget, fetch_budget.
  destruct (tasks s) as [|x [|y ts]]; try contradiction;
    [|destruct x as [[[]| |]|[[]| |]| | |]; contradiction].
  unfold ORACLE_RETRY_LIMIT in *.
  destruct x as [[f| |]|[f| |]| | |]; try contradiction; try (split; lia).
  - destruct f; try contradiction.
    + specialize (Ha Hshape). split; lia.
    + destruct Hshape as [Hact _]. specialize (Ha Hact). split; lia.
  - destruct (fLoadedCurrencies (oracle s)) eqn:Hl; [split; lia|].
    destruct (fOracleDisabled (oracle s)) eqn:Hact.
    + destruct (Hd eq_refl) as [Hl' _]. congruence.
    + specialize (Ha eq_refl). split; lia.
  - destruct (fLoadedCurrencies (oracle s)) eqn:Hl; [split; lia|].
    destruct (fOracleDisabled (oracle s)) eqn:Hact.
    + destruct (Hd eq_refl) as [Hl' _]. congruence.
    + specialize (Ha eq_refl). split; lia.
Qed.

Lemma load_alone_moves_on s : load_alone s -> load_moves_on s.
Proof.
  intros (_ & Hshape). unfold load_moves_on.
  destruct s as [st ts eff]. cbn [tasks] in *.
  destruct ts as [|x [|y ts]]; try contradiction;
    [|destruct x as [[[]| |]|[[]| |]| | |]; contradiction].
  destruct x as [[f| |]|[f| |]| | |]; try contradiction; try exact I;
    try discriminate.
  destruct f; try contradiction; intros; discriminate.
Qed.

(** [load] is called on a page with no call in flight. *)
Lemma load_alone_start st :
  oracle_sound st ->
  exists s0,
    advance (Invoke MLoad) (boot st) = Some s0 /\ load_alone s0 /\
    load_budget s0 <= 4 * ORACLE_RETRY_LIMIT /\
    Z.of_nat (List.length (fetches (effects s0))) + fetch_budget s0
    <= (if fLoadedCurrencies st then 0 else ORACLE_RETRY_LIMIT - nOracleFailures st).
Proof.
  intros Hsound. pose proof Hsound as (H0 & Ha & Hd).
  cbn [advance start]. unfold spawn, boot. cbn [oracle tasks effects].
  rewrite load_head_run. eexists. split; [reflexivity|].
  unfold ORACLE_RETRY_LIMIT in *.
  destruct (fLoadedCurrencies st) eqn:Hl.
  - unfold load_alone, load_budget, fetch_budget. cbn -[Z.mul Z.sub Z.add].
    split; [split; [exact Hsound|exact I]|]. split; unfold ORACLE_RETRY_LIMIT; lia.
  - destruct (fOracleDisabled st) eqn:Hact.
    + destruct (Hd eq_refl) as [Hl' _]. congruence.
    + specialize (Ha eq_refl). unfold load_alone, load_budget, fetch_budget.
      cbn -[Z.mul Z.sub Z.add].
      split; [split; [exact Hsound|exact Hact]|]. split; unfold ORACLE_RETRY_LIMIT; lia.
Qed.

(* ------------------------------------------------------------------ *)
(** *** One call among the others *)

(** A tick leaves the other tasks as they are. *)
Lemma advance_others k s s' n x :
  advance k s = Some s' -> tick_task k <> Some n ->
  nth_error (tasks s) n = Some x -> nth_error (tasks s') n = Some x.
Proof.
  intros Hadv Hk Hx. destruct (tick_task k) as [m|] eqn:Hm.
  - destruct (advance_resumes k s s' m Hadv Hm) as (x0 & run_ & _ & -> & _).
    unfold resume. destruct (run_ (oracle s)) as [[y st'] t]. cbn [tasks].
    rewrite replace_nth_other by congruence. exact Hx.
  - destruct k as [m| | | |]; try discriminate. cbn [advance] in Hadv.
    injection Hadv as <-. unfold spawn.
    destruct (start m (oracle s)) as [[y st'] t]. cbn [tasks].
    rewrite nth_error_app1; [exact Hx|]. apply nth_error_Some. congruence.
Qed.

Lemma nth_error_new {A} (l : list A) x : nth_error (l ++ [x]) (List.length l) = Some x.
Proof. rewrite nth_error_app2 by lia. now rewrite Nat.sub_diag. Qed.

Lemma invoke_getPrice s c :
  exists s',
    advance (Invoke (MGetPrice c)) s = Some s' /\
    oracle s' = oracle s /\
    nth_error (tasks s') (List.length (tasks s)) =
      Some (Called (if fOracleDisabled (oracle s)
                    then Resolved (cachedPrice c (mapCurrencies (oracle s)))
                    else Awaiting (PriceFetch c))) /\
    effects s' = effects s ++
      (if fOracleDisabled (oracle s) then []
       else [Fetch (ORACLE_BASE ++ "/price/" ++ c)%string]).
Proof.
  cbn [advance start]. unfold spawn, as_call. rewrite getPrice_called_run.
  eexists. split; [reflexivity|].
  destruct (fOracleDisabled (oracle s)); cbn [oracle tasks effects];
    rewrite nth_error_new; auto.
Qed.

Lemma invoke_getCurrencies s :
  exists s',
    advance (Invoke MGetCurrencies) s = Some s' /\
    oracle s' = oracle s /\
    nth_error (tasks s') (List.length (tasks s)) =
      Some (Called (if fOracleDisabled (oracle s)
                    then Resolved (JArr (List.map snd (mapCurrencies (oracle s))))
                    else Awaiting BulkFetch)) /\
    effects s' = effects s ++
      (if fOracleDisabled (oracle s) then []
       else [Fetch (ORACLE_BASE ++ "/currencies")%string]).
Proof.
  cbn [advance start]. unfold spawn, as_call. rewrite getCurrencies_called_run.
  eexists. split; [reflexivity|].
  destruct (fOracleDisabled (oracle s)); cbn [oracle tasks effects];
    rewrite nth_error_new; auto.
Qed.

Lemma invoke_load_loaded s :
  fLoadedCurrencies (oracle s) = true ->
  exists s',
    advance (Invoke MLoad) s = Some s' /\
    oracle s' = oracle s /\
    nth_error (tasks s') (List.length (tasks s)) = Some Loaded /\
    effects s' = effects s ++ load_events (oracle s).
Proof.
  intros Hl. cbn [advance start]. unfold spawn. rewrite load_head_run, Hl.
  eexists. split; [reflexivity|]. cbn [oracle tasks effects].
  rewrite nth_error_new. auto.
Qed.

(** The fetch of a [getPrice] call settles. *)
Lemma price_fetch_settles s n c w :
  nth_error (tasks s) n = Some (Called (Awaiting (PriceFetch c))) ->
  exists s',
    advance (Fetched n w) s = Some s' /\
    nth_error (tasks s') n =
      Some (Called
        match net w with
        | Normal cReq =>
            if ok cReq then Awaiting (PriceBody c cReq)
            else Resolved (cachedPrice c (mapCurrencies (oracle s')))
        | Throw _ => Resolved (cachedPrice c (mapCurrencies (oracle s')))
        end) /\
    oracle s' =
      match net w with
      | Normal cReq =>
          if ok cReq then oracle s
          else if status cReq =? 404 then disabled_state w (oracle s)
          else failed_state w (oracle s)
      | Throw _ => failed_state w (oracle s)
      end /\
    fetches (effects s') = fetches (effects s).
Proof.
  intros Hn. cbn [advance]. rewrite Hn. cbn [fetched option_map].
  destruct (getPrice_fetched_run c w (oracle s)) as (t & Ht & Hrun).
  eexists. split; [reflexivity|].
  destruct (net w) as [r|e]; [destruct (ok r); [|destruct (status r =? 404)]|];
    rewrite (resume_run n _ s _ _ _ (as_call_run _ _ _ _ _ Hrun));
    cbn [oracle tasks effects];
    rewrite (replace_nth_same n _ _ _ Hn), (warn_only_fetches _ t Ht); auto.
Qed.

(** The body of the answer to a [getPrice] call is parsed. *)
Lemma price_body_settles s n c cReq clock :
  nth_error (tasks s) n = Some (Called (Awaiting (PriceBody c cReq))) ->
  exists s',
    advance (Parsed n clock) s = Some s' /\
    nth_error (tasks s') n =
      Some (Called (Resolved
        match body cReq with
        | Normal b =>
            if nullish b then cachedPrice c (mapCurrencies (oracle s'))
            else get_prop_opt b "value"
        | Throw _ => cachedPrice c (mapCurrencies (oracle s'))
        end)) /\
    oracle s' =
      match body cReq with
      | Normal b =>
          if nullish b
          then failed_state (World (Normal cReq) clock) (stored_state (JStr c) b (oracle s))
          else stored_state (JStr c) b (oracle s)
      | Throw _ => failed_state (World (Normal cReq) clock) (oracle s)
      end /\
    fetches (effects s') = fetches (effects s).
Proof.
  intros Hn. cbn [advance]. rewrite Hn. cbn [parsed option_map].
  destruct (getPrice_parsed_run c cReq clock (oracle s)) as (t & Ht & Hrun).
  eexists. split; [reflexivity|].
  destruct (body cReq) as [b|e].
  - destruct (get_prop b "value") as [x|e] eqn:Hx.
    + assert (Hb : nullish b = false).
      { destruct (nullish b) eqn:Hb; auto.
        apply (get_prop_throw_nullish b "value") in Hb as [e He]. congruence. }
      rewrite (resume_run n _ s _ _ _ (as_call_run _ _ _ _ _ Hrun)).
      cbn [oracle tasks effects].
      rewrite (replace_nth_same n _ _ _ Hn), (warn_only_fetches _ t Ht), Hb.
      unfold get_prop_opt. rewrite Hx. auto.
    + assert (Hb : nullish b = true)
        by (apply (get_prop_throw_nullish b "value"); eauto).
      rewrite (resume_run n _ s _ _ _ (as_call_run _ _ _ _ _ Hrun)).
      cbn [oracle tasks effects].
      rewrite (replace_nth_same n _ _ _ Hn), (warn_only_fetches _ t Ht), Hb. auto.
  - rewrite (resume_run n _ s _ _ _ (as_call_run _ _ _ _ _ Hrun)).
    cbn [oracle tasks effects].
    rewrite (replace_nth_same n _ _ _ Hn), (warn_only_fetches _ t Ht). auto.
Qed.

(** The fetch of a [getCurrencies] call settles. *)
Lemma bulk_fetch_settles s n w :
  nth_error (tasks s) n = Some (Called (Awaiting BulkFetch)) ->
  exists s',
    advance (Fetched n w) s = Some s' /\
    nth_error (tasks s') n =
      Some (Called
        match net w with
        | Normal cReq =>
            if ok cReq then Awaiting (BulkBody cReq)
            else Resolved (JArr (List.map snd (mapCurrencies (oracle s'))))
        | Throw _ => Resolved (JArr (List.map snd (mapCurrencies (oracle s'))))
        end) /\
    oracle s' =
      match net w with
      | Normal cReq =>
          if ok cReq then oracle s
          else if status cReq =? 404 then disabled_state w (oracle s)
          else failed_state w (oracle s)
      | Throw _ => failed_state w (oracle s)
      end /\
    fetches (effects s') = fetches (effects s).
Proof.
  intros Hn. cbn [advance]. rewrite Hn. cbn [fetched option_map].
  destruct (getCurrencies_fetched_run w (oracle s)) as (t & Ht & Hrun).
  eexists. split; [reflexivity|].
  destruct (net w) as [r|e]; [destruct (ok r); [|destruct (status r =? 404)]|];
    rewrite (resume_run n _ s _ _ _ (as_call_run _ _ _ _ _ Hrun));
    cbn [oracle tasks effects];
    rewrite (replace_nth_same n _ _ _ Hn), (warn_only_fetches _ t Ht); auto.
Qed.

(** The body of the answer to a [getCurrencies] call is parsed. *)
Lemma bulk_body_settles s n cReq clock :
  nth_error (tasks s) n = Some (Called (Awaiting (BulkBody cReq))) ->
  exists s',
    advance (Parsed n clock) s = Some s' /\
    nth_error (tasks s') n =
      Some (Called (Resolved
        match body cReq with
        | Normal (JArr (x :: l)) =>
            if existsb nullish (x :: l)
            then JArr (List.map snd (mapCurrencies (oracle s')))
            else JArr (x :: l)
        | _ => JArr (List.map snd (mapCurrencies (oracle s')))
        end)) /\
    oracle s' =
      match body cReq with
      | Normal (JArr (x :: l)) =>
          match upsert_all (x :: l) (mapCurrencies (oracle s)) with
          | (m, None) => set_loaded true (set_map m (set_failures 0 (oracle s)))
          | (m, Some _) =>
              failed_state (World (Normal cReq) clock) (set_map m (set_failures 0 (oracle s)))
          end
      | _ => failed_state (World (Normal cReq) clock) (oracle s)
      end /\
    fetches (effects s') = fetches (effects s).
Proof.
  intros Hn. cbn [advance]. rewrite Hn. cbn [parsed option_map].
  destruct (getCurrencies_parsed_run cReq clock (oracle s)) as (t & Ht & Hrun).
  eexists. split; [reflexivity|].
  destruct (body cReq) as [b|e];
    [|rewrite (resume_run n _ s _ _ _ (as_call_run _ _ _ _ _ Hrun));
      cbn [oracle tasks effects];
      rewrite (replace_nth_same n _ _ _ Hn), (warn_only_fetches _ t Ht); auto].
  destruct b as [| | | | |[|x l]|];
    try (rewrite (resume_run n _ s _ _ _ (as_call_run _ _ _ _ _ Hrun));
         cbn [oracle tasks effects];
         rewrite (replace_nth_same n _ _ _ Hn), (warn_only_fetches _ t Ht); auto).
  destruct (upsert_all (x :: l) (mapCurrencies (oracle s))) as [m [e|]] eqn:Hup;
    rewrite (resume_run n _ s _ _ _ (as_call_run _ _ _ _ _ Hrun));
    cbn [oracle tasks effects];
    rewrite (replace_nth_same n _ _ _ Hn), (warn_only_fetches _ t Ht).
  - rewrite (upsert_all_error _ _ _ _ Hup). auto.
  - rewrite (upsert_all_no_error _ _ _ Hup). auto.
Qed.

(* ------------------------------------------------------------------ *)
(** *** A call with no other in between is the method as a whole *)

Lemma world_eta w r : net w = Normal r -> World (Normal r) (clock_ms w) = w.
Proof. destruct w as [n c]. cbn. now intros ->. Qed.

Lemma getPrice_alone c w st :
  fOracleDisabled st = false ->
  exists s v,
    play (Invoke (MGetPrice c) :: alone 0 w) (boot st) = Some s /\
    oracle s = state_of (getPrice c w st) /\
    result_of (getPrice c w st) = Normal v /\
    tasks s = [Called (Resolved v)] /\
    fetches (effects s) = fetches (trace_of (getPrice c w st)).
Proof.
  intros Hact.
  destruct (getPrice_active_run st c w Hact) as (t0 & -> & Ht0).
  unfold result_of, state_of, trace_of. cbn [fst snd].
  assert (Hf : fetches (Fetch (ORACLE_BASE ++ "/price/" ++ c)%string :: t0)
               = [Fetch (ORACLE_BASE ++ "/price/" ++ c)%string]).
  { change (Fetch (ORACLE_BASE ++ "/price/" ++ c)%string :: t0)
      with ([Fetch (ORACLE_BASE ++ "/price/" ++ c)%string] ++ t0).
    now rewrite warn_only_fetches. }
  rewrite Hf.
  set (s0 := System st [Called (Awaiting (PriceFetch c))]
                    [Fetch (ORACLE_BASE ++ "/price/" ++ c)%string]).
  assert (H0 : advance (Invoke (MGetPrice c)) (boot st) = Some s0).
  { cbn [advance start]. unfold spawn, as_call, boot. cbn [oracle tasks effects].
    rewrite getPrice_called_run, Hact. reflexivity. }
  cbn [play]. rewrite H0.
  destruct (price_fetch_settles s0 0 c w eq_refl) as (s1 & H1 & Hx1 & Ho1 & Hf1).
  unfold alone, getPrice_summary.
  destruct (net w) as [r|e] eqn:Hnet.
  - destruct (ok r) eqn:Hok.
    + cbn [play]. rewrite H1.
      destruct (price_body_settles s1 0 c r (clock_ms w) Hx1) as (s2 & H2 & Hx2 & Ho2 & Hf2).
      rewrite H2. rewrite (world_eta w r Hnet) in Ho2. rewrite Ho1 in Ho2.
      cbn [oracle s0] in Ho2.
      assert (Hlen : List.length (tasks s2) = 1%nat).
      { cbn [advance] in H1, H2. cbn [tasks s0 nth_error fetched option_map] in H1.
        injection H1 as <-. rewrite Hx1 in H2. cbn [parsed option_map] in H2.
        injection H2 as <-. unfold resume.
        destruct (as_call (getPrice_fetched c w) (oracle s0)) as [[a b] d].
        cbn [oracle tasks].
        destruct (as_call (getPrice_parsed c r (clock_ms w)) b) as [[a' b'] d'].
        cbn [tasks]. now rewrite !replace_nth_length. }
      destruct (tasks s2) as [|y [|z ts]] eqn:Hts; try discriminate Hlen.
      cbn [nth_error] in Hx2. injection Hx2 as ->.
      exists s2. destruct (body r) as [b|e].
      * destruct (get_prop b "value") as [x|e] eqn:Hx.
        -- assert (Hb : nullish b = false).
           { destruct (nullish b) eqn:Hb; auto.
             apply (get_prop_throw_nullish b "value") in Hb as [e He]. congruence. }
           rewrite Hb in *. exists x.
           cbn [fst snd]. rewrite Hts, Ho2, Hf2, Hf1.
           unfold get_prop_opt. rewrite Hx. auto.
        -- assert (Hb : nullish b = true)
             by (apply (get_prop_throw_nullish b "value"); eauto).
           rewrite Hb in *. eexists. cbn [fst snd cached_price_at].
           rewrite Hts, Ho2, Hf2, Hf1. auto.
      * eexists. cbn [fst snd cached_price_at]. rewrite Hts, Ho2, Hf2, Hf1. auto.
    + cbn [play]. rewrite H1.
      assert (Hlen : List.length (tasks s1) = 1%nat).
      { cbn [advance] in H1. cbn [tasks s0 nth_error fetched option_map] in H1.
        injection H1 as <-. unfold resume.
        destruct (as_call (getPrice_fetched c w) (oracle s0)) as [[a b] d].
        cbn [tasks]. now rewrite !replace_nth_length. }
      destruct (tasks s1) as [|y [|z ts]] eqn:Hts; try discriminate Hlen.
      cbn [nth_error] in Hx1. injection Hx1 as ->.
      exists s1.
      destruct (status r =? 404); eexists; cbn [fst snd cached_price_at];
        rewrite Hts, Ho1, Hf1; auto.
  - cbn [play]. rewrite H1.
    assert (Hlen : List.length (tasks s1) = 1%nat).
    { cbn [advance] in H1. cbn [tasks s0 nth_error fetched option_map] in H1.
      injection H1 as <-. unfold resume.
      destruct (as_call (getPrice_fetched c w) (oracle s0)) as [[a b] d].
      cbn [tasks]. now rewrite !replace_nth_length. }
    destruct (tasks s1) as [|y [|z ts]] eqn:Hts; try discriminate Hlen.
    cbn [nth_error] in Hx1. injection Hx1 as ->.
    exists s1. eexists. cbn [fst snd cached_price_at]. rewrite Hts, Ho1, Hf1. auto.
Qed.

Lemma getCurrencies_alone w st :
  fOracleDisabled st = false ->
  exists s v,
    play (Invoke MGetCurrencies :: alone 0 w) (boot st) = Some s /\
    oracle s = state_of (getCurrencies w st) /\
    result_of (getCurrencies w st) = Normal v /\
    tasks s = [Called (Resolved v)] /\
    fetches (effects s) = fetches (trace_of (getCurrencies w st)).
Proof.
  intros Hact.
  destruct (getCurrencies_active_run st w Hact) as (t0 & -> & Ht0).
  unfold result_of, state_of, trace_of. cbn [fst snd].
  assert (Hf : fetches (Fetch (ORACLE_BASE ++ "/currencies")%string :: t0)
               = [Fetch (ORACLE_BASE ++ "/currencies")%string]).
  { change (Fetch (ORACLE_BASE ++ "/currencies")%string :: t0)
      with ([Fetch (ORACLE_BASE ++ "/currencies")%string] ++ t0).
    now rewrite warn_only_fetches. }
  rewrite Hf.
  set (s0 := System st [Called (Awaiting BulkFetch)]
                    [Fetch (ORACLE_BASE ++ "/currencies")%string]).
  assert (H0 : advance (Invoke MGetCurrencies) (boot st) = Some s0).
  { cbn [advance start]. unfold spawn, as_call, boot. cbn [oracle tasks effects].
    rewrite getCurrencies_called_run, Hact. reflexivity. }
  cbn [play]. rewrite H0.
  destruct (bulk_fetch_settles s0 0 w eq_refl) as (s1 & H1 & Hx1 & Ho1 & Hf1).
  assert (Hlen1 : List.length (tasks s1) = 1%nat).
  { cbn [advance] in H1. cbn [tasks s0 nth_error fetched option_map] in H1.
    injection H1 as <-. unfold resume.
    destruct (as_call (getCurrencies_fetched w) (oracle s0)) as [[a b] d].
    cbn [tasks]. now rewrite !replace_nth_length. }
  unfold alone, getCurrencies_summary.
  destruct (net w) as [r|e] eqn:Hnet.
  - destruct (ok r) eqn:Hok.
    + cbn [play]. rewrite H1.
      destruct (bulk_body_settles s1 0 r (clock_ms w) Hx1) as (s2 & H2 & Hx2 & Ho2 & Hf2).
      rewrite H2. rewrite (world_eta w r Hnet) in Ho2. rewrite Ho1 in Ho2.
      cbn [oracle s0] in Ho2.
      assert (Hlen : List.length (tasks s2) = 1%nat).
      { cbn [advance] in H2. rewrite Hx1 in H2. cbn [parsed option_map] in H2.
        injection H2 as <-. unfold resume.
        destruct (as_call (getCurrencies_parsed r (clock_ms w)) (oracle s1)) as [[a' b'] d'].
        cbn [tasks]. now rewrite !replace_nth_length. }
      destruct (tasks s2) as [|y [|z ts]] eqn:Hts; try discriminate Hlen.
      cbn [nth_error] in Hx2. injection Hx2 as ->.
      exists s2.
      destruct (body r) as [b|e];
        [|eexists; cbn [fst snd cached_list_at]; rewrite Hts, Ho2, Hf2, Hf1; auto].
      destruct b as [| | | | |[|x l]|];
        try (eexists; cbn [fst snd cached_list_at]; rewrite Hts, Ho2, Hf2, Hf1; now auto).
      destruct (upsert_all (x :: l) (mapCurrencies st)) as [m [e|]] eqn:Hup.
      * eexists; cbn [fst snd cached_list_at]; rewrite Hts, Ho2, Hf2, Hf1.
        pose proof (upsert_all_error _ _ _ _ Hup) as He. cbn [existsb] in He.
        cbv iota beta. rewrite He. auto.
      * eexists; cbn [fst snd cached_list_at]; rewrite Hts, Ho2, Hf2, Hf1.
        pose proof (upsert_all_no_error _ _ _ Hup) as He. cbn [existsb] in He.
        cbv iota beta. rewrite He. auto.
    + cbn [play]. rewrite H1.
      destruct (tasks s1) as [|y [|z ts]] eqn:Hts; try discriminate Hlen1.
      cbn [nth_error] in Hx1. injection Hx1 as ->.
      exists s1.
      destruct (status r =? 404); eexists; cbn [fst snd cached_list_at];
        rewrite Hts, Ho1, Hf1; auto.
  - cbn [play]. rewrite H1.
    destruct (tasks s1) as [|y [|z ts]] eqn:Hts; try discriminate Hlen1.
    cbn [nth_error] in Hx1. injection Hx1 as ->.
    exists s1. eexists. cbn [fst snd cached_list_at]. rewrite Hts, Ho1, Hf1. auto.
Qed.

(* ------------------------------------------------------------------ *)
(** *** A request that is never answered *)

Lemma no_answer_keeps_waiting n : forall i s x,
  fOracleDisabled (oracle s) = false -> nth_error (tasks s) 0 = Some x ->
  exists s',
    play (List.map no_answer (seq i n)) s = Some s' /\
    fOracleDisabled (oracle s') = false /\ nth_error (tasks s') 0 = Some x.
Proof.
  induction n as [|n IH]; intros i s x Hact Hx; cbn [seq List.map play].
  - exists s. auto.
  - unfold no_answer at 1.
    destruct (invoke_getPrice s "eur") as (s1 & H1 & Ho & _). rewrite H1.
    apply IH; [now rewrite Ho|].
    eapply advance_others; eauto. discriminate.
Qed.

(** C3 (as stated) fails twice over.  The code sets no timeout: a
    [getPrice] call whose request is never answered stays suspended at
    its [await], whatever else happens on the page.  And [load] may
    loop for ever even though every request is answered: while the bulk
    endpoint answers 500 and another task fetches a price successfully
    during each sleep, every success resets the count of consecutive
    failures, the oracle is never disabled, and no number of rounds
    brings [load] to its end. *)
Lemma always_resolves_counterexample :
  ~ always_resolves (MGetPrice "usd") active_oracle /\
  ~ load_always_resolves active_oracle bulk_endpoint_down.
Proof.
  split.
  - intros H.
    assert (Hwait : forall n, exists s,
              play (Invoke (MGetPrice "usd") :: List.map no_answer (seq 0 n))
                   (boot active_oracle) = Some s /\
              nth_error (tasks s) 0 = Some (Called (Awaiting (PriceFetch "usd")))).
    { intros n. cbn [play advance].
      destruct (no_answer_keeps_waiting n 0
                  (spawn (start (MGetPrice "usd")) (boot active_oracle))
                  (Called (Awaiting (PriceFetch "usd"))) eq_refl eq_refl)
        as (s & Hs & _ & Hx).
      exists s. auto. }
    destruct (H no_answer) as (n & s & Hplay & Hres).
    + intros n. destruct (Hwait n) as (s & -> & _). discriminate.
    + destruct (Hwait n) as (s' & Hs' & Hx). rewrite Hplay in Hs'.
      injection Hs' as <-. rewrite Hx in Hres. discriminate Hres.
  - exact load_loops_while_prices_succeed.
Qed.

(** C3 (as amended).  Whatever calls overlap and however the network
    answers, no call of [getPrice], [getCurrencies] or [load] ever
    rejects.  A call of [getPrice] or [getCurrencies] on a disabled
    instance resolves at once from the cache; on an active one it makes
    its request and resolves as soon as the fetch and the body that it
    awaits have settled: with the cached price of the requested code,
    0 if the cache has none, or with the cached snapshot, both read
    after the failure has been recorded, when the fetch rejects, the
    status is not 2xx or the body does not parse (for [getCurrencies]:
    or is not a non-empty list); with the body's [value] or the fetched
    list otherwise.  Until then the call stays pending, whatever the
    other calls do.  [load] resolves at once on a loaded instance; and
    called with no other call in flight on an instance that is sound,
    it never waits for something that cannot happen, makes at most
    [ORACLE_RETRY_LIMIT] requests and is over after at most 12 ticks of
    its own, as long as no other call is made meanwhile and no answer
    is a list with a [null] element.  A call that no other call
    interrupts is the method as a whole: its stretches in a row leave
    the instance, the result and the requests of [getPrice] and
    [getCurrencies] as composed above, which, like [load], return and
    never throw whatever the settled answers are. *)
Theorem oracle_calls_never_reject :
  (forall st ks s, play ks (boot st) = Some s ->
     Forall (fun x => task_rejected x = false) (tasks s)) /\
  (forall s c, exists s',
     advance (Invoke (MGetPrice c)) s = Some s' /\
     nth_error (tasks s') (List.length (tasks s)) =
       Some (Called (if fOracleDisabled (oracle s)
                     then Resolved (cachedPrice c (mapCurrencies (oracle s')))
                     else Awaiting (PriceFetch c)))) /\
  (forall s n c w,
     nth_error (tasks s) n = Some (Called (Awaiting (PriceFetch c))) ->
     exists s',
       advance (Fetched n w) s = Some s' /\
       nth_error (tasks s') n =
         Some (Called
           match net w with
           | Normal cReq =>
               if ok cReq then Awaiting (PriceBody c cReq)
               else Resolved (cachedPrice c (mapCurrencies (oracle s')))
           | Throw _ => Resolved (cachedPrice c (mapCurrencies (oracle s')))
           end)) /\
  (forall s n c cReq clock,
     nth_error (tasks s) n = Some (Called (Awaiting (PriceBody c cReq))) ->
     exists s',
       advance (Parsed n clock) s = Some s' /\
       nth_error (tasks s') n =
         Some (Called (Resolved
           match body cReq with
           | Normal b =>
               if nullish b then cachedPrice c (mapCurrencies (oracle s'))
               else get_prop_opt b "value"
           | Throw _ => cachedPrice c (mapCurrencies (oracle s'))
           end))) /\
  (forall c m, (forall k v, In (k, v) m -> k <> JStr c) -> cachedPrice c m = JNum 0) /\
  (forall c pre fields post v,
     (forall k x, In (k, x) pre -> k <> JStr c) ->
     assoc "value" fields = Some (JNum v) ->
     cachedPrice c (pre ++ (JStr c, JObj fields) :: post) = JNum v) /\
  (forall s, exists s',
     advance (Invoke MGetCurrencies) s = Some s' /\
     nth_error (tasks s') (List.length (tasks s)) =
       Some (Called (if fOracleDisabled (oracle s)
                     then Resolved (JArr (List.map snd (mapCurrencies (oracle s'))))
                     else Awaiting BulkFetch))) /\
  (forall s n w,
     nth_error (tasks s) n = Some (Called (Awaiting BulkFetch)) ->
     exists s',
       advance (Fetched n w) s = Some s' /\
       nth_error (tasks s') n =
         Some (Called
           match net w with
           | Normal cReq =>
               if ok cReq then Awaiting (BulkBody cReq)
               else Resolved (JArr (List.map snd (mapCurrencies (oracle s'))))
           | Throw _ => Resolved (JArr (List.map snd (mapCurrencies (oracle s'))))
           end)) /\
  (forall s n cReq clock,
     nth_error (tasks s) n = Some (Called (Awaiting (BulkBody cReq))) ->
     exists s',
       advance (Parsed n clock) s = Some s' /\
       nth_error (tasks s') n =
         Some (Called (Resolved
           match body cReq with
           | Normal (JArr (x :: l)) =>
               if existsb nullish (x :: l)
               then JArr (List.map snd (mapCurrencies (oracle s')))
               else JArr (x :: l)
           | _ => JArr (List.map snd (mapCurrencies (oracle s')))
           end))) /\
  (forall k s s' n x,
     advance k s = Some s' -> tick_task k <> Some n ->
     nth_error (tasks s) n = Some x -> nth_error (tasks s') n = Some x) /\
  (forall s, fLoadedCurrencies (oracle s) = true ->
     exists s',
       advance (Invoke MLoad) s = Some s' /\
       nth_error (tasks s') (List.length (tasks s)) = Some Loaded) /\
  (forall st ks s,
     oracle_sound st ->
     forallb (fun k => negb (is_invoke k) && negb (null_element_tick k)) ks = true ->
     play (Invoke MLoad :: ks) (boot st) = Some s ->
     load_moves_on s /\
     (List.length (fetches (effects s)) <= Z.to_nat ORACLE_RETRY_LIMIT)%nat /\
     (List.length ks <= 12)%nat) /\
  (forall st c w,
     fOracleDisabled st = false ->
     exists s v,
       play (Invoke (MGetPrice c) :: alone 0 w) (boot st) = Some s /\
       oracle s = state_of (getPrice c w st) /\
       result_of (getPrice c w st) = Normal v /\
       tasks s = [Called (Resolved v)] /\
       fetches (effects s) = fetches (trace_of (getPrice c w st))) /\
  (forall st w,
     fOracleDisabled st = false ->
     exists s v,
       play (Invoke MGetCurrencies :: alone 0 w) (boot st) = Some s /\
       oracle s = state_of (getCurrencies w st) /\
       result_of (getCurrencies w st) = Normal v /\
       tasks s = [Called (Resolved v)] /\
       fetches (effects s) = fetches (trace_of (getCurrencies w st))) /\
  (forall st c w, exists v, result_of (getPrice c w st) = Normal v) /\
  (forall st w, exists v, result_of (getCurrencies w st) = Normal v) /\
  (forall st fuel sc, exists b, result_of (load fuel sc st) = Normal b).
Proof.
  split; [|split; [|split; [|split; [|split; [|split; [|split; [|split;
    [|split; [|split; [|split; [|split; [|split; [|split; [|split;
    [|split]]]]]]]]]]]]]]].
  - intros st ks s Hplay. eapply no_rejection_play; [|exact Hplay]. constructor.
  - intros s c. destruct (invoke_getPrice s c) as (s' & H1 & Ho & Hx & _).
    exists s'. rewrite Ho. auto.
  - intros s n c w Hn.
    destruct (price_fetch_settles s n c w Hn) as (s' & H1 & Hx & _). eauto.
  - intros s n c cReq clock Hn.
    destruct (price_body_settles s n c cReq clock Hn) as (s' & H1 & Hx & _). eauto.
  - exact cachedPrice_missing.
  - exact cachedPrice_found.
  - intros s. destruct (invoke_getCurrencies s) as (s' & H1 & Ho & Hx & _).
    exists s'. rewrite Ho. auto.
  - intros s n w Hn.
    destruct (bulk_fetch_settles s n w Hn) as (s' & H1 & Hx & _). eauto.
  - intros s n cReq clock Hn.
    destruct (bulk_body_settles s n cReq clock Hn) as (s' & H1 & Hx & _). eauto.
  - exact advance_others.
  - intros s Hl. destruct (invoke_load_loaded s Hl) as (s' & H1 & _ & Hx & _). eauto.
  - intros st ks s Hsound Hks Hplay.
    destruct (load_alone_start st Hsound) as (s0 & H0 & Ha0 & Hb0 & Hf0).
    cbn [play] in Hplay. rewrite H0 in Hplay.
    destruct (load_alone_play ks s0 s Ha0 Hks Hplay) as (Ha & Hb & Hf).
    destruct (load_alone_budgets s Ha) as [Hb1 Hf1].
    destruct Hsound as (Hn & _).
    split; [now apply load_alone_moves_on|].
    unfold ORACLE_RETRY_LIMIT in *.
    destruct (fLoadedCurrencies st); split; lia.
  - intros st c w. apply getPrice_alone.
  - intros st w. apply getCurrencies_alone.
  - intros st c w. apply getPrice_returns.
  - intros st w. apply getCurrencies_returns.
  - intros st fuel sc. destruct (load_props sc fuel st) as (b & st' & t & -> & _).
    exists b. reflexivity.
Qed.

Lemma oracle_calls_never_reject_witness :
  let st := mkOracle [(JStr "usd", rec_usd 7)] false 0 false in
  let alone_ := [Fetched 0 (http_error 500); Returned 0; Woke 0;
                 Fetched 0 network_down; Returned 0; Woke 0;
                 Fetched 0 (http_error 503); Returned 0] in
  match play [Invoke (MGetPrice "usd"); Invoke MLoad] (boot st) with
  | Some s =>
      exists s',
        advance (Fetched 0 (http_error 500)) s = Some s' /\
        nth_error (tasks s') 0 = Some (Called (Resolved (JNum 7))) /\
        nth_error (tasks s') 1 = Some (Loading (Awaiting BulkFetch)) /\
        Forall (fun x => task_rejected x = false) (tasks s')
  | None => False
  end /\
  match play (Invoke MLoad :: alone_) (boot (Oracle_new true network_down)) with
  | Some s =>
      tasks s = [Loaded] /\ fOracleDisabled (oracle s) = true /\
      (List.length (fetches (effects s)) <= 3)%nat /\ (List.length alone_ <= 12)%nat
  | None => False
  end.
Proof.
  intros st alone_.
  destruct oracle_calls_never_reject
    as (Hnever & _ & Hfetch & _ & _ & _ & _ & _ & _ & Hothers & _ & Hload & _).
  split.
  - destruct (play [Invoke (MGetPrice "usd"); Invoke MLoad] (boot st)) as [s|] eqn:Hs;
      [|discriminate Hs].
    assert (H0 : nth_error (tasks s) 0 = Some (Called (Awaiting (PriceFetch "usd"))))
      by (injection Hs as <-; reflexivity).
    assert (H1 : nth_error (tasks s) 1 = Some (Loading (Awaiting BulkFetch)))
      by (injection Hs as <-; reflexivity).
    destruct (Hfetch s 0%nat "usd" (http_error 500) H0) as (s' & Hadv & Hx).
    exists s'. split; [exact Hadv|]. split; [|split].
    + rewrite Hx. injection Hs as <-. cbn [advance] in Hadv.
      injection Hadv as <-. reflexivity.
    + apply (Hothers (Fetched 0 (http_error 500)) s s' 1%nat _ Hadv); [discriminate|exact H1].
    + apply (Hnever st [Invoke (MGetPrice "usd"); Invoke MLoad; Fetched 0 (http_error 500)]).
      change (play [Invoke (MGetPrice "usd"); Invoke MLoad; Fetched 0 (http_error 500)]
                (boot st))
        with (match play [Invoke (MGetPrice "usd"); Invoke MLoad] (boot st) with
              | Some s0 => play [Fetched 0 (http_error 500)] s0
              | None => None
              end).
      rewrite Hs. cbn [play]. now rewrite Hadv.
  - destruct (play (Invoke MLoad :: alone_) (boot (Oracle_new true network_down)))
      as [s|] eqn:Hs; [|discriminate Hs].
    destruct (Hload (Oracle_new true network_down) alone_ s) as (_ & Hf & Hk).
    + unfold oracle_sound. cbn. split; [lia|]. split; [reflexivity|discriminate].
    + reflexivity.
    + exact Hs.
    + split; [injection Hs as <-; reflexivity|].
      split; [injection Hs as <-; reflexivity|]. split; [exact Hf|exact Hk].
Defined.

(* ================================================================== *)
(** ** The instance under overlapping calls *)

(** X3: whatever calls of [getPrice], [getCurrencies] and [load] are
    made on an instance, however they overlap and however the network
    answers them, the failure counter is never negative and is below
    [ORACLE_RETRY_LIMIT] while the oracle is active, and a disabled
    oracle is marked loaded and has the four fallback codes in its
    cache.  On a disabled oracle the counter may pass the limit: the
    answers to requests that were in flight when it was disabled are
    still counted (four overlapping requests, each answered 500, leave
    it at 4). *)
Theorem overlapping_calls_keep_oracle_sound :
  (forall enabled w ks s,
     play ks (boot (Oracle_new enabled w)) = Some s ->
     0 <= nOracleFailures (oracle s) /\
     (fOracleDisabled (oracle s) = false ->
        nOracleFailures (oracle s) < ORACLE_RETRY_LIMIT) /\
     (fOracleDisabled (oracle s) = true ->
        fLoadedCurrencies (oracle s) = true /\
        forall c, In c FALLBACK_CURRENCIES ->
                  map_has (JStr c) (mapCurrencies (oracle s)) = true)) /\
  (forall c1 c2 c3 c4 w,
     match play [Invoke (MGetPrice c1); Invoke (MGetPrice c2);
                 Invoke (MGetPrice c3); Invoke (MGetPrice c4);
                 Fetched 0 (http_error 500); Fetched 1 (http_error 500);
                 Fetched 2 (http_error 500); Fetched 3 (http_error 500)]
                (boot (Oracle_new true w)) with
     | Some s => nOracleFailures (oracle s) = 4 /\ fOracleDisabled (oracle s) = true
     | None => False
     end).
Proof.
  split.
  - intros enabled w ks s Hplay.
    apply (sound_play ks _ s Hplay). apply sound_new.
  - intros c1 c2 c3 c4 w. cbn. auto.
Qed.

Lemma overlapping_calls_keep_oracle_sound_witness :
  match play [Invoke (MGetPrice "usd"); Invoke MLoad; Invoke (MGetPrice "eur");
              Fetched 1 (http_error 404); Fetched 0 (http_error 500);
              Fetched 2 network_down; Returned 1]
             (boot (Oracle_new true network_down)) with
  | Some s =>
      nOracleFailures (oracle s) = 2 /\ fOracleDisabled (oracle s) = true /\
      fLoadedCurrencies (oracle s) = true /\
      map_has (JStr "gbp") (mapCurrencies (oracle s)) = true
  | None => False
  end.
Proof.
  destruct overlapping_calls_keep_oracle_sound as [Hsound _].
  destruct (play [Invoke (MGetPrice "usd"); Invoke MLoad; Invoke (MGetPrice "eur");
                  Fetched 1 (http_error 404); Fetched 0 (http_error 500);
                  Fetched 2 network_down; Returned 1]
                 (boot (Oracle_new true network_down))) as [s|] eqn:Hs;
    [|discriminate Hs].
  destruct (Hsound true network_down _ s Hs) as (_ & _ & Hdis).
  assert (Hd : fOracleDisabled (oracle s) = true) by (injection Hs as <-; reflexivity).
  destruct (Hdis Hd) as [Hl Hfb].
  split; [injection Hs as <-; reflexivity|]. split; [exact Hd|]. split; [exact Hl|].
  apply Hfb. simpl. tauto.
Defined.

(* ================================================================== *)
(** ** How many requests load makes *)

(** X12: called on a sound instance with no other call in flight, and
    as long as no other call is made before it ends and no answer is a
    list with a [null] element, [load] makes at most
    [ORACLE_RETRY_LIMIT] requests, however its own awaits settle: at
    most as many as the failure counter is short of the limit, and none
    when [loadedCurrencies] is already true. *)
Theorem load_left_alone_request_bound st ks s :
  oracle_sound st ->
  forallb (fun k => negb (is_invoke k) && negb (null_element_tick k)) ks = true ->
  play (Invoke MLoad :: ks) (boot st) = Some s ->
  (List.length (fetches (effects s))
   <= Z.to_nat (ORACLE_RETRY_LIMIT - nOracleFailures st))%nat /\
  (List.length (fetches (effects s)) <= Z.to_nat ORACLE_RETRY_LIMIT)%nat /\
  (fLoadedCurrencies st = true -> fetches (effects s) = []).
Proof.
  intros Hsound Hks Hplay.
  destruct (load_alone_start st Hsound) as (s0 & H0 & Ha0 & Hb0 & Hf0).
  cbn [play] in Hplay. rewrite H0 in Hplay.
  destruct (load_alone_play ks s0 s Ha0 Hks Hplay) as (Ha & Hb & Hf).
  destruct (load_alone_budgets s Ha) as [Hb1 Hf1].
  destruct Hsound as (Hn & _).
  unfold ORACLE_RETRY_LIMIT in *.
  destruct (fLoadedCurrencies st).
  - split; [lia|]. split; [lia|]. intros _.
    destruct (fetches (effects s)); [reflexivity|cbn [List.length] in *; lia].
  - split; [lia|]. split; [lia|discriminate].
Qed.

Lemma load_left_alone_request_bound_witness :
  match play [Invoke MLoad; Fetched 0 (http_error 500); Returned 0; Woke 0;
              Fetched 0 (ok_json 200 (JArr []) 0); Parsed 0 0; Returned 0]
             (boot (mkOracle [] false 1 false)) with
  | Some s => (List.length (fetches (effects s)) <= 2)%nat /\ tasks s = [Loaded]
  | None => False
  end.
Proof.
  destruct (play [Invoke MLoad; Fetched 0 (http_error 500); Returned 0; Woke 0;
                  Fetched 0 (ok_json 200 (JArr []) 0); Parsed 0 0; Returned 0]
                 (boot (mkOracle [] false 1 false))) as [s|] eqn:Hs; [|discriminate Hs].
  split; [|injection Hs as <-; reflexivity].
  apply (load_left_alone_request_bound (mkOracle [] false 1 false)
           [Fetched 0 (http_error 500); Returned 0; Woke 0;
            Fetched 0 (ok_json 200 (JArr []) 0); Parsed 0 0; Returned 0] s).
  - unfold oracle_sound. cbn. split; [lia|]. split; [reflexivity|discriminate].
  - reflexivity.
  - exact Hs.
Defined.
